(** * Sheet motion engine: spring simulator and gesture controller

    A shallow embedding of [SheetPhysics] (sheet-physics.js) and of the
    pointer handling of [SheetController] (sheet-controller.js), with the
    properties of the motion-engine specification stated over it.  The
    repository holds two variants of the controller; the embedding follows
    the one that tracks the viewport height and lets a drag start on the
    background while the sheet is closed or docked.  Their pointer-move,
    pointer-up and pointer-cancel handlers are the same.

    Numbers.  JavaScript numbers are IEEE-754 doubles.  The embedding reads
    every arithmetic expression of the source over the exact rationals [Q]:
    the comparisons, branches and thresholds are the ones of the source,
    rounding, infinities and NaN are not represented.  An assignment
    [this.position = x] stores the very term [x], so "set exactly to" is
    Leibniz equality; values that the source computes along two different
    expressions are compared with [==].  The constructor replaces a zero
    mass by 1, so the one division by a field of the object, in the
    integration step, is never a division by zero on a constructed object.

    Where rounding, overflow or NaN decide a property (the settle test of
    a frame, the convergence of the loop, the strictness of the edge
    resistance), the module [Binary64] repeats the simulator over binary64
    floats, and the property is stated there.  The bounds of the edge
    resistance and the sign of the velocity estimate are stated over [Q]
    in the form the rounded computation keeps too: bounds included,
    monotone rather than strictly increasing.

    Objects.  A snap table is the list of its [Object.entries], in
    iteration order.  The methods mutate [this]; here every method takes the
    object and returns the updated object together with the callbacks it
    invoked, and a completion that tells a normal return from a thrown
    exception.

    The form.  The last part embeds the numeric core of
    [MortgageDataCollection] (mortgage-data-collection.js), the form that
    drives the sheet: the income-source checkboxes, the ratio limit, the
    affordability estimate and the page navigation.  The reading of
    numbers from the text of the inputs is a parameter of these
    definitions. *)

From Stdlib Require Import Floats.
From Stdlib Require Import QArith Qabs Qminmax Lqa Lia ZArith.
From Stdlib Require Import List String Bool Sorted Permutation.
Import ListNotations.
Open Scope Q_scope.

(** ** The fragment of JavaScript the source uses *)

Module JS.

(** [x < y] and [x > y] on numbers. *)
Definition ltb (x y : Q) : bool := negb (Qle_bool y x).
Definition gtb (x y : Q) : bool := ltb y x.

Definition Math_abs (x : Q) : Q := Qabs x.
Definition Math_min (x y : Q) : Q := Qmin x y.
Definition Math_max (x y : Q) : Q := Qmax x y.

(** [Math.sign]: 1, -1 or 0. *)
Definition Math_sign (x : Q) : Q :=
  if ltb 0 x then 1 else if ltb x 0 then -1 else 0.

(** [Math.pow(x, 2)]. *)
Definition Math_pow2 (x : Q) : Q := x ^ 2.

Inductive Error : Type :=
| TypeError (message : string).

(** How a call ends: with a value, or with a thrown exception. *)
Inductive completion (A : Type) : Type :=
| Normal (a : A)
| Throw (e : Error).
Arguments Normal {A} a.
Arguments Throw {A} e.

Definition returns {A : Type} (c : completion A) : Prop :=
  exists a, c = Normal a.

(** [o || d] for a numeric option of the constructor: an absent or zero
    value is falsy and yields the default. *)
Definition or_default (o : option Q) (d : Q) : Q :=
  match o with
  | Some x => if Qeq_bool x 0 then d else x
  | None => d
  end.

(** [Object.entries], [Object.values]: the table already is its list of
    entries. *)
Definition Object_entries (o : list (string * Q)) : list (string * Q) := o.
Definition Object_values (o : list (string * Q)) : list Q := map snd o.

(** [o[name]]: the own property, [undefined] when absent. *)
Fixpoint get (o : list (string * Q)) (name : string) : option Q :=
  match o with
  | [] => None
  | (k, v) :: o' => if String.eqb k name then Some v else get o' name
  end.

(** [arr.reduce(f)] without an initial value: throws on an empty array,
    otherwise folds from the first element over the rest. *)
Definition Array_reduce {A : Type} (f : A -> A -> A) (arr : list A)
  : completion A :=
  match arr with
  | [] => Throw (TypeError "Reduce of empty array with no initial value")
  | x :: rest => Normal (fold_left f rest x)
  end.

(** [arr.sort(cmp)]: the sort is stable; [b] goes before [a] only when
    [cmp(a, b) > 0]. *)
Fixpoint insert {A : Type} (cmp : A -> A -> Q) (x : A) (l : list A)
  : list A :=
  match l with
  | [] => [x]
  | y :: l' => if gtb (cmp x y) 0 then y :: insert cmp x l' else x :: l
  end.

Definition Array_sort {A : Type} (cmp : A -> A -> Q) (arr : list A)
  : list A :=
  fold_right (insert cmp) [] arr.

(** [arr.findIndex(p)]: the first index that satisfies [p], or -1. *)
Fixpoint findIndex {A : Type} (p : A -> bool) (arr : list A) : Z :=
  match arr with
  | [] => (-1)%Z
  | x :: arr' =>
      if p x then 0%Z
      else let i := findIndex p arr' in
           if (i <? 0)%Z then (-1)%Z else (i + 1)%Z
  end.

(** [arr[i]] for an integer index: [undefined] out of range. *)
Definition index {A : Type} (arr : list A) (i : Z) : option A :=
  if (i <? 0)%Z then None else nth_error arr (Z.to_nat i).

End JS.
Import JS.

(** ** SheetPhysics *)

(** The callbacks the simulator invokes, in order. [RequestFrame] is the
    call [requestAnimationFrame(this.animationFrame.bind(this))]. *)
Inductive Event : Type :=
| Update (position : Q)
| Complete
| RequestFrame.

(** The fields of a [SheetPhysics] object.  [onUpdate] and [onComplete]
    tell whether a callback is installed ([null] otherwise). *)
Record SheetPhysics : Type := mkPhysics {
  mass : Q;
  stiffness : Q;
  damping : Q;
  initialVelocity : Q;
  snapPoints : list (string * Q);
  position : Q;
  targetPosition : Q;
  velocity : Q;
  animating : bool;
  positionHistory : list Q;
  timeHistory : list Q;
  maxHistoryLength : nat;
  allowOvershoot : bool;
  overshootMultiplier : Q;
  distanceThreshold : Q;
  lastFrameTime : Q;
  onUpdate : bool;
  onComplete : bool
}.

Definition set_position (x : Q) (s : SheetPhysics) : SheetPhysics :=
  mkPhysics (mass s) (stiffness s) (damping s) (initialVelocity s)
    (snapPoints s) x (targetPosition s) (velocity s) (animating s)
    (positionHistory s) (timeHistory s) (maxHistoryLength s)
    (allowOvershoot s) (overshootMultiplier s) (distanceThreshold s)
    (lastFrameTime s) (onUpdate s) (onComplete s).

Definition set_targetPosition (x : Q) (s : SheetPhysics) : SheetPhysics :=
  mkPhysics (mass s) (stiffness s) (damping s) (initialVelocity s)
    (snapPoints s) (position s) x (velocity s) (animating s)
    (positionHistory s) (timeHistory s) (maxHistoryLength s)
    (allowOvershoot s) (overshootMultiplier s) (distanceThreshold s)
    (lastFrameTime s) (onUpdate s) (onComplete s).

Definition set_velocity (x : Q) (s : SheetPhysics) : SheetPhysics :=
  mkPhysics (mass s) (stiffness s) (damping s) (initialVelocity s)
    (snapPoints s) (position s) (targetPosition s) x (animating s)
    (positionHistory s) (timeHistory s) (maxHistoryLength s)
    (allowOvershoot s) (overshootMultiplier s) (distanceThreshold s)
    (lastFrameTime s) (onUpdate s) (onComplete s).

Definition set_animating (b : bool) (s : SheetPhysics) : SheetPhysics :=
  mkPhysics (mass s) (stiffness s) (damping s) (initialVelocity s)
    (snapPoints s) (position s) (targetPosition s) (velocity s) b
    (positionHistory s) (timeHistory s) (maxHistoryLength s)
    (allowOvershoot s) (overshootMultiplier s) (distanceThreshold s)
    (lastFrameTime s) (onUpdate s) (onComplete s).

Definition set_history (ps ts : list Q) (s : SheetPhysics) : SheetPhysics :=
  mkPhysics (mass s) (stiffness s) (damping s) (initialVelocity s)
    (snapPoints s) (position s) (targetPosition s) (velocity s) (animating s)
    ps ts (maxHistoryLength s)
    (allowOvershoot s) (overshootMultiplier s) (distanceThreshold s)
    (lastFrameTime s) (onUpdate s) (onComplete s).

Definition set_lastFrameTime (t : Q) (s : SheetPhysics) : SheetPhysics :=
  mkPhysics (mass s) (stiffness s) (damping s) (initialVelocity s)
    (snapPoints s) (position s) (targetPosition s) (velocity s) (animating s)
    (positionHistory s) (timeHistory s) (maxHistoryLength s)
    (allowOvershoot s) (overshootMultiplier s) (distanceThreshold s)
    t (onUpdate s) (onComplete s).

Definition set_callbacks (u c : bool) (s : SheetPhysics) : SheetPhysics :=
  mkPhysics (mass s) (stiffness s) (damping s) (initialVelocity s)
    (snapPoints s) (position s) (targetPosition s) (velocity s) (animating s)
    (positionHistory s) (timeHistory s) (maxHistoryLength s)
    (allowOvershoot s) (overshootMultiplier s) (distanceThreshold s)
    (lastFrameTime s) u c.

(** The [options] argument of the constructor; [None] is an absent key. *)
Record Options : Type := mkOptions {
  opt_mass : option Q;
  opt_stiffness : option Q;
  opt_damping : option Q;
  opt_initialVelocity : option Q;
  opt_snapPoints : option (list (string * Q));
  opt_allowOvershoot : option bool;
  opt_overshootMultiplier : option Q;
  opt_distanceThreshold : option Q
}.

Definition defaultSnapPoints : list (string * Q) :=
  [("closed", 0); ("docked", 0.15); ("half", 0.5); ("full", 0.85)]%string.

(** [constructor(options = {})].  An object given for [snapPoints] is
    truthy even when it has no key. *)
Definition new_SheetPhysics (options : Options) : SheetPhysics :=
  let initialVelocity := or_default (opt_initialVelocity options) 0 in
  {| mass := or_default (opt_mass options) 1;
     stiffness := or_default (opt_stiffness options) 350;
     damping := or_default (opt_damping options) 35;
     initialVelocity := initialVelocity;
     snapPoints := match opt_snapPoints options with
                   | Some t => t
                   | None => defaultSnapPoints
                   end;
     position := 0;
     targetPosition := 0;
     velocity := initialVelocity;
     animating := false;
     positionHistory := [];
     timeHistory := [];
     maxHistoryLength := 8;
     allowOvershoot := match opt_allowOvershoot options with
                       | Some b => b
                       | None => true
                       end;
     overshootMultiplier := or_default (opt_overshootMultiplier options) 0.2;
     distanceThreshold := or_default (opt_distanceThreshold options) 0.1;
     lastFrameTime := 0;
     onUpdate := false;
     onComplete := false |}.

Definition notifyUpdate (s : SheetPhysics) : list Event :=
  if onUpdate s then [Update (position s)] else [].

Definition notifyComplete (s : SheetPhysics) : list Event :=
  if onComplete s then [Complete] else [].

(** [animateTo(targetPosition, initialVelocity = null)]; [now] is the value
    of [performance.now()]. *)
Definition animateTo (now : Q) (target : Q) (initialVelocity : option Q)
  (s : SheetPhysics) : SheetPhysics * list Event :=
  let s := match initialVelocity with
           | Some v => set_velocity v s
           | None => s
           end in
  let s := set_targetPosition target s in
  let s :=
    if allowOvershoot s && gtb (Math_abs (velocity s)) 2 then
      let distance := Math_abs (targetPosition s - position s) in
      if gtb distance (distanceThreshold s) then
        let overshootAmount :=
          Math_min 0.1 (Math_abs (velocity s) * overshootMultiplier s) in
        let direction := Math_sign (velocity s) in
        let s := set_targetPosition
                   (targetPosition s + overshootAmount * direction) s in
        set_targetPosition (Math_max 0 (Math_min 1 (targetPosition s))) s
      else s
    else s in
  if animating s then (s, [])
  else (set_lastFrameTime now (set_animating true s), [RequestFrame]).

(** [findNearestSnapPoint(position)]. *)
Definition findNearestSnapPoint (position : Q) (s : SheetPhysics)
  : completion Q :=
  let snapValues := Object_values (snapPoints s) in
  Array_reduce
    (fun prev curr =>
       if ltb (Math_abs (curr - position)) (Math_abs (prev - position))
       then curr else prev)
    snapValues.

(** What a method leaves behind: the object as mutated up to the return or
    the throw, the callbacks invoked, and the completion. *)
Record Outcome (A : Type) : Type := mkOutcome {
  out_state : SheetPhysics;
  out_events : list Event;
  out_result : completion A
}.
Arguments mkOutcome {A} _ _ _.
Arguments out_state {A} _.
Arguments out_events {A} _.
Arguments out_result {A} _.

(** The first half of [animationFrame(timestamp)]: the clamped time step,
    the forces, and the update of velocity and position.  Returns the
    object together with the local [displacement], which was computed
    before [position] moved. *)
Definition integrate (timestamp : Q) (s : SheetPhysics) : SheetPhysics * Q :=
  let deltaTime := Math_min 0.064 ((timestamp - lastFrameTime s) / 1000) in
  let s := set_lastFrameTime timestamp s in
  let displacement := targetPosition s - position s in
  let springForce := displacement * stiffness s in
  let velocitySquared := velocity s * Math_abs (velocity s) in
  let dampingForce :=
    if gtb velocitySquared 0
    then velocity s * (damping s + Math_abs (velocity s) * 0.05)
    else velocity s * damping s in
  let acceleration := (springForce - dampingForce) / mass s in
  let s := set_velocity (velocity s + acceleration * deltaTime) s in
  let s :=
    if ltb (Math_abs (velocity s)) 0.001 && ltb (Math_abs displacement) 0.001
    then set_velocity 0 s
    else s in
  let s := set_position (position s + velocity s * deltaTime) s in
  (s, displacement).

(** The test that keeps the loop going. *)
Definition keepsGoing (s : SheetPhysics) (displacement : Q) : bool :=
  gtb (Math_abs (velocity s)) 0.01 || gtb (Math_abs displacement) 0.001.

(** [animationFrame(timestamp)]. *)
Definition animationFrame (timestamp : Q) (s : SheetPhysics) : Outcome unit :=
  let '(s, displacement) := integrate timestamp s in
  let ev := notifyUpdate s in
  if keepsGoing s displacement then
    mkOutcome s (ev ++ [RequestFrame]) (Normal tt)
  else
    match findNearestSnapPoint (position s) s with
    | Throw e => mkOutcome s ev (Throw e)
    | Normal nearestSnapPoint =>
        let s :=
          if ltb (Math_abs (position s - nearestSnapPoint)) 0.01
          then set_position nearestSnapPoint s
          else set_position (targetPosition s) s in
        let s := set_velocity 0 s in
        let s := set_animating false s in
        mkOutcome s (ev ++ notifyUpdate s ++ notifyComplete s) (Normal tt)
    end.

(** [updatePositionFromDrag(dragPosition)]; [now] is [performance.now()]. *)
Definition updatePositionFromDrag (now : Q) (dragPosition : Q)
  (s : SheetPhysics) : SheetPhysics * list Event :=
  let ps := positionHistory s ++ [dragPosition] in
  let ts := timeHistory s ++ [now] in
  let s :=
    if (maxHistoryLength s <? List.length ps)%nat
    then set_history (tl ps) (tl ts) s
    else set_history ps ts s in
  let s := set_position dragPosition s in
  (s, notifyUpdate s).

(** One turn of the first loop of [calculateVelocity], for index [i] of a
    history of [n] samples.  An index outside [timeHistory] reads
    [undefined], the difference is NaN and [timeDelta > 0] is false. *)
Definition velocityLoopBody (ps ts : list Q) (n : nat)
  (acc : list Q * list Q) (i : nat) : list Q * list Q :=
  let '(velocities, weights) := acc in
  match nth_error ps i, nth_error ps (i - 1) with
  | Some p1, Some p0 =>
      let positionDelta := p1 - p0 in
      match nth_error ts i, nth_error ts (i - 1) with
      | Some t1, Some t0 =>
          let timeDelta := (t1 - t0) / 1000 in
          if gtb timeDelta 0 then
            let velocity := positionDelta / timeDelta in
            let weight :=
              Math_pow2 (inject_Z (Z.of_nat i) / inject_Z (Z.of_nat (n - 1))) in
            (velocities ++ [velocity], weights ++ [weight])
          else acc
      | _, _ => acc
      end
  | _, _ => acc
  end.

(** [calculateVelocity()]. *)
Definition calculateVelocity (s : SheetPhysics) : Q :=
  let n := List.length (positionHistory s) in
  if (n <? 2)%nat then 0
  else
    let '(velocities, weights) :=
      fold_left (velocityLoopBody (positionHistory s) (timeHistory s) n)
        (seq 1 (n - 1)) ([], []) in
    if (List.length velocities =? 0)%nat then 0
    else
      let '(totalVelocity, totalWeight) :=
        fold_left
          (fun '(totalVelocity, totalWeight) '(v, w) =>
             (totalVelocity + v * w, totalWeight + w))
          (combine velocities weights) (0, 0) in
      if gtb totalWeight 0 then totalVelocity / totalWeight else 0.

(** The middle of [completePositionChange]: from "Get available snap
    points" down to the call of [animateTo].  It reads [position] and the
    gained [velocity] and yields [(targetPosition, targetName)].  Indexing
    the empty [sortedByDistance] throws. *)
Definition commitTarget (s : SheetPhysics) : completion (Q * string) :=
  let snapEntries := Object_entries (snapPoints s) in
  let sortedByDistance :=
    Array_sort
      (fun a b =>
         Math_abs (snd a - position s) - Math_abs (snd b - position s))
      snapEntries in
  match index sortedByDistance 0 with
  | None => Throw (TypeError "Cannot read properties of undefined")
  | Some (closestName, closest) =>
      let velocityThreshold := 0.5 in
      let moveThreshold := 0.1 in
      if gtb (Math_abs (velocity s)) velocityThreshold then
        let sortedByPosition :=
          Array_sort (fun a b => snd a - snd b) snapEntries in
        let currentIndex :=
          findIndex (fun entry => String.eqb (fst entry) closestName)
            sortedByPosition in
        let direction := Math_sign (velocity s) in
        if gtb direction 0
           && (currentIndex <? Z.of_nat (List.length sortedByPosition) - 1)%Z
        then
          match index sortedByPosition (currentIndex + 1) with
          | None => Throw (TypeError "Cannot read properties of undefined")
          | Some (nextName, nextPosition) =>
              let distance := nextPosition - position s in
              if gtb distance 0
                 && (gtb (Math_abs (velocity s))
                       (velocityThreshold * (1 + distance * 2))
                     || ltb distance moveThreshold)
              then Normal (nextPosition, nextName)
              else Normal (closest, closestName)
          end
        else if ltb direction 0 && (currentIndex >? 0)%Z then
          match index sortedByPosition (currentIndex - 1) with
          | None => Throw (TypeError "Cannot read properties of undefined")
          | Some (prevName, prevPosition) =>
              let distance := position s - prevPosition in
              if gtb distance 0
                 && (gtb (Math_abs (velocity s))
                       (velocityThreshold * (1 + distance * 2))
                     || ltb distance moveThreshold)
              then Normal (prevPosition, prevName)
              else Normal (closest, closestName)
          end
        else Normal (closest, closestName)
      else Normal (closest, closestName)
  end.

(** [completePositionChange(velocityOverride)]; [None] is a call without
    argument.  Returns the name of the target. *)
Definition completePositionChange (now : Q) (velocityOverride : option Q)
  (s : SheetPhysics) : Outcome string :=
  let s := match velocityOverride with
           | Some v => set_velocity v s
           | None => set_velocity (calculateVelocity s) s
           end in
  let velocityMultiplier := 1.2 in
  let s := set_velocity (velocity s * velocityMultiplier) s in
  let s := set_history [] [] s in
  match commitTarget s with
  | Throw e => mkOutcome s [] (Throw e)
  | Normal (targetPosition, targetName) =>
      let '(s, ev) := animateTo now targetPosition (Some (velocity s)) s in
      mkOutcome s ev (Normal targetName)
  end.

(** [getPositionName(position)]: the loop over [Object.entries]. *)
Fixpoint getPositionName_loop (position : Q) (entries : list (string * Q))
  : option string :=
  match entries with
  | [] => None
  | (name, value) :: rest =>
      if ltb (Math_abs (position - value)) 0.02 then Some name
      else getPositionName_loop position rest
  end.

Definition getPositionName (position : Q) (s : SheetPhysics)
  : option string :=
  getPositionName_loop position (Object_entries (snapPoints s)).

(** ** SheetController *)

(** What the controller tells its subscribers. *)
Inductive Notification : Type :=
| PositionChange (name : string)
| TransitionStart
| TransitionEnd
| DragStart
| DragEnd (target : option string).

(** A pointer event: the fields the handlers read, and the viewport height
    the window reports when the event is handled. *)
Record PointerEvent : Type := mkPointerEvent {
  clientY : Q;
  ev_pointerId : Z;
  targetInSheet : bool;
  windowHeight : Q
}.

(** The controller: its fields, the two properties of the sheet element it
    writes, and the variables of the closure of [setupEventListeners]
    ([dragging] is the closure's [isDragging]). *)
Record SheetController : Type := mkController {
  physics : SheetPhysics;
  viewportHeight : Q;
  currentPosition : string;
  isDragging : bool;
  datasetPosition : option string;
  translateY : Q;
  startY : Q;
  currentY : Q;
  startPosition : Q;
  dragging : bool;
  pointerId : option Z
}.

Definition with_physics (p : SheetPhysics) (c : SheetController)
  : SheetController :=
  mkController p (viewportHeight c) (currentPosition c) (isDragging c)
    (datasetPosition c) (translateY c) (startY c) (currentY c)
    (startPosition c) (dragging c) (pointerId c).

Definition with_named (name : string) (c : SheetController)
  : SheetController :=
  mkController (physics c) (viewportHeight c) name (isDragging c)
    (datasetPosition c) (translateY c) (startY c) (currentY c)
    (startPosition c) (dragging c) (pointerId c).

Definition with_dataset (name : string) (c : SheetController)
  : SheetController :=
  mkController (physics c) (viewportHeight c) (currentPosition c)
    (isDragging c) (Some name) (translateY c) (startY c) (currentY c)
    (startPosition c) (dragging c) (pointerId c).

Definition with_translateY (y : Q) (c : SheetController) : SheetController :=
  mkController (physics c) (viewportHeight c) (currentPosition c)
    (isDragging c) (datasetPosition c) y (startY c) (currentY c)
    (startPosition c) (dragging c) (pointerId c).

Definition with_currentY (y : Q) (c : SheetController) : SheetController :=
  mkController (physics c) (viewportHeight c) (currentPosition c)
    (isDragging c) (datasetPosition c) (translateY c) (startY c) y
    (startPosition c) (dragging c) (pointerId c).

Definition with_drag (y0 y p0 : Q) (d : bool) (pid : option Z)
  (c : SheetController) : SheetController :=
  mkController (physics c) (viewportHeight c) (currentPosition c) d
    (datasetPosition c) (translateY c) y0 y p0 d pid.

(** A string is truthy unless it is empty; [null] is falsy. *)
Definition truthy (name : option string) : bool :=
  match name with
  | Some n => negb (String.eqb n "")
  | None => false
  end.

(** [updateSheetPosition(position)], the [onUpdate] callback. *)
Definition updateSheetPosition (position : Q) (c : SheetController)
  : SheetController * list Notification :=
  let translateY := viewportHeight c * (1 - position) in
  let positionName := getPositionName position (physics c) in
  let c := match positionName with
           | Some n => if truthy positionName then with_dataset n c else c
           | None => c
           end in
  let c := with_translateY translateY c in
  match positionName with
  | Some n =>
      if truthy positionName && negb (String.eqb (currentPosition c) n)
      then (with_named n c, [PositionChange n])
      else (c, [])
  | None => (c, [])
  end.

(** The simulator's callbacks as installed by the constructor:
    [onUpdate] is [updateSheetPosition], [onComplete] is
    [handleAnimationComplete], which notifies the end of the transition. *)
Fixpoint deliver (evs : list Event) (c : SheetController)
  : SheetController * list Notification :=
  match evs with
  | [] => (c, [])
  | Update p :: evs' =>
      let '(c, n1) := updateSheetPosition p c in
      let '(c, n2) := deliver evs' c in
      (c, n1 ++ n2)
  | Complete :: evs' =>
      let '(c, n2) := deliver evs' c in
      (c, TransitionEnd :: n2)
  | RequestFrame :: evs' => deliver evs' c
  end.

(** [getPositionValue(positionName)]: [snapPoints[positionName] || 0]. *)
Definition getPositionValue (positionName : string) (c : SheetController)
  : Q :=
  or_default (get (snapPoints (physics c)) positionName) 0.

(** [setPosition(positionName, animated = true)]. *)
Definition setPosition (now : Q) (positionName : string) (animated : bool)
  (c : SheetController) : SheetController * list Notification :=
  let position := getPositionValue positionName c in
  let '(c, ns) :=
    if animated then
      let '(p, ev) := animateTo now position None (physics c) in
      let '(c, n) := deliver ev (with_physics p c) in
      (c, TransitionStart :: n)
    else
      let c := with_physics (set_position position (physics c)) c in
      updateSheetPosition position c in
  (with_dataset positionName (with_named positionName c), ns).

(** The resistance block of [onPointerMove], applied to the raw
    [newPosition = startPosition - deltaPosition]. *)
Definition applyResistance (newPosition : Q) : Q :=
  if ltb newPosition 0 then newPosition * 0.3
  else if gtb newPosition 0.95 then
    let overshoot := newPosition - 0.95 in
    0.95 + overshoot * 0.3
  else newPosition.

Definition capturedBy (e : PointerEvent) (c : SheetController) : bool :=
  dragging c &&
  match pointerId c with
  | Some pid => (ev_pointerId e =? pid)%Z
  | None => false
  end.

(** [onPointerDown]: the drag may start on the sheet, or anywhere while
    the sheet is closed or docked; a pointer that goes down while another
    one drags is ignored. *)
Definition onPointerDown (e : PointerEvent) (c : SheetController)
  : SheetController * list Notification :=
  let canInitiateDrag :=
    targetInSheet e
    || String.eqb (currentPosition c) "closed"
    || String.eqb (currentPosition c) "docked" in
  if negb canInitiateDrag then (c, [])
  else if dragging c then (c, [])
  else
    (with_drag (clientY e) (clientY e) (position (physics c)) true
       (Some (ev_pointerId e)) c,
     [TransitionStart; DragStart]).

(** The raw position [onPointerMove] derives from the event. *)
Definition rawDragPosition (e : PointerEvent) (c : SheetController) : Q :=
  let deltaY := clientY e - startY c in
  let deltaPosition := deltaY / windowHeight e in
  startPosition c - deltaPosition.

(** [onPointerMove]. *)
Definition onPointerMove (now : Q) (e : PointerEvent) (c : SheetController)
  : SheetController * list Notification :=
  if negb (capturedBy e c) then (c, [])
  else
    let c := with_currentY (clientY e) c in
    let newPosition := applyResistance (rawDragPosition e c) in
    let '(p, ev) := updatePositionFromDrag now newPosition (physics c) in
    deliver ev (with_physics p c).

(** The end of a drag, shared by [onPointerUp] (which passes the measured
    velocity and reports the target) and [onPointerCancel] (which passes 0
    and reports nothing). *)
Definition endDrag (now : Q) (measured : bool) (e : PointerEvent)
  (c : SheetController)
  : SheetController * list Notification * completion unit :=
  if negb (capturedBy e c) then (c, [], Normal tt)
  else
    let c := with_drag (startY c) (currentY c) (startPosition c) false
               (pointerId c) c in
    let velocity :=
      if measured then calculateVelocity (physics c) else 0 in
    let r := completePositionChange now (Some velocity) (physics c) in
    let '(c, n) := deliver (out_events r) (with_physics (out_state r) c) in
    match out_result r with
    | Throw err => (c, n, Throw err)
    | Normal targetPosition =>
        (c, n ++ [DragEnd (if measured then Some targetPosition else None)],
         Normal tt)
    end.

Definition onPointerUp (now : Q) := endDrag now true.
Definition onPointerCancel (now : Q) := endDrag now false.

(** The frame clock: a frame requested by [animateTo] or by the previous
    frame runs [animationFrame]; no frame is pending when the simulator is
    not animating.  (A frame that throws requests no other frame; [frame]
    is used on tables with an entry, where no frame throws.) *)
Definition frame (timestamp : Q) (s : SheetPhysics) : SheetPhysics :=
  if animating s then out_state (animationFrame timestamp s) else s.

(** [new SheetController(container, options)]: the constructor hands the
    table, the spring constants and the overshoot settings to the
    simulator (it forwards neither [initialVelocity] nor
    [distanceThreshold]) and installs the two callbacks; the initial
    position is applied later, by a timer. *)
Definition new_SheetController (options : Options) (height : Q)
  (initialPosition : string) : SheetController :=
  let physicsOptions :=
    {| opt_mass := Some (or_default (opt_mass options) 1);
       opt_stiffness := Some (or_default (opt_stiffness options) 350);
       opt_damping := Some (or_default (opt_damping options) 35);
       opt_initialVelocity := None;
       opt_snapPoints := Some match opt_snapPoints options with
                              | Some t => t
                              | None => defaultSnapPoints
                              end;
       opt_allowOvershoot := Some match opt_allowOvershoot options with
                                  | Some b => b
                                  | None => true
                                  end;
       opt_overshootMultiplier :=
         Some (or_default (opt_overshootMultiplier options) 0.2);
       opt_distanceThreshold := None |} in
  mkController (set_callbacks true true (new_SheetPhysics physicsOptions))
    height initialPosition false None 0 0 0 0 false None.

(** ** Notions used in the statements *)

(** The velocity [animateTo] works with: the argument when there is one,
    the current velocity otherwise. *)
Definition effectiveVelocity (initialVelocity : option Q) (s : SheetPhysics)
  : Q :=
  match initialVelocity with
  | Some v => v
  | None => velocity s
  end.

(** When [animateTo] moves the target past [t]. *)
Definition overshoots (t : Q) (initialVelocity : option Q) (s : SheetPhysics)
  : Prop :=
  allowOvershoot s = true
  /\ 2 < Qabs (effectiveVelocity initialVelocity s)
  /\ distanceThreshold s < Qabs (t - position s).

(** [n] is a value of the table and no value is closer to [p]. *)
Definition nearestValue (table : list (string * Q)) (p n : Q) : Prop :=
  In n (map snd table)
  /\ forall v, In v (map snd table) -> Qabs (n - p) <= Qabs (v - p).

(** [e] is an entry of the table and no entry is closer to [p]. *)
Definition nearestEntry (table : list (string * Q)) (p : Q) (e : string * Q)
  : Prop :=
  In e table
  /\ forall e', In e' table -> Qabs (snd e - p) <= Qabs (snd e' - p).

(** [sortedByPosition] of [completePositionChange]. *)
Definition sortedByPosition (table : list (string * Q)) : list (string * Q) :=
  Array_sort (fun a b => snd a - snd b) (Object_entries table).

(** [sortedByDistance] of [completePositionChange]. *)
Definition sortedByDistance (p : Q) (table : list (string * Q))
  : list (string * Q) :=
  Array_sort (fun a b => Math_abs (snd a - p) - Math_abs (snd b - p))
    (Object_entries table).

(** The velocity a release is resolved with. *)
Definition gainedVelocity (velocityOverride : option Q) (s : SheetPhysics)
  : Q :=
  match velocityOverride with
  | Some v => v
  | None => calculateVelocity s
  end * 1.2.

(** The test that sends a flick of gained velocity [v] to the neighbor at
    remaining distance [d]. *)
Definition flicks (v d : Q) : Prop :=
  0 < d /\ (d < 0.1 \/ 0.5 * (1 + d * 2) < Qabs v).



Definition Qsum (l : list Q) : Q := fold_right Qplus 0 l.

(** The weighted average in the words of the specification: over the
    adjacent pairs [(i-1, i)] of a history of [n] samples whose time
    difference is positive, the velocity of pair [i] weighs
    [(i / (n-1))^2]. *)

Definition timeDelta (ts : list Q) (i : nat) : Q :=
  (nth i ts 0 - nth (i - 1) ts 0) / 1000.

Definition pairVelocity (ps ts : list Q) (i : nat) : Q :=
  (nth i ps 0 - nth (i - 1) ps 0) / timeDelta ts i.

Definition pairWeight (n i : nat) : Q :=
  (inject_Z (Z.of_nat i) / inject_Z (Z.of_nat (n - 1))) ^ 2.

Definition validPairs (ps ts : list Q) : list nat :=
  filter (fun i => gtb (timeDelta ts i) 0) (seq 1 (List.length ps - 1)).

Definition totalWeight (ps ts : list Q) : Q :=
  Qsum (map (pairWeight (List.length ps)) (validPairs ps ts)).

Definition weightedAverage (ps ts : list Q) : Q :=
  Qsum (map (fun i => pairVelocity ps ts i * pairWeight (List.length ps) i)
          (validPairs ps ts))
  / totalWeight ps ts.

(** ** Sheets used in the examples *)

(** The table of the mortgage sheet, with the constructor's defaults for
    everything else. *)
Definition sheetOptions : Options :=
  mkOptions None None None None
    (Some [("closed", 0); ("docked", 0.15); ("half", 0.5); ("full", 0.95)]%string)
    None None None.

Definition sheet : SheetController :=
  new_SheetController sheetOptions 800 "closed".

Definition pointerAt (y : Q) : PointerEvent := mkPointerEvent y 1 true 800.

(** The closed sheet, grabbed at 500 pixels and dragged up by 240 pixels,
    that is by 0.3 of the viewport. *)
Definition draggedSheet : SheetController :=
  fst (onPointerMove 16 (pointerAt 260)
         (fst (onPointerDown (pointerAt 500) sheet))).

(** The table of the scenario, and a sheet dragged to 0.55 whose last two
    samples, 100 ms apart, measure a velocity of +0.6. *)
Definition scenarioOptions : Options :=
  mkOptions None None None None
    (Some [("closed", 0); ("half", 0.5); ("full", 0.95)]%string)
    None None None.

Definition releasedAt055 : SheetPhysics :=
  set_history [0.49; 0.55] [0; 100]
    (set_position 0.55 (new_SheetPhysics scenarioOptions)).

(** Two names on the same value. *)
Definition twinOptions : Options :=
  mkOptions None None None None
    (Some [("a", 0.5); ("b", 0.5)]%string) None None None.

(** A table with a third entry next to [half], and a sheet that is about
    to settle on [half], 0.9 thousandths above it and still moving. *)
Definition crowdedOptions : Options :=
  mkOptions None None None None
    (Some [("closed", 0); ("half", 0.5); ("near", 0.502)]%string)
    None None None.

Definition settling : SheetPhysics :=
  set_animating true
    (set_velocity (-0.0225)
       (set_targetPosition 0.5
          (set_position 0.5009 (new_SheetPhysics crowdedOptions)))).

(** A simulator constructed with [snapPoints: {}]. *)
Definition tablelessOptions : Options :=
  mkOptions None None None None (Some []) None None None.

(** Three drag samples 100 ms apart: the later pair weighs 1, the earlier
    one 1/4. *)
Definition threeSamples : SheetPhysics :=
  set_history [0.10; 0.12; 0.20] [0; 100; 200] (new_SheetPhysics sheetOptions).

(** Mass [2^50], stiffness [2^59], damping [2^54]; asked to open from 0 to
    [half]. *)
Definition heavyOptions : Options :=
  mkOptions (Some 1125899906842624) (Some 576460752303423488)
    (Some 18014398509481984) None None None None None.

Definition heavyOpening : SheetPhysics :=
  fst (animateTo 0 0.5 None (new_SheetPhysics heavyOptions)).

(** A whole drag: the samples [(now, dragPosition)] in the order of the
    calls of [updatePositionFromDrag]. *)
Definition dragAll (samples : list (Q * Q)) (s : SheetPhysics)
  : SheetPhysics :=
  fold_left (fun s sample =>
               fst (updatePositionFromDrag (fst sample) (snd sample) s))
    samples s.

(** The last [n] elements of a list. *)
Definition lastn {A : Type} (n : nat) (l : list A) : list A :=
  skipn (List.length l - n) l.

(** [x] is the first element of [l] with the least key: the elements
    before it have a strictly greater key, the ones after it a key at
    least as great. *)
Definition firstLeast {A : Type} (key : A -> Q) (l : list A) (x : A)
  : Prop :=
  exists before after,
    l = before ++ x :: after
    /\ (forall b, In b before -> key x < key b)
    /\ (forall a, In a after -> key x <= key a).

(** The calls of [requestAnimationFrame] among the callbacks of a method. *)
Definition requests (evs : list Event) : nat :=
  List.length
    (filter (fun e => match e with RequestFrame => true | _ => false end)
       evs).

(** The frames the browser holds for a simulator whose loop is sound: one
    while it is animating, none otherwise. *)
Definition pendingFrames (s : SheetPhysics) : nat :=
  if animating s then 1%nat else 0%nat.

(** The four pointer listeners of the sheet element. *)
Inductive PointerAction : Type :=
| Down (e : PointerEvent)
| Move (now : Q) (e : PointerEvent)
| Up (now : Q) (e : PointerEvent)
| Cancel (now : Q) (e : PointerEvent).

Definition pointerOf (a : PointerAction) : Z :=
  match a with
  | Down e | Move _ e | Up _ e | Cancel _ e => ev_pointerId e
  end.

Definition handlePointer (a : PointerAction) (c : SheetController)
  : SheetController * list Notification * completion unit :=
  match a with
  | Down e => (onPointerDown e c, Normal tt)
  | Move now e => (onPointerMove now e c, Normal tt)
  | Up now e => onPointerUp now e c
  | Cancel now e => onPointerCancel now e c
  end.

(** The events in order; a listener that throws ends its own event only,
    the next event is handled on the controller as the throw left it. *)
Fixpoint handlePointers (actions : list PointerAction) (c : SheetController)
  : SheetController * list Notification :=
  match actions with
  | [] => (c, [])
  | a :: rest =>
      let '(c1, n1, _) := handlePointer a c in
      let '(c2, n2) := handlePointers rest c1 in
      (c2, n1 ++ n2)
  end.

(** No two names of the table have values closer than the name-lookup
    tolerance. *)
Definition separated (table : list (string * Q)) : Prop :=
  forall e1 e2, In e1 table -> In e2 table -> fst e1 <> fst e2 ->
                0.02 <= Qabs (snd e1 - snd e2).

(** A [keydown] event: the fields the listener reads. *)
Record KeyEvent : Type := mkKeyEvent {
  key : string;
  altKey : bool
}.

(** [Object.keys] and [arr.indexOf(x)]. *)
Definition Object_keys (o : list (string * Q)) : list string := map fst o.

Definition indexOf (arr : list string) (x : string) : Z :=
  findIndex (fun k => String.eqb k x) arr.

(** The [keydown] listener of [setupEventListeners].  The index it reads
    [positions] at is within bounds by the test before it; the [None]
    branches are never taken. *)
Definition onKeyDown (now : Q) (e : KeyEvent) (c : SheetController)
  : SheetController * list Notification :=
  if negb (String.eqb (currentPosition c) "closed") then
    if String.eqb (key e) "Escape" then setPosition now "closed" true c
    else if String.eqb (key e) "ArrowDown" && altKey e then
      let positions := Object_keys (snapPoints (physics c)) in
      let currentIndex := indexOf positions (currentPosition c) in
      if (currentIndex >? 0)%Z then
        match index positions (currentIndex - 1) with
        | Some name => setPosition now name true c
        | None => (c, [])
        end
      else (c, [])
    else if String.eqb (key e) "ArrowUp" && altKey e then
      let positions := Object_keys (snapPoints (physics c)) in
      let currentIndex := indexOf positions (currentPosition c) in
      if (currentIndex <? Z.of_nat (List.length positions) - 1)%Z then
        match index positions (currentIndex + 1) with
        | Some name => setPosition now name true c
        | None => (c, [])
        end
      else (c, [])
    else (c, [])
  else (c, []).

Definition altArrowUp : KeyEvent := mkKeyEvent "ArrowUp" true.
Definition altArrowDown : KeyEvent := mkKeyEvent "ArrowDown" true.
Definition escape : KeyEvent := mkKeyEvent "Escape" false.

(** The frame callback with the controller's callbacks installed: the
    simulator runs [animationFrame] and the controller receives the
    updates and the completion. *)
Definition sheetFrame (timestamp : Q) (c : SheetController)
  : SheetController * list Notification * completion unit :=
  let r := animationFrame timestamp (physics c) in
  let '(c', n) := deliver (out_events r) (with_physics (out_state r) c) in
  (c', n, out_result r).

Definition isTransitionEnd (n : Notification) : bool :=
  match n with
  | TransitionEnd => true
  | _ => false
  end.

(** The property names every object inherits from [Object.prototype].
    For these [snapPoints[name]] finds a function (for [__proto__], an
    object) although the table has no such key; [get], which reads the
    table's own entries, is not used on them. *)
Definition inheritedNames : list string :=
  ["constructor"; "__defineGetter__"; "__defineSetter__"; "hasOwnProperty";
   "__lookupGetter__"; "__lookupSetter__"; "isPrototypeOf";
   "propertyIsEnumerable"; "toString"; "valueOf"; "__proto__";
   "toLocaleString"]%string.

(** ** MortgageDataCollection *)

(** The data model of the form (mortgage-data-collection.js).  Text and
    number inputs hold strings, the two payment-history radios booleans;
    [incomeSources] is [None] when the stored value is not an array. *)
Record MortgageData : Type := mkData {
  targetHomePrice : string;
  downPayment : string;
  downPaymentPercent : string;
  monthlyIncome : string;
  incomeSources : option (list string);
  incomeTrend : string;
  carPayment : string;
  creditCardMinimums : string;
  otherDebts : string;
  currentHousingExpense : string;
  residencyDuration : string;
  creditScoreRange : string;
  liquidCash : string;
  retirementInvestments : string;
  otherLiquidAssets : string;
  latePayments : bool;
  bankruptcy : bool;
  medicalDebt : string;
  collectionsPayments : string
}.

Definition set_incomeSources (v : option (list string)) (d : MortgageData)
  : MortgageData :=
  mkData (targetHomePrice d) (downPayment d) (downPaymentPercent d)
    (monthlyIncome d) v (incomeTrend d) (carPayment d)
    (creditCardMinimums d) (otherDebts d) (currentHousingExpense d)
    (residencyDuration d) (creditScoreRange d) (liquidCash d)
    (retirementInvestments d) (otherLiquidAssets d) (latePayments d)
    (bankruptcy d) (medicalDebt d) (collectionsPayments d).

(** [arr.includes(x)] on an array of strings. *)
Definition Array_includes (arr : list string) (x : string) : bool :=
  existsb (String.eqb x) arr.

(** [s.includes(sub)] on strings. *)
Definition String_includes (s sub : string) : bool :=
  match String.index 0 sub s with
  | Some _ => true
  | None => false
  end.

(** [Array.isArray(v) ? v : []], the reset of [handleCheckboxChange]. *)
Definition arrayOrEmpty (v : option (list string)) : list string :=
  match v with
  | Some arr => arr
  | None => []
  end.

(** [handleCheckboxChange(checkbox)], with the checkbox given by its
    [name], [value] and [checked]. *)
Definition handleCheckboxChange (name value : string) (checked : bool)
  (d : MortgageData) : MortgageData :=
  if String.eqb name "incomeSources" then
    let arr := arrayOrEmpty (incomeSources d) in
    let arr :=
      if checked then
        if negb (Array_includes arr value) then arr ++ [value] else arr
      else filter (fun item => negb (String.eqb item value)) arr in
    set_incomeSources (Some arr) d
  else d.

(** One entry of [dtiFactors]. *)
Record DtiFactor : Type := mkFactor {
  factor : string;
  effect : string
}.

(** What [calculateResults] stores on the object. *)
Record Calculated : Type := mkCalculated {
  calculatedDti : Q;
  calculatedMaxDti : Q;
  calculatedMaxMonthlyPayment : Q;
  dtiFactors : list DtiFactor
}.

(** [calculateResults()], the body of its delayed callback.  The reading
    of numbers from text is left to the caller: [parseFloat] gives [None]
    for [NaN], and [yearsMatch s] is [parseInt(m[1])] for the match [m] of
    [/(\d+)\s*year/] in [s], [None] when there is no match. *)
Definition calculateResults (parseFloat : string -> option Q)
  (yearsMatch : string -> option Z) (d : MortgageData) : Calculated :=
  let monthlyIncome := or_default (parseFloat (monthlyIncome d)) 0 in
  let carPayment := or_default (parseFloat (carPayment d)) 0 in
  let creditCardMinimums :=
    or_default (parseFloat (creditCardMinimums d)) 0 in
  let currentHousingExpense :=
    or_default (parseFloat (currentHousingExpense d)) 0 in
  let collectionsPayments :=
    or_default (parseFloat (collectionsPayments d)) 0 in
  let totalDebt :=
    carPayment + creditCardMinimums + currentHousingExpense
    + collectionsPayments in
  let dti :=
    if gtb monthlyIncome 0 then (totalDebt / monthlyIncome) * 100 else 0 in
  let maxDti := 43 in
  let dtiFactors := [] in
  let '(maxDti, dtiFactors) :=
    if String.eqb (creditScoreRange d) "Above 620" then
      (maxDti + 2, dtiFactors ++ [mkFactor "Excellent credit score" "+2%"])
    else if String.eqb (creditScoreRange d) "600-620" then
      (maxDti + 1, dtiFactors ++ [mkFactor "Good credit score" "+1%"])
    else if String.eqb (creditScoreRange d) "Below 580" then
      (maxDti - 5, dtiFactors ++ [mkFactor "Lower credit score" "-5%"])
    else (maxDti, dtiFactors) in
  let liquidCash := or_default (parseFloat (liquidCash d)) 0 in
  let targetHomePrice := or_default (parseFloat (targetHomePrice d)) 0 in
  let '(maxDti, dtiFactors) :=
    if gtb targetHomePrice 0 && gtb (liquidCash / targetHomePrice) 0.2 then
      (maxDti + 2, dtiFactors ++ [mkFactor "Strong cash reserves" "+2%"])
    else if gtb targetHomePrice 0
            && gtb (liquidCash / targetHomePrice) 0.1 then
      (maxDti + 1, dtiFactors ++ [mkFactor "Moderate cash reserves" "+1%"])
    else (maxDti, dtiFactors) in
  let '(maxDti, dtiFactors) :=
    if String.eqb (incomeTrend d) "Increased" then
      (maxDti + 1, dtiFactors ++ [mkFactor "Increasing income" "+1%"])
    else if String.eqb (incomeTrend d) "Decreased" then
      (maxDti - 1, dtiFactors ++ [mkFactor "Decreasing income" "-1%"])
    else (maxDti, dtiFactors) in
  let '(maxDti, dtiFactors) :=
    if negb (String.eqb (residencyDuration d) "")
       && String_includes (residencyDuration d) "year" then
      match yearsMatch (residencyDuration d) with
      | Some years =>
          if (years >=? 2)%Z then
            (maxDti + 1,
             dtiFactors ++ [mkFactor "Stable housing history" "+1%"])
          else (maxDti, dtiFactors)
      | None => (maxDti, dtiFactors)
      end
    else (maxDti, dtiFactors) in
  let '(maxDti, dtiFactors) :=
    if bankruptcy d then
      (maxDti - 3, dtiFactors ++ [mkFactor "Recent bankruptcy" "-3%"])
    else (maxDti, dtiFactors) in
  let '(maxDti, dtiFactors) :=
    if latePayments d then
      (maxDti - 2, dtiFactors ++ [mkFactor "Recent late payments" "-2%"])
    else (maxDti, dtiFactors) in
  let maxDti := Math_max 33 (Math_min 50 maxDti) in
  let nonHousingDebt :=
    carPayment + creditCardMinimums + collectionsPayments in
  let maxMonthlyPayment :=
    (monthlyIncome * (maxDti / 100)) - nonHousingDebt in
  mkCalculated dti maxDti maxMonthlyPayment dtiFactors.

(** [showResults]: the status of the current ratio,
    [dti <= maxDti ? 'positive' : 'negative']. *)
Definition dtiStatus (dti maxDti : Q) : string :=
  if Qle_bool dti maxDti then "positive" else "negative".

(** [Math.pow(x, n)] for an integer exponent. *)
Definition Math_pow (x : Q) (n : Z) : Q := x ^ n.

(** The figures [showAffordability] computes and displays. *)
Record Affordability : Type := mkAffordability {
  maxMonthlyPayment : Q;
  taxesAndInsurance : Q;
  paymentForPrincipalAndInterest : Q;
  estimatedPrice : Q
}.

(** [showAffordability(maxDti)]. *)
Definition showAffordability (parseFloat : string -> option Q) (maxDti : Q)
  (d : MortgageData) : Affordability :=
  let monthlyIncome := or_default (parseFloat (monthlyIncome d)) 0 in
  let carPayment := or_default (parseFloat (carPayment d)) 0 in
  let creditCardMinimums :=
    or_default (parseFloat (creditCardMinimums d)) 0 in
  let collectionsPayments :=
    or_default (parseFloat (collectionsPayments d)) 0 in
  let nonHousingDebt :=
    carPayment + creditCardMinimums + collectionsPayments in
  let maxMonthlyPayment :=
    (monthlyIncome * (maxDti / 100)) - nonHousingDebt in
  let interestRate := 6.5 in
  let years := 30%Z in
  let monthlyRate := interestRate / 100 / 12 in
  let payments := (years * 12)%Z in
  let taxesAndInsurance := monthlyIncome * 0.05 in
  let paymentForPrincipalAndInterest :=
    Math_max 0 (maxMonthlyPayment - taxesAndInsurance) in
  let estimatedPrice :=
    if gtb paymentForPrincipalAndInterest 0 then
      let numerator := Math_pow (1 + monthlyRate) payments - 1 in
      let denominator := monthlyRate * Math_pow (1 + monthlyRate) payments in
      let loanAmount :=
        paymentForPrincipalAndInterest * (numerator / denominator) in
      loanAmount / 0.8
    else 0 in
  mkAffordability maxMonthlyPayment taxesAndInsurance
    paymentForPrincipalAndInterest estimatedPrice.

(** The callbacks [nextPage] and [previousPage] hand to
    [setTimeout(..., 150)]: [this.currentPage++] and
    [this.currentPage--], each followed by a rendering. *)
Inductive PageCallback : Type :=
| IncrementPage
| DecrementPage.

(** The page state of the form, with the callbacks that are scheduled and
    have not run yet, in the order in which they will run (equal delays
    run in the order of their scheduling). *)
Record Pager : Type := mkPager {
  currentPage : Z;
  totalPages : Z;
  timeouts : list PageCallback
}.

Definition setTimeout (cb : PageCallback) (f : Pager) : Pager :=
  mkPager (currentPage f) (totalPages f) (timeouts f ++ [cb]).

(** [nextPage()]. *)
Definition nextPage (f : Pager) : Pager :=
  if (currentPage f <? totalPages f)%Z then setTimeout IncrementPage f
  else f.

(** [previousPage()]. *)
Definition previousPage (f : Pager) : Pager :=
  if (currentPage f >? 1)%Z then setTimeout DecrementPage f else f.

Definition runCallback (cb : PageCallback) (f : Pager) : Pager :=
  match cb with
  | IncrementPage => mkPager (currentPage f + 1) (totalPages f) (timeouts f)
  | DecrementPage => mkPager (currentPage f - 1) (totalPages f) (timeouts f)
  end.

(** The next scheduled callback runs. *)
Definition timeoutFires (f : Pager) : Pager :=
  match timeouts f with
  | [] => f
  | cb :: rest =>
      runCallback cb (mkPager (currentPage f) (totalPages f) rest)
  end.

(** ** Notions used in the statements about the form *)

(** The percentage points an [effect] text shows: ["+2%"] is 2, ["-5%"]
    is -5. *)
Definition effectPoints (f : DtiFactor) : Q :=
  match effect f with
  | String sign (String digit rest) =>
      let n := inject_Z (Z.of_nat (Ascii.nat_of_ascii digit - 48)) in
      if negb (String.eqb rest "%") then 0
      else if String.eqb (String sign EmptyString) "+" then n
      else if String.eqb (String sign EmptyString) "-" then - n
      else 0
  | _ => 0
  end.

(** A click on a navigation button: forward or back. *)
Inductive PageClick : Type :=
| ClickNext
| ClickPrevious.

Definition click (k : PageClick) (f : Pager) : Pager :=
  match k with
  | ClickNext => nextPage f
  | ClickPrevious => previousPage f
  end.

(** Clicks that each wait for the page change of the one before. *)
Definition patientClicks (ks : list PageClick) (f : Pager) : Pager :=
  fold_left (fun f k => timeoutFires (click k f)) ks f.

(** A reader of plain digit texts, on which [parseFloat] agrees with
    it; used in the examples. *)
Fixpoint readDigits (acc : Z) (s : string) : option Z :=
  match s with
  | EmptyString => Some acc
  | String c s' =>
      let n := Ascii.nat_of_ascii c in
      if ((48 <=? n) && (n <=? 57))%nat
      then readDigits (acc * 10 + Z.of_nat (n - 48)) s'
      else None
  end.

Definition readNumber (s : string) : option Q :=
  match s with
  | EmptyString => None
  | _ => option_map inject_Z (readDigits 0 s)
  end.

Definition noYears (s : string) : option Z := None.

(** The form as the constructor fills it, and an applicant. *)
Definition emptyData : MortgageData :=
  mkData "" "" "" "" (Some []) "" "" "" "" "" "" "" "" "" "" false false
    "" "".

Definition applicant : MortgageData :=
  mkData "300000" "60000" "20.0" "6000" (Some ["salary"%string])
    "Increased" "300" "100" "" "1500" "" "Above 620" "70000" "" "" false
    false "" "50".

(** ** The simulator over binary64

    The arithmetic of [SheetPhysics] and of the resistance block of
    [onPointerMove] once more, over the numbers JavaScript computes with:
    the same expressions, branch for branch, on binary64 floats, with
    their rounding, infinities and NaN. *)

Set Warnings "-inexact-float".

Module Binary64.

Local Open Scope float_scope.

(** [x < y] and [x > y] on numbers: false when either is NaN. *)
Definition ltb (x y : float) : bool := x <? y.
Definition gtb (x y : float) : bool := y <? x.

Definition Math_abs (x : float) : float := abs x.

(** [Math.min], [Math.max]: NaN when either argument is NaN; [-0] is
    below [+0]. *)
Definition Math_min (x y : float) : float :=
  if is_nan x then x
  else if is_nan y then y
  else if x <? y then x
  else if y <? x then y
  else if get_sign x then x else y.

Definition Math_max (x y : float) : float :=
  if is_nan x then x
  else if is_nan y then y
  else if x <? y then y
  else if y <? x then x
  else if get_sign x then y else x.

(** [Math.sign]: 1, -1, or the argument itself when it is a zero or
    NaN. *)
Definition Math_sign (x : float) : float :=
  if 0 <? x then 1 else if x <? 0 then -1 else x.

(** [o || d] for a numeric option: an absent, zero or NaN value is falsy. *)
Definition or_default (o : option float) (d : float) : float :=
  match o with
  | Some x => if is_nan x || is_zero x then d else x
  | None => d
  end.

Inductive Event : Type :=
| Update (position : float)
| Complete
| RequestFrame.

Record SheetPhysics : Type := mkPhysics {
  mass : float;
  stiffness : float;
  damping : float;
  initialVelocity : float;
  snapPoints : list (string * float);
  position : float;
  targetPosition : float;
  velocity : float;
  animating : bool;
  positionHistory : list float;
  timeHistory : list float;
  maxHistoryLength : nat;
  allowOvershoot : bool;
  overshootMultiplier : float;
  distanceThreshold : float;
  lastFrameTime : float;
  onUpdate : bool;
  onComplete : bool
}.

Definition set_position (x : float) (s : SheetPhysics) : SheetPhysics :=
  mkPhysics (mass s) (stiffness s) (damping s) (initialVelocity s)
    (snapPoints s) x (targetPosition s) (velocity s) (animating s)
    (positionHistory s) (timeHistory s) (maxHistoryLength s)
    (allowOvershoot s) (overshootMultiplier s) (distanceThreshold s)
    (lastFrameTime s) (onUpdate s) (onComplete s).

Definition set_targetPosition (x : float) (s : SheetPhysics) : SheetPhysics :=
  mkPhysics (mass s) (stiffness s) (damping s) (initialVelocity s)
    (snapPoints s) (position s) x (velocity s) (animating s)
    (positionHistory s) (timeHistory s) (maxHistoryLength s)
    (allowOvershoot s) (overshootMultiplier s) (distanceThreshold s)
    (lastFrameTime s) (onUpdate s) (onComplete s).

Definition set_velocity (x : float) (s : SheetPhysics) : SheetPhysics :=
  mkPhysics (mass s) (stiffness s) (damping s) (initialVelocity s)
    (snapPoints s) (position s) (targetPosition s) x (animating s)
    (positionHistory s) (timeHistory s) (maxHistoryLength s)
    (allowOvershoot s) (overshootMultiplier s) (distanceThreshold s)
    (lastFrameTime s) (onUpdate s) (onComplete s).

Definition set_animating (b : bool) (s : SheetPhysics) : SheetPhysics :=
  mkPhysics (mass s) (stiffness s) (damping s) (initialVelocity s)
    (snapPoints s) (position s) (targetPosition s) (velocity s) b
    (positionHistory s) (timeHistory s) (maxHistoryLength s)
    (allowOvershoot s) (overshootMultiplier s) (distanceThreshold s)
    (lastFrameTime s) (onUpdate s) (onComplete s).

Definition set_lastFrameTime (t : float) (s : SheetPhysics) : SheetPhysics :=
  mkPhysics (mass s) (stiffness s) (damping s) (initialVelocity s)
    (snapPoints s) (position s) (targetPosition s) (velocity s) (animating s)
    (positionHistory s) (timeHistory s) (maxHistoryLength s)
    (allowOvershoot s) (overshootMultiplier s) (distanceThreshold s)
    t (onUpdate s) (onComplete s).

Record Options : Type := mkOptions {
  opt_mass : option float;
  opt_stiffness : option float;
  opt_damping : option float;
  opt_initialVelocity : option float;
  opt_snapPoints : option (list (string * float));
  opt_allowOvershoot : option bool;
  opt_overshootMultiplier : option float;
  opt_distanceThreshold : option float
}.

Definition defaultSnapPoints : list (string * float) :=
  [("closed"%string, 0); ("docked"%string, 0.15); ("half"%string, 0.5);
   ("full"%string, 0.85)].

(** [constructor(options = {})]. *)
Definition new_SheetPhysics (options : Options) : SheetPhysics :=
  let initialVelocity := or_default (opt_initialVelocity options) 0 in
  {| mass := or_default (opt_mass options) 1;
     stiffness := or_default (opt_stiffness options) 350;
     damping := or_default (opt_damping options) 35;
     initialVelocity := initialVelocity;
     snapPoints := match opt_snapPoints options with
                   | Some t => t
                   | None => defaultSnapPoints
                   end;
     position := 0;
     targetPosition := 0;
     velocity := initialVelocity;
     animating := false;
     positionHistory := [];
     timeHistory := [];
     maxHistoryLength := 8;
     allowOvershoot := match opt_allowOvershoot options with
                       | Some b => b
                       | None => true
                       end;
     overshootMultiplier := or_default (opt_overshootMultiplier options) 0.2;
     distanceThreshold := or_default (opt_distanceThreshold options) 0.1;
     lastFrameTime := 0;
     onUpdate := false;
     onComplete := false |}.

Definition notifyUpdate (s : SheetPhysics) : list Event :=
  if onUpdate s then [Update (position s)] else [].

Definition notifyComplete (s : SheetPhysics) : list Event :=
  if onComplete s then [Complete] else [].

(** [animateTo(targetPosition, initialVelocity = null)]. *)
Definition animateTo (now : float) (target : float)
  (initialVelocity : option float) (s : SheetPhysics)
  : SheetPhysics * list Event :=
  let s := match initialVelocity with
           | Some v => set_velocity v s
           | None => s
           end in
  let s := set_targetPosition target s in
  let s :=
    if allowOvershoot s && gtb (Math_abs (velocity s)) 2 then
      let distance := Math_abs (targetPosition s - position s) in
      if gtb distance (distanceThreshold s) then
        let overshootAmount :=
          Math_min 0.1 (Math_abs (velocity s) * overshootMultiplier s) in
        let direction := Math_sign (velocity s) in
        let s := set_targetPosition
                   (targetPosition s + overshootAmount * direction) s in
        set_targetPosition (Math_max 0 (Math_min 1 (targetPosition s))) s
      else s
    else s in
  if animating s then (s, [])
  else (set_lastFrameTime now (set_animating true s), [RequestFrame]).

(** [findNearestSnapPoint(position)]. *)
Definition findNearestSnapPoint (position : float) (s : SheetPhysics)
  : completion float :=
  let snapValues := map snd (snapPoints s) in
  Array_reduce
    (fun prev curr =>
       if ltb (Math_abs (curr - position)) (Math_abs (prev - position))
       then curr else prev)
    snapValues.

Record Outcome (A : Type) : Type := mkOutcome {
  out_state : SheetPhysics;
  out_events : list Event;
  out_result : completion A
}.
Arguments mkOutcome {A} _ _ _.
Arguments out_state {A} _.
Arguments out_events {A} _.
Arguments out_result {A} _.

(** The first half of [animationFrame(timestamp)], with the local
    [displacement]. *)
Definition integrate (timestamp : float) (s : SheetPhysics)
  : SheetPhysics * float :=
  let deltaTime := Math_min 0.064 ((timestamp - lastFrameTime s) / 1000) in
  let s := set_lastFrameTime timestamp s in
  let displacement := targetPosition s - position s in
  let springForce := displacement * stiffness s in
  let velocitySquared := velocity s * Math_abs (velocity s) in
  let dampingForce :=
    if gtb velocitySquared 0
    then velocity s * (damping s + Math_abs (velocity s) * 0.05)
    else velocity s * damping s in
  let acceleration := (springForce - dampingForce) / mass s in
  let s := set_velocity (velocity s + acceleration * deltaTime) s in
  let s :=
    if ltb (Math_abs (velocity s)) 0.001 && ltb (Math_abs displacement) 0.001
    then set_velocity 0 s
    else s in
  let s := set_position (position s + velocity s * deltaTime) s in
  (s, displacement).

(** The test that keeps the loop going. *)
Definition keepsGoing (s : SheetPhysics) (displacement : float) : bool :=
  gtb (Math_abs (velocity s)) 0.01 || gtb (Math_abs displacement) 0.001.

(** [animationFrame(timestamp)]. *)
Definition animationFrame (timestamp : float) (s : SheetPhysics)
  : Outcome unit :=
  let '(s, displacement) := integrate timestamp s in
  let ev := notifyUpdate s in
  if keepsGoing s displacement then
    mkOutcome s (ev ++ [RequestFrame]) (Normal tt)
  else
    match findNearestSnapPoint (position s) s with
    | Throw e => mkOutcome s ev (Throw e)
    | Normal nearestSnapPoint =>
        let s :=
          if ltb (Math_abs (position s - nearestSnapPoint)) 0.01
          then set_position nearestSnapPoint s
          else set_position (targetPosition s) s in
        let s := set_velocity 0 s in
        let s := set_animating false s in
        mkOutcome s (ev ++ notifyUpdate s ++ notifyComplete s) (Normal tt)
    end.

(** A frame the browser runs: [animationFrame] while the simulator is
    animating, nothing otherwise. *)
Definition frame (timestamp : float) (s : SheetPhysics) : SheetPhysics :=
  if animating s then out_state (animationFrame timestamp s) else s.

(** The frames at the given timestamps, in order. *)
Definition frames (timestamps : list float) (s : SheetPhysics)
  : SheetPhysics :=
  fold_left (fun s timestamp => frame timestamp s) timestamps s.

(** The resistance block of [onPointerMove]. *)
Definition applyResistance (newPosition : float) : float :=
  if ltb newPosition 0 then newPosition * 0.3
  else if gtb newPosition 0.95 then
    let overshoot := newPosition - 0.95 in
    0.95 + overshoot * 0.3
  else newPosition.

(** The raw position [onPointerMove] derives from the pointer. *)
Definition rawDragPosition (startPosition startY currentY currentViewportHeight : float)
  : float :=
  let deltaY := currentY - startY in
  let deltaPosition := deltaY / currentViewportHeight in
  startPosition - deltaPosition.

(** ** Notions used in the statements about binary64 runs *)

(** [n] is the first of the [values] at the least distance from [p], as
    the scan of [findNearestSnapPoint] measures and compares distances:
    it is strictly closer than every value before it, and no value after
    it is strictly closer. *)
Definition firstNearest (p : float) (values : list float) (n : float)
  : Prop :=
  exists before after,
    values = before ++ n :: after
    /\ (forall b, In b before ->
          ltb (Math_abs (n - p)) (Math_abs (b - p)) = true)
    /\ (forall a, In a after ->
          ltb (Math_abs (a - p)) (Math_abs (n - p)) = false).

(** The frame at [timestamp] ends the animation: neither comparison of
    the test that keeps the loop going holds. *)
Definition settles (timestamp : float) (s : SheetPhysics) : bool :=
  negb (keepsGoing (fst (integrate timestamp s))
          (snd (integrate timestamp s))).


(** The timestamps of [n] frames, [interval] milliseconds apart, after
    [last]. *)
Fixpoint every (interval : float) (n : nat) (last : float) : list float :=
  match n with
  | O => []
  | S n' => (last + interval) :: every interval n' (last + interval)
  end.

(** ** Sheets used in the binary64 examples *)

Definition noOptions : Options :=
  mkOptions None None None None None None None None.

(** The constructor's defaults, asked to open to [half]. *)
Definition opening : SheetPhysics :=
  fst (animateTo 0 0.5 None (new_SheetPhysics noOptions)).

(** A table with a third entry next to [half], and a sheet that is about
    to settle on [half], 0.9 thousandths above it and still moving. *)
Definition crowdedOptions : Options :=
  mkOptions None None None None
    (Some [("closed"%string, 0); ("half"%string, 0.5);
           ("near"%string, 0.502)])
    None None None.

Definition settling : SheetPhysics :=
  set_animating true
    (set_velocity (-0.0225)
       (set_targetPosition 0.5
          (set_position 0.5009 (new_SheetPhysics crowdedOptions)))).

(** Mass [2^50], stiffness [2^59], damping [2^54]; asked to open from 0 to
    [half]. *)
Definition heavyOptions : Options :=
  mkOptions (Some 0x1p50) (Some 0x1p59) (Some 0x1p54) None None None None
    None.

Definition heavyOpening : SheetPhysics :=
  fst (animateTo 0 0.5 None (new_SheetPhysics heavyOptions)).

End Binary64.

(** * Properties *)

(** ** Comparisons *)

Lemma ltb_true (x y : Q) : ltb x y = true <-> x < y.
Proof.
  unfold ltb. rewrite negb_true_iff. split; intro H.
  - apply Qnot_le_lt. intro C. apply Qle_bool_iff in C. congruence.
  - destruct (Qle_bool y x) eqn:E; [|reflexivity].
    apply Qle_bool_iff in E. exfalso. apply (Qlt_not_le _ _ H E).
Qed.

Lemma ltb_false (x y : Q) : ltb x y = false <-> y <= x.
Proof.
  unfold ltb. rewrite negb_false_iff. apply Qle_bool_iff.
Qed.

Lemma gtb_true (x y : Q) : gtb x y = true <-> y < x.
Proof. apply ltb_true. Qed.

Lemma gtb_false (x y : Q) : gtb x y = false <-> x <= y.
Proof. apply ltb_false. Qed.

(** Replaces every comparison of the goal by the inequality it decides. *)
Ltac cases_cmp :=
  repeat match goal with
    | |- context [ltb ?x ?y] =>
        let E := fresh "E" in
        destruct (ltb x y) eqn:E;
        [apply ltb_true in E | apply ltb_false in E]
    | |- context [gtb ?x ?y] =>
        let E := fresh "E" in
        destruct (gtb x y) eqn:E;
        [apply gtb_true in E | apply gtb_false in E]
    end.

Lemma Math_sign_pos (x : Q) : 0 < x -> Math_sign x = 1.
Proof.
  intro H. unfold Math_sign. apply ltb_true in H. now rewrite H.
Qed.

Lemma Math_sign_neg (x : Q) : x < 0 -> Math_sign x = -1.
Proof.
  intro H. unfold Math_sign.
  destruct (ltb 0 x) eqn:E; [apply ltb_true in E; lra|].
  apply ltb_true in H. now rewrite H.
Qed.

(** ** animateTo *)

(** C4. [animateTo(t, v0)] sets [targetPosition] to [t], except that with
    [allowOvershoot], an effective velocity [v] with [|v| > 2] and a travel
    distance [|t - position| > distanceThreshold] it sets it to
    [t + sign(v) * min(0.1, |v| * overshootMultiplier)] clamped into
    [0, 1]; in every other case the target is [t] itself. *)
Theorem animateTo_target (now t : Q) (v0 : option Q) (s : SheetPhysics) :
  let v := effectiveVelocity v0 s in
  let s' := fst (animateTo now t v0 s) in
  (overshoots t v0 s ->
     targetPosition s' ==
       Qmax 0 (Qmin 1 (t + Math_sign v * Qmin 0.1 (Qabs v * overshootMultiplier s)))
     /\ 0 <= targetPosition s' <= 1)
  /\ (~ overshoots t v0 s -> targetPosition s' = t).
Proof.
  cbv zeta. unfold overshoots, animateTo, Math_abs, Math_min, Math_max.
  assert (Hv : forall x, velocity (set_targetPosition x
                 match v0 with Some v => set_velocity v s | None => s end)
               = effectiveVelocity v0 s) by (destruct v0; reflexivity).
  assert (Hp : forall x, position (set_targetPosition x
                 match v0 with Some v => set_velocity v s | None => s end)
               = position s) by (destruct v0; reflexivity).
  assert (Ha : forall x, allowOvershoot (set_targetPosition x
                 match v0 with Some v => set_velocity v s | None => s end)
               = allowOvershoot s) by (destruct v0; reflexivity).
  assert (Hm : forall x, overshootMultiplier (set_targetPosition x
                 match v0 with Some v => set_velocity v s | None => s end)
               = overshootMultiplier s) by (destruct v0; reflexivity).
  assert (Hd : forall x, distanceThreshold (set_targetPosition x
                 match v0 with Some v => set_velocity v s | None => s end)
               = distanceThreshold s) by (destruct v0; reflexivity).
  rewrite Hv, Hp, Ha, Hd, Hm. cbn [targetPosition set_targetPosition].
  set (v := effectiveVelocity v0 s).
  split.
  - intros (Hallow & Hfast & Hfar). rewrite Hallow.
    apply gtb_true in Hfast. rewrite Hfast. cbn [andb].
    apply gtb_true in Hfar. rewrite Hfar.
    match goal with
    | |- context [if ?b then _ else _] => destruct b
    end; cbn [fst targetPosition set_targetPosition set_lastFrameTime
                set_animating];
      (split;
       [ apply Q.max_compat; [reflexivity|];
         apply Q.min_compat; [reflexivity|]; ring
       | split; [apply Q.le_max_l | apply Q.max_lub; [lra | apply Q.le_min_l]] ]).
  - intro Hno.
    destruct (allowOvershoot s) eqn:Hallow; cbn [andb].
    + destruct (gtb (Qabs v) 2) eqn:Hfast.
      * destruct (gtb (Qabs (t - position s)) (distanceThreshold s)) eqn:Hfar.
        -- exfalso. apply Hno. apply gtb_true in Hfast, Hfar. auto.
        -- cbn [targetPosition set_targetPosition].
           destruct (animating _); reflexivity.
      * cbn [targetPosition set_targetPosition].
        destruct (animating _); reflexivity.
    + cbn [targetPosition set_targetPosition].
      destruct (animating _); reflexivity.
Qed.

Lemma animateTo_target_witness :
  let s := set_position 0.2 (new_SheetPhysics sheetOptions) in
  targetPosition (fst (animateTo 0 0.5 (Some 3) s)) == 0.6
  /\ targetPosition (fst (animateTo 0 0.5 (Some 1) s)) = 0.5.
Proof.
  intro s. split.
  - destruct (animateTo_target 0 0.5 (Some 3) s) as [H _].
    destruct H as [H _].
    + unfold overshoots. repeat split; vm_compute; reflexivity.
    + rewrite H. vm_compute. reflexivity.
  - destruct (animateTo_target 0 0.5 (Some 1) s) as [_ H].
    apply H. unfold overshoots. intros (_ & H2 & _).
    vm_compute in H2. discriminate H2.
Defined.

(** ** The callbacks leave the simulator alone *)

Lemma updateSheetPosition_physics (p : Q) (c : SheetController) :
  physics (fst (updateSheetPosition p c)) = physics c.
Proof.
  unfold updateSheetPosition.
  destruct (getPositionName p (physics c)) as [nm|]; [|reflexivity].
  destruct (truthy (Some nm)); cbn [andb]; [destruct (negb _)|]; reflexivity.
Qed.

Lemma deliver_physics (ev : list Event) (c : SheetController) :
  physics (fst (deliver ev c)) = physics c.
Proof.
  revert c. induction ev as [|[q| |] ev IH]; intro c; cbn [deliver].
  - reflexivity.
  - destruct (updateSheetPosition q c) as [c1 n1] eqn:E1.
    destruct (deliver ev c1) as [c2 n2] eqn:E2.
    cbn [fst]. change c2 with (fst (c2, n2)). rewrite <- E2, IH.
    change c1 with (fst (c1, n1)). rewrite <- E1.
    apply updateSheetPosition_physics.
  - destruct (deliver ev c) as [c2 n2] eqn:E2.
    cbn [fst]. change c2 with (fst (c2, n2)). rewrite <- E2. apply IH.
  - apply IH.
Qed.

(** ** Edge resistance *)

Lemma applyResistance_below (r : Q) : r < 0 -> applyResistance r = r * 0.3.
Proof.
  intro H. unfold applyResistance. apply ltb_true in H. now rewrite H.
Qed.

Lemma applyResistance_above (r : Q) :
  0.95 < r -> applyResistance r = 0.95 + (r - 0.95) * 0.3.
Proof.
  intro H. unfold applyResistance.
  destruct (ltb r 0) eqn:E; [apply ltb_true in E; lra|].
  apply gtb_true in H. now rewrite H.
Qed.

Lemma applyResistance_inside (r : Q) :
  0 <= r <= 0.95 -> applyResistance r = r.
Proof.
  intros [H0 H1]. unfold applyResistance.
  apply ltb_false in H0. rewrite H0.
  apply gtb_false in H1. now rewrite H1.
Qed.

Lemma applyResistance_monotone (r r' : Q) :
  r <= r' -> applyResistance r <= applyResistance r'.
Proof.
  intro H. unfold applyResistance. cases_cmp; lra.
Qed.

Lemma onPointerMove_position (now : Q) (e : PointerEvent)
  (c : SheetController) :
  capturedBy e c = true ->
  position (physics (fst (onPointerMove now e c)))
  = applyResistance (rawDragPosition e c).
Proof.
  intro H. unfold onPointerMove. rewrite H. cbn [negb].
  unfold updatePositionFromDrag. rewrite deliver_physics.
  cbn [physics with_physics]. reflexivity.
Qed.

(** C8, as the source has it.  Edge resistance: a raw drag position [r]
    reaches the simulator as [r * 0.3] below 0, as
    [0.95 + (r - 0.95) * 0.3] above 0.95, and unchanged in between; below
    0 the result lies between [r] and 0, above 0.95 between 0.95 and [r],
    bounds included; the map is monotone.  (The bounds are stated as the
    binary64 computation keeps them: there the result can meet a bound.)
    The three forms are those of the binary64 computation as well, which
    leaves a NaN unchanged. *)
Theorem edge_resistance (r : Q) :
  (r < 0 -> applyResistance r = r * 0.3
            /\ r <= applyResistance r /\ applyResistance r <= 0)
  /\ (0.95 < r -> applyResistance r = 0.95 + (r - 0.95) * 0.3
                  /\ 0.95 <= applyResistance r /\ applyResistance r <= r)
  /\ (0 <= r <= 0.95 -> applyResistance r = r)
  /\ (forall r', r <= r' -> applyResistance r <= applyResistance r')
  /\ (forall now e c,
        capturedBy e c = true -> rawDragPosition e c = r ->
        position (physics (fst (onPointerMove now e c)))
        = applyResistance r)
  /\ (forall x : float,
        (Binary64.ltb x 0 = true ->
         Binary64.applyResistance x = (x * 0.3)%float)
        /\ (Binary64.ltb x 0 = false -> Binary64.gtb x 0.95 = true ->
            Binary64.applyResistance x = (0.95 + (x - 0.95) * 0.3)%float)
        /\ (Binary64.ltb x 0 = false -> Binary64.gtb x 0.95 = false ->
            Binary64.applyResistance x = x)).
Proof.
  split; [|split; [|split; [|split; [|split]]]].
  - intro H. split; [now apply applyResistance_below|].
    rewrite (applyResistance_below r H). lra.
  - intro H. split; [now apply applyResistance_above|].
    rewrite (applyResistance_above r H). lra.
  - intro H. now apply applyResistance_inside.
  - intros r' H. now apply applyResistance_monotone.
  - intros now e c Hc Hr. rewrite <- Hr. now apply onPointerMove_position.
  - intro x. unfold Binary64.applyResistance. split; [|split].
    + intros ->. reflexivity.
    + intros -> ->. reflexivity.
    + intros -> ->. reflexivity.
Qed.

(** C8 as stated fails in the strictness of its bounds.  A drag from
    [docked] that moves the pointer 640 px up a viewport of 800 px gives
    a raw position above 0.95, the next binary64 number after it; the
    resisted position is 0.95 itself: not strictly above 0.95, and the
    image of the raw position 0.95 as well. *)
Lemma edge_resistance_counterexample :
  let r := Binary64.rawDragPosition 0.15 700 60 800 in
  Binary64.gtb r 0.95 = true
  /\ Binary64.applyResistance r = 0.95%float
  /\ Binary64.gtb (Binary64.applyResistance r) 0.95 = false
  /\ Binary64.ltb 0.95 r = true
  /\ Binary64.applyResistance 0.95 = Binary64.applyResistance r.
Proof.
  cbv zeta. repeat split; vm_compute; reflexivity.
Qed.

Lemma edge_resistance_witness :
  applyResistance (-1) = -1 * 0.3
  /\ applyResistance 1.05 = 0.95 + (1.05 - 0.95) * 0.3
  /\ position (physics (fst (onPointerMove 16 (pointerAt 900)
                               (fst (onPointerDown (pointerAt 100) sheet)))))
     = applyResistance (0 - (900 - 100) / 800).
Proof.
  split; [|split].
  - destruct (edge_resistance (-1)) as [H _].
    destruct H as [H _]; [reflexivity | exact H].
  - destruct (edge_resistance 1.05) as (_ & H & _).
    destruct H as [H _]; [reflexivity | exact H].
  - destruct (edge_resistance (0 - (900 - 100) / 800))
      as (_ & _ & _ & _ & H & _).
    apply H; reflexivity.
Defined.

(** ** Position names *)

Lemma getPositionName_loop_some (p : Q) (entries : list (string * Q))
  (name : string) :
  getPositionName_loop p entries = Some name <->
  exists before v after,
    entries = before ++ (name, v) :: after
    /\ Qabs (p - v) < 0.02
    /\ forall e, In e before -> 0.02 <= Qabs (p - snd e).
Proof.
  induction entries as [|[k w] rest IH]; cbn [getPositionName_loop].
  - split; [discriminate|].
    intros (before & v & after & H & _). now destruct before.
  - unfold Math_abs. destruct (ltb (Qabs (p - w)) 0.02) eqn:E.
    + apply ltb_true in E. split.
      * intro H. injection H as <-.
        exists [], w, rest. repeat split; [exact E | intros e []].
      * intros (before & v & after & H & Hv & Hb).
        destruct before as [|b before]; cbn [app] in H.
        -- now injection H as <- _ _.
        -- injection H as <- _. specialize (Hb (k, w) (or_introl eq_refl)).
           cbn [snd] in Hb. lra.
    + apply ltb_false in E. rewrite IH. split.
      * intros (before & v & after & H & Hv & Hb).
        exists ((k, w) :: before), v, after. rewrite H.
        repeat split; [exact Hv|].
        intros e [<-|He]; [exact E | now apply Hb].
      * intros (before & v & after & H & Hv & Hb).
        destruct before as [|b before]; cbn [app] in H.
        -- injection H as _ <- _. lra.
        -- injection H as _ ->. exists before, v, after.
           repeat split; [exact Hv|]. intros e He. apply Hb. now right.
Qed.

Lemma getPositionName_loop_none (p : Q) (entries : list (string * Q)) :
  getPositionName_loop p entries = None <->
  forall e, In e entries -> 0.02 <= Qabs (p - snd e).
Proof.
  induction entries as [|[k w] rest IH]; cbn [getPositionName_loop].
  - split; [intros _ e [] | reflexivity].
  - unfold Math_abs. destruct (ltb (Qabs (p - w)) 0.02) eqn:E.
    + apply ltb_true in E. split; [discriminate|].
      intro H. specialize (H (k, w) (or_introl eq_refl)).
      cbn [snd] in H. lra.
    + apply ltb_false in E. rewrite IH. split.
      * intros H e [<-|He]; [exact E | now apply H].
      * intros H e He. apply H. now right.
Qed.

(** C10, as the source has it.  [getPositionName(p)] is the first name, in
    the table's iteration order, whose value lies strictly within 0.02 of
    [p], and [null] when no value does; hence [updateSheetPosition(p)]
    changes the controller's named position, or notifies a position
    change, only when [p] lies strictly within 0.02 of some snap value, and
    the new name is then that first name.  [setPosition] assigns the named
    position itself, wherever the sheet is. *)
Theorem position_name_tolerance (p : Q) (c : SheetController) :
  let table := snapPoints (physics c) in
  (forall name,
      getPositionName p (physics c) = Some name <->
      exists before v after,
        table = before ++ (name, v) :: after
        /\ Qabs (p - v) < 0.02
        /\ forall e, In e before -> 0.02 <= Qabs (p - snd e))
  /\ (getPositionName p (physics c) = None <->
      forall e, In e table -> 0.02 <= Qabs (p - snd e))
  /\ (currentPosition (fst (updateSheetPosition p c)) <> currentPosition c
      \/ snd (updateSheetPosition p c) <> [] ->
      (exists e, In e table /\ Qabs (p - snd e) < 0.02)
      /\ getPositionName p (physics c)
         = Some (currentPosition (fst (updateSheetPosition p c)))
      /\ snd (updateSheetPosition p c)
         = [PositionChange (currentPosition (fst (updateSheetPosition p c)))])
  /\ (forall now name animated,
        currentPosition (fst (setPosition now name animated c)) = name).
Proof.
  cbv zeta. split; [|split; [|split]]; cycle 3.
  { intros now name animated. unfold setPosition.
    destruct animated.
    - destruct (animateTo _ _ _ _) as [q ev].
      now destruct (deliver ev (with_physics q c)).
    - now destruct (updateSheetPosition _ _). }
  - intro name. apply getPositionName_loop_some.
  - apply getPositionName_loop_none.
  - unfold updateSheetPosition.
    destruct (getPositionName p (physics c)) as [n|] eqn:E.
    + destruct (truthy (Some n)); cbn [andb].
      * cbn [currentPosition with_translateY with_dataset].
        destruct (negb (String.eqb (currentPosition c) n)).
        -- intros _. cbn [fst snd currentPosition with_named].
           repeat split.
           apply getPositionName_loop_some in E.
           destruct E as (before & v & after & Ht & Hv & _).
           exists (n, v). split; [|exact Hv].
           unfold Object_entries in Ht. rewrite Ht.
           apply in_or_app. right. now left.
        -- cbn [fst snd currentPosition with_translateY with_dataset].
           intros [H|H]; now contradiction H.
      * cbn [fst snd currentPosition with_translateY].
        intros [H|H]; now contradiction H.
    + cbn [fst snd currentPosition with_translateY].
      intros [H|H]; now contradiction H.
Qed.

Lemma position_name_tolerance_witness :
  getPositionName 0.51 (physics sheet) = Some "half"%string
  /\ snd (updateSheetPosition 0.51 sheet) = [PositionChange "half"].
Proof.
  destruct (position_name_tolerance 0.51 sheet) as (_ & _ & H & _).
  destruct H as (_ & Hname & Hnote).
  - left. vm_compute. discriminate.
  - split; [rewrite Hname | rewrite Hnote]; vm_compute; reflexivity.
Defined.

(** C10 as stated fails for the named position: in the middle of a drag, at
    0.3, where no snap value is within 0.02, [setPosition("half")] renames
    the controller's position from [closed] to [half] while the sheet is
    still at 0.3. *)
Lemma setPosition_renames_off_snap :
  let c := fst (setPosition 32 "half" true draggedSheet) in
  currentPosition draggedSheet = "closed"%string
  /\ position (physics draggedSheet) == 0.3
  /\ getPositionName (position (physics draggedSheet)) (physics draggedSheet)
     = None
  /\ currentPosition c = "half"%string
  /\ position (physics c) == 0.3.
Proof.
  cbv zeta. repeat split; vm_compute; reflexivity.
Qed.

(** ** The nearest snap point *)

Lemma reduce_nearest (p : Q) (rest : list Q) (v0 : Q) :
  let n :=
    fold_left
      (fun prev curr =>
         if ltb (Math_abs (curr - p)) (Math_abs (prev - p))
         then curr else prev) rest v0 in
  In n (v0 :: rest)
  /\ forall v, In v (v0 :: rest) -> Qabs (n - p) <= Qabs (v - p).
Proof.
  cbv zeta. unfold Math_abs. revert v0.
  induction rest as [|w rest IH]; intro v0; cbn [fold_left].
  - split; [now left|]. intros v [<-|[]]. lra.
  - destruct (ltb (Qabs (w - p)) (Qabs (v0 - p))) eqn:E.
    + apply ltb_true in E. destruct (IH w) as [Hin Hmin]. split.
      * apply in_cons. exact Hin.
      * intros v [<-|Hv]; [|now apply Hmin].
        specialize (Hmin w (or_introl eq_refl)). lra.
    + apply ltb_false in E. destruct (IH v0) as [Hin Hmin]. split.
      * destruct Hin as [Hin|Hin]; [now left | now do 2 apply in_cons].
      * intros v [<-|[<-|Hv]].
        -- apply Hmin. now left.
        -- specialize (Hmin v0 (or_introl eq_refl)). lra.
        -- apply Hmin. now right.
Qed.

Lemma findNearestSnapPoint_nonempty (p : Q) (s : SheetPhysics) :
  snapPoints s <> [] ->
  exists n, findNearestSnapPoint p s = Normal n
            /\ nearestValue (snapPoints s) p n.
Proof.
  intro Hne. unfold findNearestSnapPoint, Object_values, nearestValue.
  destruct (snapPoints s) as [|[k v0] rest]; [now contradiction Hne|].
  cbn [map snd Array_reduce]. eexists. split; [reflexivity|].
  apply reduce_nearest.
Qed.

Lemma findNearestSnapPoint_empty (p : Q) (s : SheetPhysics) :
  snapPoints s = [] ->
  findNearestSnapPoint p s
  = Throw (TypeError "Reduce of empty array with no initial value").
Proof.
  intro H. unfold findNearestSnapPoint. now rewrite H.
Qed.

(** ** The integration step *)

(** What [integrate] leaves alone, and the displacement it reports. *)
Lemma integrate_frame (timestamp : Q) (s : SheetPhysics) :
  let s1 := fst (integrate timestamp s) in
  snd (integrate timestamp s) = targetPosition s - position s
  /\ targetPosition s1 = targetPosition s
  /\ snapPoints s1 = snapPoints s
  /\ animating s1 = animating s
  /\ onUpdate s1 = onUpdate s
  /\ onComplete s1 = onComplete s
  /\ mass s1 = mass s /\ stiffness s1 = stiffness s
  /\ damping s1 = damping s.
Proof.
  unfold integrate. cbv zeta.
  match goal with
  | |- context [if ?b then set_velocity 0 ?x else ?x] => destruct b
  end; repeat split.
Qed.

Lemma keepsGoing_false (s1 : SheetPhysics) (d : Q) :
  keepsGoing s1 d = false <->
  Qabs (velocity s1) <= 0.01 /\ Qabs d <= 0.001.
Proof.
  unfold keepsGoing, Math_abs. rewrite orb_false_iff.
  now rewrite !gtb_false.
Qed.

(** A frame that keeps going: the integrated object, and a new frame. *)
Lemma animationFrame_continues (timestamp : Q) (s : SheetPhysics) :
  keepsGoing (fst (integrate timestamp s)) (snd (integrate timestamp s))
  = true ->
  animationFrame timestamp s
  = mkOutcome (fst (integrate timestamp s))
      (notifyUpdate (fst (integrate timestamp s)) ++ [RequestFrame])
      (Normal tt).
Proof.
  intro H. unfold animationFrame.
  destruct (integrate timestamp s) as [s1 d]. cbn [fst snd] in H.
  now rewrite H.
Qed.

(** A frame that settles, on a table with at least one entry. *)
Lemma animationFrame_settles (timestamp : Q) (s : SheetPhysics) :
  snapPoints s <> [] ->
  keepsGoing (fst (integrate timestamp s)) (snd (integrate timestamp s))
  = false ->
  let s1 := fst (integrate timestamp s) in
  exists nearest final,
    nearestValue (snapPoints s) (position s1) nearest
    /\ final = (if ltb (Qabs (position s1 - nearest)) 0.01
                then nearest else targetPosition s)
    /\ animationFrame timestamp s
       = mkOutcome
           (set_animating false (set_velocity 0 (set_position final s1)))
           (notifyUpdate s1
              ++ (if onUpdate s then [Update final] else [])
              ++ (if onComplete s then [Complete] else []))
           (Normal tt).
Proof.
  intros Hne H. cbv zeta.
  destruct (integrate_frame timestamp s)
    as (_ & Ht & Hs & _ & Hu & Hc & _).
  unfold animationFrame.
  destruct (integrate timestamp s) as [s1 d].
  cbn [fst snd] in *. rewrite H.
  destruct (findNearestSnapPoint_nonempty (position s1) s1) as (n & -> & Hn);
    [now rewrite Hs|].
  rewrite Hs in Hn. exists n. eexists. split; [exact Hn|].
  split; [reflexivity|].
  unfold Math_abs, notifyUpdate, notifyComplete. rewrite <- Ht, <- Hu, <- Hc.
  destruct (ltb (Qabs (position s1 - n)) 0.01); reflexivity.
Qed.

(** ** Sorting and indexing *)

Section Sorting.
Context {A : Type} (cmp : A -> A -> Q).

Lemma insert_perm (x : A) (l : list A) :
  Permutation (insert cmp x l) (x :: l).
Proof.
  induction l as [|y l IH]; cbn [insert]; [reflexivity|].
  destruct (gtb (cmp x y) 0); [|reflexivity].
  rewrite IH. apply perm_swap.
Qed.

Lemma Array_sort_perm (l : list A) : Permutation (Array_sort cmp l) l.
Proof.
  induction l as [|x l IH]; cbn [Array_sort fold_right]; [reflexivity|].
  fold (Array_sort cmp l). rewrite insert_perm. now constructor.
Qed.

Lemma Array_sort_length (l : list A) :
  List.length (Array_sort cmp l) = List.length l.
Proof. apply Permutation_length, Array_sort_perm. Qed.

Lemma Array_sort_in (l : list A) (x : A) :
  In x (Array_sort cmp l) <-> In x l.
Proof.
  split; apply Permutation_in;
    [apply Array_sort_perm | symmetry; apply Array_sort_perm].
Qed.
End Sorting.

(** Sorting by a numeric key: [cmp a b = key a - key b]. *)
Section SortingByKey.
Context {A : Type} (key : A -> Q).
Let cmp (a b : A) : Q := key a - key b.
Let le (a b : A) : Prop := key a <= key b.

Lemma insert_sorted (x : A) (l : list A) :
  StronglySorted le l -> StronglySorted le (insert cmp x l).
Proof.
  induction 1 as [|y l Hl IH Hy]; cbn [insert].
  - repeat constructor.
  - subst cmp. cbv beta. destruct (gtb (key x - key y) 0) eqn:E.
    + apply gtb_true in E. constructor; [exact IH|].
      eapply Permutation_Forall; [symmetry; apply insert_perm|].
      constructor; [unfold le; lra | exact Hy].
    + apply gtb_false in E. constructor.
      * now constructor.
      * constructor; [unfold le; lra|].
        eapply Forall_impl; [|exact Hy]. unfold le. intros a Ha. lra.
Qed.

Lemma Array_sort_sorted (l : list A) :
  StronglySorted le (Array_sort cmp l).
Proof.
  induction l as [|x l IH]; cbn [Array_sort fold_right]; [constructor|].
  now apply insert_sorted.
Qed.

(** The head of the sorted array has the least key. *)
Lemma Array_sort_head (l : list A) (x : A) (rest : list A) :
  Array_sort cmp l = x :: rest ->
  In x l /\ forall y, In y l -> key x <= key y.
Proof.
  intro H. split.
  - apply (Array_sort_in cmp). rewrite H. now left.
  - intros y Hy. apply (Array_sort_in cmp) in Hy.
    pose proof (Array_sort_sorted l) as S. rewrite H in *.
    destruct Hy as [<-|Hy]; [lra|].
    inversion S as [|? ? _ Hall]; subst.
    rewrite Forall_forall in Hall. now apply Hall.
Qed.
End SortingByKey.

(** The sort is stable: the head of an array sorted by a key is the first
    of its elements with the least key. *)
Lemma Array_sort_head_first {A : Type} (key : A -> Q) (l : list A) (x : A)
  (rest : list A) :
  Array_sort (fun a b => key a - key b) l = x :: rest ->
  firstLeast key l x.
Proof.
  revert x rest. induction l as [|y l IH]; intros x rest H;
    [discriminate H|].
  cbn [Array_sort fold_right] in H.
  fold (Array_sort (fun a b => key a - key b) l) in H.
  destruct (Array_sort (fun a b => key a - key b) l) as [|h t] eqn:E.
  - cbn [insert] in H. injection H as <- <-.
    apply (f_equal (@List.length A)) in E.
    rewrite Array_sort_length in E. destruct l; [|discriminate E].
    exists [], []. repeat split; intros z [].
  - cbn [insert] in H. destruct (gtb (key y - key h) 0) eqn:G.
    + apply gtb_true in G. injection H as <- <-.
      destruct (IH h t eq_refl) as (b & a & -> & Hb & Ha).
      exists (y :: b), a. split; [reflexivity|]. split; [|exact Ha].
      intros z [<-|Hz]; [lra | now apply Hb].
    + apply gtb_false in G. injection H as <- <-.
      exists [], l. split; [reflexivity|]. split; [intros z []|].
      intros a Ha.
      destruct (Array_sort_head key l h t E) as [_ Hmin].
      specialize (Hmin a Ha). lra.
Qed.

Lemma findIndex_bounds {A : Type} (p : A -> bool) (l : list A) :
  (-1 <= findIndex p l < Z.of_nat (List.length l))%Z.
Proof.
  induction l as [|x l IH]; cbn [findIndex List.length]; [lia|].
  destruct (p x); [lia|].
  destruct (findIndex p l <? 0)%Z eqn:E; lia.
Qed.

Lemma index_in_range {A : Type} (l : list A) (i : Z) :
  (0 <= i < Z.of_nat (List.length l))%Z -> exists x, index l i = Some x.
Proof.
  intro H. unfold index.
  destruct (i <? 0)%Z eqn:E; [lia|].
  destruct (nth_error l (Z.to_nat i)) eqn:N; [eauto|].
  apply nth_error_None in N. lia.
Qed.

(** ** Exceptions *)

Lemma commitTarget_returns (s : SheetPhysics) :
  snapPoints s <> [] -> returns (commitTarget s).
Proof.
  intro Hne. unfold commitTarget, Object_entries.
  set (byDistance := Array_sort _ (snapPoints s)).
  set (byPosition := Array_sort _ (snapPoints s)).
  assert (Hlen : List.length byPosition = List.length (snapPoints s))
    by apply Array_sort_length.
  assert (Hd : exists e, index byDistance 0 = Some e).
  { apply index_in_range. subst byDistance. rewrite Array_sort_length.
    destruct (snapPoints s); [now contradiction Hne | cbn; lia]. }
  destruct Hd as ([closestName closest] & ->).
  destruct (gtb (Math_abs (velocity s)) 0.5); [|now eexists].
  set (i := findIndex _ byPosition).
  pose proof (findIndex_bounds
                (fun entry => String.eqb (fst entry) closestName)
                byPosition) as Hi.
  fold i in Hi.
  destruct (gtb (Math_sign (velocity s)) 0
            && (i <? Z.of_nat (List.length byPosition) - 1)%Z) eqn:Up.
  - apply andb_prop in Up. destruct Up as [_ Up]. apply Z.ltb_lt in Up.
    destruct (index_in_range byPosition (i + 1)) as ([n v] & ->); [lia|].
    match goal with
    | |- context [if ?b then _ else _] => destruct b
    end; now eexists.
  - destruct (ltb (Math_sign (velocity s)) 0 && (i >? 0)%Z) eqn:Down;
      [|now eexists].
    apply andb_prop in Down. destruct Down as [_ Down].
    apply Z.gtb_lt in Down.
    destruct (index_in_range byPosition (i - 1)) as ([n v] & ->); [lia|].
    match goal with
    | |- context [if ?b then _ else _] => destruct b
    end; now eexists.
Qed.

Lemma completePositionChange_returns (now : Q) (vo : option Q)
  (s : SheetPhysics) :
  snapPoints s <> [] ->
  returns (out_result (completePositionChange now vo s))
  /\ animating (out_state (completePositionChange now vo s)) = true.
Proof.
  intro Hne. unfold completePositionChange.
  set (s' := set_history [] [] _).
  assert (Hs : snapPoints s' = snapPoints s) by (destruct vo; reflexivity).
  destruct (commitTarget_returns s') as ([tp tn] & ->); [now rewrite Hs|].
  destruct (animateTo now tp (Some (velocity s')) s') as [s2 ev] eqn:E.
  cbn [out_result out_state]. split; [now eexists|].
  change s2 with (fst (s2, ev)). rewrite <- E. unfold animateTo.
  match goal with
  | |- animating (fst (if animating ?x then _ else _)) = true =>
      destruct (animating x) eqn:An; [exact An | reflexivity]
  end.
Qed.

(** C9, as the source has it.  With at least one entry in the snap table
    no operation of the simulator throws, whatever the spring constants
    are (non-positive ones included): the nearest-snap-point lookup, the commit-target
    resolution, a frame, the end of a drag. *)
Theorem no_exception_with_entries (s : SheetPhysics) :
  snapPoints s <> [] ->
  (forall p, returns (findNearestSnapPoint p s))
  /\ returns (commitTarget s)
  /\ (forall timestamp, out_result (animationFrame timestamp s) = Normal tt)
  /\ (forall now velocityOverride,
        returns (out_result (completePositionChange now velocityOverride s)))
  /\ (forall now measured e c,
        physics c = s -> snd (endDrag now measured e c) = Normal tt).
Proof.
  intro Hne. split; [|split; [|split; [|split]]].
  - intro p. destruct (findNearestSnapPoint_nonempty p s Hne) as (n & H & _).
    now exists n.
  - now apply commitTarget_returns.
  - intro timestamp.
    destruct (keepsGoing (fst (integrate timestamp s))
                (snd (integrate timestamp s))) eqn:K.
    + now rewrite (animationFrame_continues _ _ K).
    + destruct (animationFrame_settles _ _ Hne K) as (n & f & _ & _ & ->).
      reflexivity.
  - intros now vo. now apply completePositionChange_returns.
  - intros now measured e c Hc. unfold endDrag.
    destruct (capturedBy e c); cbn [negb]; [|reflexivity].
    set (c' := with_drag _ _ _ _ _ c).
    set (r := completePositionChange _ _ _).
    destruct (completePositionChange_returns now
                (Some (if measured then calculateVelocity (physics c') else 0))
                (physics c')) as [(tn & Hr) _].
    { subst c'. cbn [physics with_drag]. now rewrite Hc. }
    fold r in Hr. rewrite Hr.
    destruct (deliver (out_events r) (with_physics (out_state r) c')).
    reflexivity.
Qed.

(** C9 as stated fails on the empty table: the frame that would settle
    throws from [findNearestSnapPoint] and leaves [animating] set, and
    ending a drag throws from [completePositionChange]. *)
Lemma empty_table_throws :
  let s := new_SheetPhysics tablelessOptions in
  let running := fst (animateTo 0 0 None s) in
  out_result (animationFrame 16 running)
  = Throw (TypeError "Reduce of empty array with no initial value")
  /\ animating (out_state (animationFrame 16 running)) = true
  /\ out_result (completePositionChange 0 (Some 0) s)
     = Throw (TypeError "Cannot read properties of undefined")
  /\ snd (onPointerUp 16 (pointerAt 100)
            (fst (onPointerDown (pointerAt 100)
                    (new_SheetController tablelessOptions 800 "closed"))))
     = Throw (TypeError "Cannot read properties of undefined").
Proof.
  cbv zeta. repeat split; vm_compute; reflexivity.
Qed.

Lemma no_exception_with_entries_witness :
  let s := new_SheetPhysics sheetOptions in
  out_result (animationFrame 16 (fst (animateTo 0 0 None s))) = Normal tt.
Proof.
  intro s.
  assert (Hne : snapPoints (fst (animateTo 0 0 None s)) <> [])
    by discriminate.
  destruct (no_exception_with_entries _ Hne) as (_ & _ & H & _).
  apply H.
Defined.

(** ** The rest invariant *)

Lemma setPosition_physics (now : Q) (name : string) (animated : bool)
  (c : SheetController) :
  physics (fst (setPosition now name animated c))
  = if animated
    then fst (animateTo now (getPositionValue name c) None (physics c))
    else set_position (getPositionValue name c) (physics c).
Proof.
  unfold setPosition. destruct animated.
  - destruct (animateTo now (getPositionValue name c) None (physics c))
      as [p ev].
    destruct (deliver ev (with_physics p c)) as [c1 n] eqn:E.
    cbn [fst physics with_dataset with_named].
    change c1 with (fst (c1, n)). rewrite <- E. apply deliver_physics.
  - destruct (updateSheetPosition _ _) as [c1 n] eqn:E.
    cbn [fst physics with_dataset with_named].
    change c1 with (fst (c1, n)). rewrite <- E.
    apply updateSheetPosition_physics.
Qed.


Lemma or_default_zero (v : Q) : or_default (Some v) 0 == v.
Proof.
  unfold or_default. destruct (Qeq_bool v 0) eqn:E; [|reflexivity].
  apply Qeq_bool_iff in E. now rewrite E.
Qed.

Lemma animateTo_animating (now t : Q) (v0 : option Q) (s : SheetPhysics) :
  animating (fst (animateTo now t v0 s)) = true.
Proof.
  unfold animateTo.
  match goal with
  | |- animating (fst (if animating ?x then _ else _)) = true =>
      destruct (animating x) eqn:An; [exact An | reflexivity]
  end.
Qed.





(** ** Velocity estimation *)

Lemma velocityLoop_spec (ps ts : list Q) (l : list nat) (vs ws : list Q) :
  List.length ts = List.length ps ->
  Forall (fun i => (1 <= i < List.length ps)%nat) l ->
  fold_left (velocityLoopBody ps ts (List.length ps)) l (vs, ws)
  = (vs ++ map (pairVelocity ps ts)
             (filter (fun i => gtb (timeDelta ts i) 0) l),
     ws ++ map (pairWeight (List.length ps))
             (filter (fun i => gtb (timeDelta ts i) 0) l)).
Proof.
  intros Hlen. revert vs ws.
  induction l as [|i l IH]; intros vs ws Hall; cbn [fold_left filter map].
  - now rewrite !app_nil_r.
  - inversion Hall as [|? ? Hi Hl]; subst.
    assert (P1 : nth_error ps i = Some (nth i ps 0))
      by (apply nth_error_nth'; lia).
    assert (P0 : nth_error ps (i - 1) = Some (nth (i - 1) ps 0))
      by (apply nth_error_nth'; lia).
    assert (T1 : nth_error ts i = Some (nth i ts 0))
      by (apply nth_error_nth'; lia).
    assert (T0 : nth_error ts (i - 1) = Some (nth (i - 1) ts 0))
      by (apply nth_error_nth'; lia).
    unfold velocityLoopBody at 2. rewrite P1, P0, T1, T0.
    fold (timeDelta ts i).
    destruct (gtb (timeDelta ts i) 0).
    + rewrite IH by exact Hl. cbn [map]. now rewrite <- !app_assoc.
    + now apply IH.
Qed.

Lemma sumLoop_spec (vs ws : list Q) (a b : Q) :
  List.length vs = List.length ws ->
  exists tv tw,
    fold_left
      (fun '(totalVelocity, totalWeight) '(v, w) =>
         (totalVelocity + v * w, totalWeight + w))
      (combine vs ws) (a, b) = (tv, tw)
    /\ tv == a + Qsum (map (fun vw => fst vw * snd vw) (combine vs ws))
    /\ tw == b + Qsum ws.
Proof.
  revert ws a b. induction vs as [|v vs IH]; intros [|w ws] a b Hlen;
    try discriminate Hlen; cbn [combine fold_left map Qsum fold_right].
  - exists a, b. repeat split; ring.
  - injection Hlen as Hlen.
    destruct (IH ws (a + v * w) (b + w) Hlen) as (tv & tw & E & Hv & Hw).
    exists tv, tw. split; [exact E|].
    fold (Qsum (map (fun vw => fst vw * snd vw) (combine vs ws))).
    fold (Qsum ws). cbn [fst snd]. split; [rewrite Hv | rewrite Hw]; ring.
Qed.

Lemma combine_map_sum {A : Type} (f g : A -> Q) (l : list A) :
  map (fun vw => fst vw * snd vw) (combine (map f l) (map g l))
  = map (fun i => f i * g i) l.
Proof.
  induction l as [|x l IH]; cbn [map combine fst snd]; [reflexivity|].
  now rewrite IH.
Qed.

Lemma pairWeight_nonneg (n i : nat) : 0 <= pairWeight n i.
Proof.
  unfold pairWeight.
  set (x := inject_Z (Z.of_nat i) / inject_Z (Z.of_nat (n - 1))).
  change (x ^ 2) with (x * x). nra.
Qed.

Lemma Qsum_nonneg (l : list Q) : Forall (fun x => 0 <= x) l -> 0 <= Qsum l.
Proof.
  induction 1 as [|x l Hx _ IH]; cbn [Qsum fold_right]; [lra|].
  fold (Qsum l). lra.
Qed.

Lemma calculateVelocity_cases (s : SheetPhysics) :
  let ps := positionHistory s in
  let ts := timeHistory s in
  List.length ts = List.length ps ->
  ((2 <= List.length ps)%nat ->
   (0 < totalWeight ps ts -> calculateVelocity s == weightedAverage ps ts)
   /\ (totalWeight ps ts == 0 -> calculateVelocity s = 0))
  /\ ((List.length ps < 2)%nat -> calculateVelocity s = 0).
Proof.
  cbv zeta. intro Hlen. unfold calculateVelocity. split.
  - intro Hn.
    destruct (List.length (positionHistory s) <? 2)%nat eqn:E;
      [apply Nat.ltb_lt in E; lia|].
    rewrite (velocityLoop_spec _ _ _ [] [] Hlen).
    2:{ apply Forall_forall. intros i Hi. apply in_seq in Hi. lia. }
    cbn [app]. fold (validPairs (positionHistory s) (timeHistory s)).
    set (valid := validPairs (positionHistory s) (timeHistory s)).
    set (vel := pairVelocity (positionHistory s) (timeHistory s)).
    set (wt := pairWeight (List.length (positionHistory s))).
    destruct (sumLoop_spec (map vel valid) (map wt valid) 0 0)
      as (tv & tw & Efold & Hv & Hw); [now rewrite !length_map|].
    rewrite combine_map_sum in Hv.
    assert (Htw : tw == totalWeight (positionHistory s) (timeHistory s)).
    { rewrite Hw. unfold totalWeight. fold valid. fold wt. ring. }
    destruct (List.length (map vel valid) =? 0)%nat eqn:Z.
    + apply Nat.eqb_eq in Z. rewrite length_map in Z.
      apply length_zero_iff_nil in Z.
      split; [|reflexivity].
      unfold totalWeight. fold valid. rewrite Z. cbn. intro H. lra.
    + rewrite Efold. split.
      * intro Hpos. rewrite <- Htw in Hpos. apply gtb_true in Hpos.
        rewrite Hpos. unfold weightedAverage.
        fold valid. fold vel. fold wt.
        rewrite <- Htw, Hv. apply Qdiv_comp; [ring | reflexivity].
      * intro Hzero. rewrite <- Htw in Hzero.
        destruct (gtb tw 0) eqn:G; [|reflexivity].
        apply gtb_true in G. lra.
  - intro Hn. apply Nat.ltb_lt in Hn. now rewrite Hn.
Qed.

(** C5. For a history of [n >= 2] samples [calculateVelocity] is the
    weighted average of the velocities of the adjacent pairs with a
    positive time difference, pair [i] weighing [(i / (n-1))^2]; it is 0
    with fewer than two samples or a total weight of 0, and the total
    weight is never negative. *)
Theorem calculateVelocity_weighted_average (s : SheetPhysics) :
  let ps := positionHistory s in
  let ts := timeHistory s in
  List.length ts = List.length ps ->
  ((2 <= List.length ps)%nat ->
   (0 < totalWeight ps ts -> calculateVelocity s == weightedAverage ps ts)
   /\ (totalWeight ps ts == 0 -> calculateVelocity s = 0)
   /\ 0 <= totalWeight ps ts)
  /\ ((List.length ps < 2)%nat -> calculateVelocity s = 0).
Proof.
  cbv zeta. intro Hlen.
  destruct (calculateVelocity_cases s Hlen) as [Hmany Hfew].
  split; [|exact Hfew].
  intro Hn. destruct (Hmany Hn) as [Hpos Hzero].
  split; [exact Hpos|]. split; [exact Hzero|].
  apply Qsum_nonneg. apply Forall_forall. intros w Hw.
  apply in_map_iff in Hw. destruct Hw as (i & <- & _).
  apply pairWeight_nonneg.
Qed.

Lemma calculateVelocity_weighted_average_witness :
  calculateVelocity threeSamples == (0.2 * (1 # 4) + 0.8 * 1) / ((1 # 4) + 1).
Proof.
  destruct (calculateVelocity_weighted_average threeSamples eq_refl)
    as [H _].
  destruct H as [H _]; [cbn; lia|].
  rewrite H; [|vm_compute; reflexivity].
  vm_compute. reflexivity.
Defined.

(** ** Commit-target resolution *)

Lemma flicks_test (v d : Q) :
  gtb d 0 && (gtb (Math_abs v) (0.5 * (1 + d * 2)) || ltb d 0.1) = true
  <-> flicks v d.
Proof.
  unfold flicks, Math_abs.
  rewrite andb_true_iff, orb_true_iff, !gtb_true, ltb_true. tauto.
Qed.

Lemma findIndex_unique (l : list (string * Q)) (i : nat) (n : string)
  (v : Q) :
  NoDup (map fst l) ->
  nth_error l i = Some (n, v) ->
  findIndex (fun entry => String.eqb (fst entry) n) l = Z.of_nat i.
Proof.
  revert i. induction l as [|[k w] l IH]; intros i Hnd Hi.
  - now destruct i.
  - cbn [map fst] in Hnd. inversion Hnd as [|? ? Hk Hnd']; subst.
    cbn [findIndex fst]. destruct i as [|i]; cbn [nth_error] in Hi.
    + injection Hi as -> ->. now rewrite String.eqb_refl.
    + destruct (String.eqb k n) eqn:E.
      * apply String.eqb_eq in E. subst k. exfalso. apply Hk.
        apply nth_error_In in Hi. now apply (in_map fst) in Hi.
      * rewrite (IH i Hnd' Hi).
        destruct (Z.of_nat i <? 0)%Z eqn:Z; lia.
Qed.

Lemma sortedByDistance_head (p : Q) (table : list (string * Q)) :
  table <> [] ->
  exists near rest,
    sortedByDistance p table = near :: rest /\ nearestEntry table p near.
Proof.
  intro Hne. unfold sortedByDistance, Object_entries.
  destruct (Array_sort _ table) as [|near rest] eqn:E.
  - apply (f_equal (@List.length _)) in E.
    rewrite Array_sort_length in E. destruct table; [easy | discriminate].
  - exists near, rest. split; [reflexivity|].
    apply (Array_sort_head (fun e => Math_abs (snd e - p)) table near rest E).
Qed.

Lemma sortedByDistance_first (p : Q) (table : list (string * Q))
  (near : string * Q) (rest : list (string * Q)) :
  sortedByDistance p table = near :: rest ->
  firstLeast (fun e => Qabs (snd e - p)) table near.
Proof.
  intro H.
  exact (Array_sort_head_first (fun e => Math_abs (snd e - p)) table near
           rest H).
Qed.

Lemma sortedByPosition_ordered (table : list (string * Q)) :
  Permutation (sortedByPosition table) table
  /\ StronglySorted (fun a b => snd a <= snd b) (sortedByPosition table).
Proof.
  split; [apply Array_sort_perm | apply (Array_sort_sorted snd)].
Qed.

Lemma index_of_nat {A : Type} (l : list A) (i : nat) :
  index l (Z.of_nat i) = nth_error l i.
Proof.
  unfold index. destruct (Z.of_nat i <? 0)%Z eqn:E;
    [apply Z.ltb_lt in E; lia|].
  now rewrite Nat2Z.id.
Qed.

Lemma Qabs_bounds (v : Q) : v <= Qabs v /\ - v <= Qabs v.
Proof.
  split; [apply Qle_Qabs|]. rewrite <- Qabs_opp. apply Qle_Qabs.
Qed.

(** How [commitTarget] resolves, in terms of the nearest entry and of its
    neighbors in the order by position. *)
Lemma commitTarget_resolves (s : SheetPhysics) :
  snapPoints s <> [] ->
  NoDup (map fst (snapPoints s)) ->
  let v := velocity s in
  let p := position s in
  let sorted := sortedByPosition (snapPoints s) in
  exists near target i,
    (nearestEntry (snapPoints s) p near
     /\ firstLeast (fun e => Qabs (snd e - p)) (snapPoints s) near)
    /\ nth_error sorted i = Some near
    /\ In target (snapPoints s)
    /\ commitTarget s = Normal (snd target, fst target)
    /\ (Qabs v <= 0.5 -> target = near)
    /\ (0.5 < v -> forall nb,
          nth_error sorted (S i) = Some nb ->
          (flicks v (snd nb - p) -> target = nb)
          /\ (~ flicks v (snd nb - p) -> target = near))
    /\ (v < -0.5 -> forall j nb,
          i = S j -> nth_error sorted j = Some nb ->
          (flicks v (p - snd nb) -> target = nb)
          /\ (~ flicks v (p - snd nb) -> target = near))
    /\ (0.5 < v -> nth_error sorted (S i) = None -> target = near)
    /\ (v < -0.5 -> i = 0%nat -> target = near).
Proof.
  intros Hne Hnd. cbv zeta.
  destruct (sortedByDistance_head (position s) (snapPoints s) Hne)
    as ([cn cv] & rest & Hhead & Hnear).
  pose proof (sortedByDistance_first _ _ _ _ Hhead) as Hfirst.
  destruct (sortedByPosition_ordered (snapPoints s)) as [Hperm _].
  assert (Hin : In (cn, cv) (sortedByPosition (snapPoints s))).
  { eapply Permutation_in; [symmetry; exact Hperm | apply Hnear]. }
  destruct (In_nth_error _ _ Hin) as (i & Hi).
  assert (Hfi : findIndex (fun entry => String.eqb (fst entry) cn)
                  (sortedByPosition (snapPoints s)) = Z.of_nat i).
  { apply (findIndex_unique _ i cn cv); [|exact Hi].
    eapply Permutation_NoDup; [|exact Hnd].
    apply Permutation_map. symmetry. exact Hperm. }
  assert (Hlen : (i < List.length (sortedByPosition (snapPoints s)))%nat).
  { apply nth_error_Some. now rewrite Hi. }
  destruct (Qabs_bounds (velocity s)) as [Hb1 Hb2].
  unfold commitTarget. cbv zeta.
  change (Array_sort
            (fun a b => Math_abs (snd a - position s)
                        - Math_abs (snd b - position s))
            (Object_entries (snapPoints s)))
    with (sortedByDistance (position s) (snapPoints s)).
  change (Array_sort (fun a b => snd a - snd b)
            (Object_entries (snapPoints s)))
    with (sortedByPosition (snapPoints s)).
  rewrite Hhead. change (index ((cn, cv) :: rest) 0) with (Some (cn, cv)).
  cbv iota beta. rewrite Hfi. unfold Math_abs at 1.
  destruct (gtb (Qabs (velocity s)) 0.5) eqn:Hfast.
  - apply gtb_true in Hfast.
    destruct (Qlt_le_dec 0 (velocity s)) as [Hpos|Hneg].
    + (* upward *)
      assert (Hv : 0.5 < velocity s)
        by (rewrite (Qabs_pos (velocity s)) in Hfast; lra).
      rewrite (Math_sign_pos _ Hpos).
      change (gtb 1 0) with true. change (ltb 1 0) with false.
      cbn [andb].
      destruct (Z.of_nat i
                <? Z.of_nat (List.length (sortedByPosition (snapPoints s))) - 1)%Z
        eqn:Hup.
      * apply Z.ltb_lt in Hup.
        replace (Z.of_nat i + 1)%Z with (Z.of_nat (S i)) by lia.
        rewrite index_of_nat.
        destruct (nth_error (sortedByPosition (snapPoints s)) (S i))
          as [[nn nv]|] eqn:Hnb;
          [|apply nth_error_None in Hnb; lia].
        cbv iota beta.
        destruct (gtb (nv - position s) 0
                  && (gtb (Math_abs (velocity s))
                        (0.5 * (1 + (nv - position s) * 2))
                      || ltb (nv - position s) 0.1)) eqn:Hflick.
        -- apply flicks_test in Hflick.
           exists (cn, cv), (nn, nv), i.
           split; [exact (conj Hnear Hfirst)|]. split; [exact Hi|].
           split.
           { eapply Permutation_in; [exact Hperm|].
             eapply nth_error_In; exact Hnb. }
           split; [reflexivity|].
           split; [intro; lra|].
           split.
           { intros _ nb Hnb'. rewrite Hnb in Hnb'. injection Hnb' as <-.
             cbn [snd].
             split; [reflexivity | intro C; now contradiction C]. }
           split; [intro; lra|].
           split; [intros _ C; rewrite Hnb in C; discriminate C
                  | intro; lra].
        -- assert (Hno : ~ flicks (velocity s) (nv - position s)).
           { intro C. apply flicks_test in C. congruence. }
           exists (cn, cv), (cn, cv), i.
           split; [exact (conj Hnear Hfirst)|]. split; [exact Hi|].
           split; [apply Hnear|]. split; [reflexivity|].
           split; [reflexivity|].
           split.
           { intros _ nb Hnb'. rewrite Hnb in Hnb'. injection Hnb' as <-.
             cbn [snd].
             split; [intro C; now contradiction Hno | reflexivity]. }
           split; [intro; lra|].
           split; reflexivity.
      * apply Z.ltb_ge in Hup.
        exists (cn, cv), (cn, cv), i.
        split; [exact (conj Hnear Hfirst)|]. split; [exact Hi|].
        split; [apply Hnear|]. split; [reflexivity|].
        split; [reflexivity|].
        split.
        { intros _ nb Hnb.
          assert (S i < List.length (sortedByPosition (snapPoints s)))%nat
            by (apply nth_error_Some; now rewrite Hnb).
          lia. }
        split; [intro; lra|].
        split; reflexivity.
    + (* downward *)
      assert (Hv : velocity s < -0.5)
        by (rewrite (Qabs_neg (velocity s)) in Hfast; lra).
      assert (Hlt : velocity s < 0) by lra.
      rewrite (Math_sign_neg _ Hlt).
      change (gtb (-1) 0) with false. change (ltb (-1) 0) with true.
      cbn [andb].
      destruct (Z.of_nat i >? 0)%Z eqn:Hdown.
      * apply Z.gtb_lt in Hdown.
        destruct i as [|j]; [lia|].
        replace (Z.of_nat (S j) - 1)%Z with (Z.of_nat j) by lia.
        rewrite index_of_nat.
        destruct (nth_error (sortedByPosition (snapPoints s)) j)
          as [[nn nv]|] eqn:Hnb;
          [|apply nth_error_None in Hnb; lia].
        cbv iota beta.
        destruct (gtb (position s - nv) 0
                  && (gtb (Math_abs (velocity s))
                        (0.5 * (1 + (position s - nv) * 2))
                      || ltb (position s - nv) 0.1)) eqn:Hflick.
        -- apply flicks_test in Hflick.
           exists (cn, cv), (nn, nv), (S j).
           split; [exact (conj Hnear Hfirst)|]. split; [exact Hi|].
           split.
           { eapply Permutation_in; [exact Hperm|].
             eapply nth_error_In; exact Hnb. }
           split; [reflexivity|].
           split; [intro; lra|].
           split; [intro; lra|].
           split.
           { intros _ j' nb Hj Hnb'. injection Hj as <-.
             rewrite Hnb in Hnb'. injection Hnb' as <-. cbn [snd].
             split; [reflexivity | intro C; now contradiction C]. }
           split; [intro; lra | intros _ C; discriminate C].
        -- assert (Hno : ~ flicks (velocity s) (position s - nv)).
           { intro C. apply flicks_test in C. congruence. }
           exists (cn, cv), (cn, cv), (S j).
           split; [exact (conj Hnear Hfirst)|]. split; [exact Hi|].
           split; [apply Hnear|]. split; [reflexivity|].
           split; [reflexivity|].
           split; [intro; lra|].
           split.
           { intros _ j' nb Hj Hnb'. injection Hj as <-.
             rewrite Hnb in Hnb'. injection Hnb' as <-. cbn [snd].
             split; [intro C; now contradiction Hno | reflexivity]. }
           split; reflexivity.
      * exists (cn, cv), (cn, cv), i.
        split; [exact (conj Hnear Hfirst)|]. split; [exact Hi|].
        split; [apply Hnear|]. split; [reflexivity|].
        split; [reflexivity|].
        split; [intro; lra|].
        split.
        { intros _ j nb Hj _. subst i. rewrite Z.gtb_ltb in Hdown.
          apply Z.ltb_ge in Hdown. lia. }
        split; reflexivity.
  - apply gtb_false in Hfast.
    exists (cn, cv), (cn, cv), i.
    split; [exact (conj Hnear Hfirst)|]. split; [exact Hi|].
    split; [apply Hnear|]. split; [reflexivity|].
    split; [reflexivity|].
    split; [intro; lra|]. split; [intro; lra|].
    split; reflexivity.
Qed.

Lemma completePositionChange_unfold (now : Q) (vo : option Q)
  (s : SheetPhysics) :
  let s' := set_history [] [] (set_velocity (gainedVelocity vo s) s) in
  completePositionChange now vo s
  = match commitTarget s' with
    | Throw e => mkOutcome s' [] (Throw e)
    | Normal (targetPosition, targetName) =>
        mkOutcome (fst (animateTo now targetPosition (Some (velocity s')) s'))
          (snd (animateTo now targetPosition (Some (velocity s')) s'))
          (Normal targetName)
    end.
Proof.
  cbv zeta. unfold completePositionChange, gainedVelocity.
  destruct vo as [x|].
  - change (set_history [] []
              (set_velocity (velocity (set_velocity x s) * 1.2)
                 (set_velocity x s)))
      with (set_history [] [] (set_velocity (x * 1.2) s)).
    destruct (commitTarget _) as [[tp tn]|]; [|reflexivity].
    now destruct (animateTo _ _ _ _).
  - change (set_history [] []
              (set_velocity
                 (velocity (set_velocity (calculateVelocity s) s) * 1.2)
                 (set_velocity (calculateVelocity s) s)))
      with (set_history [] []
              (set_velocity (calculateVelocity s * 1.2) s)).
    destruct (commitTarget _) as [[tp tn]|]; [|reflexivity].
    now destruct (animateTo _ _ _ _).
Qed.

(** The two histories are pushed, trimmed and cleared together. *)
Lemma histories_aligned (s : SheetPhysics) :
  List.length (timeHistory s) = List.length (positionHistory s) ->
  (forall now p,
      let s' := fst (updatePositionFromDrag now p s) in
      List.length (timeHistory s') = List.length (positionHistory s'))
  /\ (forall now vo,
        let s' := out_state (completePositionChange now vo s) in
        List.length (timeHistory s') = List.length (positionHistory s'))
  /\ (forall options,
        List.length (timeHistory (new_SheetPhysics options))
        = List.length (positionHistory (new_SheetPhysics options))).
Proof.
  intro H. split; [|split].
  - intros now p. cbv zeta. unfold updatePositionFromDrag.
    destruct (_ <? _)%nat;
      cbn [fst timeHistory positionHistory set_position set_history];
      [destruct (positionHistory s), (timeHistory s); cbn in *|];
      rewrite ?length_app; cbn; lia.
  - intros now vo. cbv zeta. rewrite completePositionChange_unfold.
    cbv zeta. destruct (commitTarget _) as [[tp tn]|]; [|reflexivity].
    cbn [out_state]. unfold animateTo.
    repeat match goal with
      | |- context [if ?b then _ else _] => destruct b
      end; reflexivity.
  - reflexivity.
Qed.

(** C1, as the source has it.  On release, with [v] the measured velocity
    times 1.2 and a table that has an entry, [completePositionChange]
    returns the name of an entry of the table and animates to its value.
    That entry is the one nearest the released position, the first such
    entry in the order of the table, when [|v| <= 0.5].  When [|v| > 0.5] and the nearest entry has a neighbor in
    the order by position on the side of [sign(v)], the target is that
    neighbor exactly when the remaining distance [d] to it satisfies
    [d > 0] and ([d < 0.1] or [|v| > 0.5 * (1 + d*2)]), and the nearest
    entry otherwise; without such a neighbor it is the nearest entry. *)
Theorem commit_target (now : Q) (velocityOverride : option Q)
  (s : SheetPhysics) :
  snapPoints s <> [] ->
  NoDup (map fst (snapPoints s)) ->
  let v := gainedVelocity velocityOverride s in
  let p := position s in
  let sorted := sortedByPosition (snapPoints s) in
  let r := completePositionChange now velocityOverride s in
  Permutation sorted (snapPoints s)
  /\ StronglySorted (fun a b => snd a <= snd b) sorted
  /\ exists near target i,
      nearestEntry (snapPoints s) p near
      /\ firstLeast (fun e => Qabs (snd e - p)) (snapPoints s) near
      /\ nth_error sorted i = Some near
      /\ In target (snapPoints s)
      /\ out_result r = Normal (fst target)
      /\ out_state r
         = fst (animateTo now (snd target) (Some v)
                  (set_history [] [] (set_velocity v s)))
      /\ (Qabs v <= 0.5 -> target = near)
      /\ (0.5 < v -> forall nb,
            nth_error sorted (S i) = Some nb ->
            (flicks v (snd nb - p) -> target = nb)
            /\ (~ flicks v (snd nb - p) -> target = near))
      /\ (v < -0.5 -> forall j nb,
            i = S j -> nth_error sorted j = Some nb ->
            (flicks v (p - snd nb) -> target = nb)
            /\ (~ flicks v (p - snd nb) -> target = near))
      /\ (0.5 < v -> nth_error sorted (S i) = None -> target = near)
      /\ (v < -0.5 -> i = 0%nat -> target = near).
Proof.
  intros Hne Hnd. cbv zeta.
  destruct (sortedByPosition_ordered (snapPoints s)) as [Hperm Hsorted].
  split; [exact Hperm|]. split; [exact Hsorted|].
  rewrite completePositionChange_unfold. cbv zeta.
  set (v := gainedVelocity velocityOverride s).
  destruct (commitTarget_resolves (set_history [] [] (set_velocity v s))
              Hne Hnd)
    as (near & target & i & [H1 H1'] & H2 & H3 & H4 & H5).
  exists near, target, i. rewrite H4.
  cbn [out_result out_state fst snd].
  split; [exact H1|]. split; [exact H1'|].
  split; [exact H2|]. split; [exact H3|].
  split; [reflexivity|]. split; [reflexivity|]. exact H5.
Qed.

(** C1 as stated fails where the neighbor is not ahead.  Released at 0.5
    with measured velocity 1 ([v = 1.2], upward), the nearest entry is [a];
    its neighbor in the order by position is [b], at distance [d = 0],
    which is below 0.1; the target is [a] all the same. *)
Lemma commit_target_counterexample :
  let s := set_position 0.5 (new_SheetPhysics twinOptions) in
  let v := gainedVelocity (Some 1) s in
  sortedByPosition (snapPoints s) = [("a", 0.5); ("b", 0.5)]%string
  /\ sortedByDistance (position s) (snapPoints s)
     = [("a", 0.5); ("b", 0.5)]%string
  /\ 0.5 < v
  /\ 0.5 - position s < 0.1
  /\ out_result (completePositionChange 0 (Some 1) s) = Normal "a"%string
  /\ out_result (completePositionChange 0 (Some 1) s) <> Normal "b"%string.
Proof.
  cbv zeta.
  do 5 (split; [vm_compute; reflexivity|]).
  vm_compute. discriminate.
Qed.

Lemma commit_target_witness :
  let s := set_position 0.46 (new_SheetPhysics sheetOptions) in
  out_result (completePositionChange 0 (Some 0.25) s) = Normal "half"%string.
Proof.
  intro s.
  assert (Hne : snapPoints s <> []) by discriminate.
  assert (Hnd : NoDup (map fst (snapPoints s))).
  { repeat constructor; cbn; intuition discriminate. }
  destruct (commit_target 0 (Some 0.25) s Hne Hnd)
    as (_ & _ & near & target & i & Hnear & _ & _ & _ & Hres & _ & Hslow
         & _).
  rewrite Hres, Hslow by (vm_compute; discriminate).
  destruct Hnear as [Hin Hmin].
  specialize (Hmin ("half"%string, 0.5) (or_intror (or_intror (or_introl eq_refl)))).
  destruct Hin as [<-|[<-|[<-|[<-|[]]]]];
    solve [reflexivity | vm_compute in Hmin; now contradiction Hmin].
Defined.

(** ** The release scenario *)

(** C2 as stated fails: the release does not commit to [full], neither
    with the measured velocity passed by [onPointerUp] nor with 0.6 passed
    directly. *)
Lemma release_at_055_counterexample :
  calculateVelocity releasedAt055 == 0.6
  /\ out_result
       (completePositionChange 0 (Some (calculateVelocity releasedAt055))
          releasedAt055)
     <> Normal "full"%string
  /\ out_result (completePositionChange 0 (Some 0.6) releasedAt055)
     <> Normal "full"%string.
Proof.
  split; [vm_compute; reflexivity|].
  split; vm_compute; discriminate.
Qed.

(** C2, as the source has it.  With the table [{closed: 0, half: 0.5,
    full: 0.95}], a release at 0.55 with measured velocity +0.6 commits to
    [half], the nearest entry.  The gained velocity is 0.72; the neighbor
    above [half] is [full], at distance 0.40; the threshold
    [0.5 * (1 + 0.40 * 2)] is 0.9, which 0.72 does not exceed, and 0.40 is
    not below 0.1.  The animation targets 0.5. *)
Theorem release_at_055 :
  let s := releasedAt055 in
  let v := gainedVelocity (Some 0.6) s in
  let d := 0.95 - position s in
  let r := completePositionChange 0 (Some 0.6) s in
  v == 0.72
  /\ sortedByDistance (position s) (snapPoints s)
     = [("half", 0.5); ("full", 0.95); ("closed", 0)]%string
  /\ sortedByPosition (snapPoints s)
     = [("closed", 0); ("half", 0.5); ("full", 0.95)]%string
  /\ d == 0.40
  /\ 0.5 * (1 + d * 2) == 0.9
  /\ ~ 0.5 * (1 + d * 2) < Qabs v
  /\ ~ d < 0.1
  /\ out_result r = Normal "half"%string
  /\ targetPosition (out_state r) = 0.5
  /\ out_result (completePositionChange 0 None s) = Normal "half"%string.
Proof.
  cbv zeta.
  split; [vm_compute; reflexivity|].
  split; [vm_compute; reflexivity|].
  split; [vm_compute; reflexivity|].
  split; [vm_compute; reflexivity|].
  split; [vm_compute; reflexivity|].
  split; [vm_compute; discriminate|].
  split; [vm_compute; discriminate|].
  split; [vm_compute; reflexivity|].
  split; vm_compute; reflexivity.
Qed.

(** * The simulator over binary64 *)

(** ** Comparisons of binary64 numbers *)

Ltac spec_compare_cases :=
  cbn;
  repeat match goal with b : bool |- _ => destruct b end;
  intros; try discriminate; try reflexivity;
  try (match goal with H : _ \/ _ |- _ => destruct H end);
  try discriminate;
  change (PosDef.Pos.compare_cont Eq) with Pos.compare in *;
  repeat match goal with
    | H : Some _ = Some _ |- _ => apply (f_equal (fun o => match o with Some c => c | None => Eq end)) in H; cbv beta iota in H
    end;
  f_equal;
  repeat match goal with
    | H : context [(?a ?= ?b)%Z] |- _ => destruct (Z.compare_spec a b); try discriminate
    | |- context [(?a ?= ?b)%Z] => destruct (Z.compare_spec a b); try discriminate
    end;
  try lia; try reflexivity; subst;
  repeat match goal with
    | H : context [Pos.compare ?a ?b] |- _ => destruct (Pos.compare_spec a b); cbn in H; try discriminate
    | |- context [Pos.compare ?a ?b] => destruct (Pos.compare_spec a b); cbn; try discriminate
    end;
  try lia; try reflexivity.

Lemma SFcompare_lt_trans (x y z : spec_float) :
  SFcompare x y = Some Lt -> SFcompare y z = Some Lt ->
  SFcompare x z = Some Lt.
Proof.
  destruct x as [sx|sx| |sx mx ex], y as [sy|sy| |sy my ey],
    z as [sz|sz| |sz mz ez]; spec_compare_cases.
Qed.

Lemma SFcompare_lt_ge (x y a : spec_float) :
  SFcompare x y = Some Lt ->
  SFcompare a y = Some Eq \/ SFcompare a y = Some Gt ->
  SFcompare x a = Some Lt.
Proof.
  destruct x as [sx|sx| |sx mx ex], y as [sy|sy| |sy my ey],
    a as [sa|sa| |sa ma ea]; spec_compare_cases.
Qed.

Lemma float_ltb_trans (x y z : float) :
  (x <? y)%float = true -> (y <? z)%float = true -> (x <? z)%float = true.
Proof.
  rewrite !ltb_spec. unfold SFltb. intros H1 H2.
  destruct (SFcompare (Prim2SF x) (Prim2SF y)) as [[| |]|] eqn:E1;
    try discriminate.
  destruct (SFcompare (Prim2SF y) (Prim2SF z)) as [[| |]|] eqn:E2;
    try discriminate.
  now rewrite (SFcompare_lt_trans _ _ _ E1 E2).
Qed.

Lemma SFcompare_none (a y : spec_float) :
  SFcompare a y = None -> a = S754_nan \/ y = S754_nan.
Proof.
  destruct a, y; cbn; intro H; try discriminate H; auto.
Qed.

Lemma float_ltb_ge (x y a : float) :
  (x <? y)%float = true -> (a <? y)%float = false -> is_nan a = false ->
  (x <? a)%float = true.
Proof.
  unfold is_nan. rewrite !ltb_spec, FloatAxioms.eqb_spec.
  unfold SFltb, SFeqb. intros H1 H2 H3.
  destruct (SFcompare (Prim2SF x) (Prim2SF y)) as [[| |]|] eqn:E1;
    try discriminate.
  assert (E2 : SFcompare (Prim2SF a) (Prim2SF y) = Some Eq
               \/ SFcompare (Prim2SF a) (Prim2SF y) = Some Gt).
  { destruct (SFcompare (Prim2SF a) (Prim2SF y)) as [[| |]|] eqn:E;
      [now left | discriminate H2 | now right |].
    exfalso. destruct (SFcompare_none _ _ E) as [K|K]; rewrite K in *.
    - discriminate H3.
    - destruct (Prim2SF x); discriminate E1. }
  now rewrite (SFcompare_lt_ge _ _ _ E1 E2).
Qed.

(** A NaN is not within any distance of anything. *)
Lemma nan_is_far (x e : float) : (abs (nan - x) <? e)%float = false.
Proof.
  rewrite ltb_spec, abs_spec, sub_spec.
  change (Prim2SF nan) with S754_nan. reflexivity.
Qed.

Lemma nan_is_not_greater (e : float) : (e <? abs nan)%float = false.
Proof.
  rewrite ltb_spec, abs_spec. change (Prim2SF nan) with S754_nan.
  cbn. now destruct (Prim2SF e).
Qed.

(** ** The frame over binary64 *)

Lemma binary64_integrate_frame (timestamp : float)
  (s : Binary64.SheetPhysics) :
  let s1 := fst (Binary64.integrate timestamp s) in
  snd (Binary64.integrate timestamp s)
  = (Binary64.targetPosition s - Binary64.position s)%float
  /\ Binary64.targetPosition s1 = Binary64.targetPosition s
  /\ Binary64.snapPoints s1 = Binary64.snapPoints s
  /\ Binary64.animating s1 = Binary64.animating s
  /\ Binary64.onUpdate s1 = Binary64.onUpdate s
  /\ Binary64.onComplete s1 = Binary64.onComplete s
  /\ Binary64.mass s1 = Binary64.mass s
  /\ Binary64.stiffness s1 = Binary64.stiffness s
  /\ Binary64.damping s1 = Binary64.damping s
  /\ Binary64.lastFrameTime s1 = timestamp.
Proof.
  cbv zeta. unfold Binary64.integrate. cbv zeta.
  destruct (_ && _); repeat split; reflexivity.
Qed.

Lemma binary64_reduce_firstNearest (p : float) (rest before : list float)
  (acc : float) (mid : list float) :
  (forall v, In v (before ++ acc :: mid ++ rest) ->
     is_nan (Binary64.Math_abs (v - p)) = false) ->
  (forall b, In b before ->
     Binary64.ltb (Binary64.Math_abs (acc - p)) (Binary64.Math_abs (b - p))
     = true) ->
  (forall m, In m mid ->
     Binary64.ltb (Binary64.Math_abs (m - p)) (Binary64.Math_abs (acc - p))
     = false) ->
  Binary64.firstNearest p (before ++ acc :: mid ++ rest)
    (fold_left
       (fun prev curr =>
          if Binary64.ltb (Binary64.Math_abs (curr - p))
               (Binary64.Math_abs (prev - p))
          then curr else prev) rest acc).
Proof.
  revert before acc mid.
  induction rest as [|c rest IH]; intros before acc mid Hn Hb Hm;
    cbn [fold_left].
  - exists before, mid. rewrite app_nil_r. auto.
  - destruct (Binary64.ltb (Binary64.Math_abs (c - p))
                (Binary64.Math_abs (acc - p))) eqn:E.
    + replace (before ++ acc :: mid ++ c :: rest)
        with ((before ++ acc :: mid) ++ c :: [] ++ rest) in *
        by (rewrite <- app_assoc; reflexivity).
      apply IH.
      * exact Hn.
      * intros b Hin. apply in_app_or in Hin.
        destruct Hin as [Hin|[<-|Hin]].
        -- exact (float_ltb_trans _ _ _ E (Hb b Hin)).
        -- exact E.
        -- apply (float_ltb_ge _ _ _ E (Hm b Hin)).
           apply Hn. apply in_or_app. left. apply in_or_app. right.
           now right.
      * intros m [].
    + replace (before ++ acc :: mid ++ c :: rest)
        with (before ++ acc :: (mid ++ [c]) ++ rest) in *
        by (rewrite <- (app_assoc mid); reflexivity).
      apply IH; [exact Hn | exact Hb |].
      intros m Hin. apply in_app_or in Hin.
      destruct Hin as [Hin|[<-|[]]]; [now apply Hm | exact E].
Qed.

Lemma fold_champion_in {A : Type} (better : A -> A -> bool) (l : list A)
  (acc : A) :
  In (fold_left (fun prev curr => if better curr prev then curr else prev)
        l acc)
     (acc :: l).
Proof.
  revert acc. induction l as [|c l IH]; intro acc; cbn [fold_left].
  - now left.
  - destruct (better c acc).
    + right. apply IH.
    + destruct (IH acc) as [H|H]; [now left | right; now right].
Qed.

Lemma binary64_findNearestSnapPoint (p : float) (s : Binary64.SheetPhysics) :
  Binary64.snapPoints s <> [] ->
  exists n,
    Binary64.findNearestSnapPoint p s = Normal n
    /\ In n (map snd (Binary64.snapPoints s))
    /\ ((forall v, In v (map snd (Binary64.snapPoints s)) ->
           is_nan (Binary64.Math_abs (v - p)) = false) ->
        Binary64.firstNearest p (map snd (Binary64.snapPoints s)) n).
Proof.
  intro Hne. unfold Binary64.findNearestSnapPoint.
  destruct (Binary64.snapPoints s) as [|[k v0] rest]; [now contradiction Hne|].
  cbn [map snd Array_reduce]. eexists. split; [reflexivity|]. split.
  - apply (fold_champion_in
             (fun curr prev =>
                Binary64.ltb (Binary64.Math_abs (curr - p))
                  (Binary64.Math_abs (prev - p)))).
  - intro Hn.
    apply (binary64_reduce_firstNearest p (map snd rest) [] v0 []);
      [exact Hn | intros x [] | intros x []].
Qed.

Lemma binary64_animationFrame_continues (timestamp : float)
  (s : Binary64.SheetPhysics) :
  Binary64.settles timestamp s = false ->
  Binary64.animationFrame timestamp s
  = Binary64.mkOutcome (fst (Binary64.integrate timestamp s))
      (Binary64.notifyUpdate (fst (Binary64.integrate timestamp s))
       ++ [Binary64.RequestFrame])
      (Normal tt).
Proof.
  unfold Binary64.settles, Binary64.animationFrame. intro H.
  apply negb_false_iff in H.
  destruct (Binary64.integrate timestamp s) as [s1 d].
  cbn [fst snd] in H. now rewrite H.
Qed.

Lemma binary64_animationFrame_settles (timestamp : float)
  (s : Binary64.SheetPhysics) :
  Binary64.snapPoints s <> [] ->
  Binary64.settles timestamp s = true ->
  let s1 := fst (Binary64.integrate timestamp s) in
  exists nearest final,
    Binary64.findNearestSnapPoint (Binary64.position s1) s = Normal nearest
    /\ final
       = (if Binary64.ltb
               (Binary64.Math_abs (Binary64.position s1 - nearest)) 0.01
          then nearest else Binary64.targetPosition s)
    /\ Binary64.animationFrame timestamp s
       = Binary64.mkOutcome
           (Binary64.set_animating false
              (Binary64.set_velocity 0 (Binary64.set_position final s1)))
           (Binary64.notifyUpdate s1
            ++ (if Binary64.onUpdate s then [Binary64.Update final] else [])
            ++ (if Binary64.onComplete s then [Binary64.Complete] else []))
           (Normal tt).
Proof.
  intros Hne H. cbv zeta.
  destruct (binary64_integrate_frame timestamp s)
    as (_ & Ht & Hs & _ & Hu & Hc & _).
  unfold Binary64.settles in H. apply negb_true_iff in H.
  unfold Binary64.animationFrame.
  destruct (Binary64.integrate timestamp s) as [s1 d].
  cbn [fst snd] in *. rewrite H.
  destruct (binary64_findNearestSnapPoint (Binary64.position s1) s Hne)
    as (n & Hn & _).
  assert (Hn1 : Binary64.findNearestSnapPoint (Binary64.position s1) s1
                = Normal n).
  { unfold Binary64.findNearestSnapPoint in *. now rewrite Hs. }
  rewrite Hn1. exists n. eexists. split; [exact Hn|].
  split; [reflexivity|].
  unfold Binary64.notifyUpdate, Binary64.notifyComplete.
  rewrite <- Ht, <- Hu, <- Hc.
  destruct (Binary64.ltb _ 0.01); reflexivity.
Qed.

(** C3, as the source has it, over binary64.  A frame of a running
    animation goes on exactly when the updated [|velocity| > 0.01] or the
    displacement [|targetPosition - position|], measured before this frame
    moved [position], is [> 0.001], and ends the animation otherwise:
    when both are within their bounds, and also when they are NaN.  A
    frame that ends the animation sets [position] to the value
    [findNearestSnapPoint] returns for the integrated position when that
    position is strictly within 0.01 of it, and to [targetPosition]
    otherwise (from a NaN position, always), sets [velocity] to 0 and
    [animating] to false, and calls the completion callback.  The value
    [findNearestSnapPoint] returns is, when no distance is NaN, the first
    in the order of the table among the values at the least distance. *)
Theorem settle_step (timestamp : float) (s : Binary64.SheetPhysics) :
  Binary64.snapPoints s <> [] ->
  Binary64.animating s = true ->
  let s1 := fst (Binary64.integrate timestamp s) in
  let d := (Binary64.targetPosition s - Binary64.position s)%float in
  let r := Binary64.animationFrame timestamp s in
  let goesOn :=
    Binary64.gtb (Binary64.Math_abs (Binary64.velocity s1)) 0.01
    || Binary64.gtb (Binary64.Math_abs d) 0.001 in
  Binary64.animating (Binary64.out_state r) = goesOn
  /\ (goesOn = true ->
      Binary64.out_state r = s1
      /\ In Binary64.RequestFrame (Binary64.out_events r))
  /\ (goesOn = false ->
      exists nearest,
        Binary64.findNearestSnapPoint (Binary64.position s1) s
        = Normal nearest
        /\ In nearest (map snd (Binary64.snapPoints s))
        /\ ((forall v, In v (map snd (Binary64.snapPoints s)) ->
               is_nan (Binary64.Math_abs (v - Binary64.position s1)) = false)
            -> Binary64.firstNearest (Binary64.position s1)
                 (map snd (Binary64.snapPoints s)) nearest)
        /\ Binary64.position (Binary64.out_state r)
           = (if Binary64.ltb
                   (Binary64.Math_abs (Binary64.position s1 - nearest)) 0.01
              then nearest else Binary64.targetPosition s)
        /\ Binary64.velocity (Binary64.out_state r) = 0%float
        /\ Binary64.out_result r = Normal tt
        /\ ~ In Binary64.RequestFrame (Binary64.out_events r)
        /\ (Binary64.onComplete s = true ->
            In Binary64.Complete (Binary64.out_events r)))
  /\ (Binary64.velocity s1 = nan -> d = nan -> goesOn = false)
  /\ (goesOn = false -> Binary64.position s1 = nan ->
      Binary64.position (Binary64.out_state r) = Binary64.targetPosition s).
Proof.
  intros Hne Hanim. cbv zeta.
  destruct (binary64_integrate_frame timestamp s) as (Hd & _ & _ & Ha & _).
  cbv zeta in Ha.
  assert (Hk : Binary64.settles timestamp s
               = negb (Binary64.gtb
                         (Binary64.Math_abs
                            (Binary64.velocity
                               (fst (Binary64.integrate timestamp s)))) 0.01
                       || Binary64.gtb
                            (Binary64.Math_abs
                               (Binary64.targetPosition s
                                - Binary64.position s)) 0.001)).
  { unfold Binary64.settles, Binary64.keepsGoing. now rewrite Hd. }
  assert (Hsettled :
            Binary64.settles timestamp s = true ->
            exists nearest,
              Binary64.findNearestSnapPoint
                (Binary64.position (fst (Binary64.integrate timestamp s))) s
              = Normal nearest
              /\ In nearest (map snd (Binary64.snapPoints s))
              /\ ((forall v, In v (map snd (Binary64.snapPoints s)) ->
                     is_nan (Binary64.Math_abs
                               (v - Binary64.position
                                      (fst (Binary64.integrate timestamp s))))
                     = false)
                  -> Binary64.firstNearest
                       (Binary64.position
                          (fst (Binary64.integrate timestamp s)))
                       (map snd (Binary64.snapPoints s)) nearest)
              /\ Binary64.animationFrame timestamp s
                 = Binary64.mkOutcome
                     (Binary64.set_animating false
                        (Binary64.set_velocity 0
                           (Binary64.set_position
                              (if Binary64.ltb
                                    (Binary64.Math_abs
                                       (Binary64.position
                                          (fst (Binary64.integrate
                                                  timestamp s))
                                        - nearest)) 0.01
                               then nearest else Binary64.targetPosition s)
                              (fst (Binary64.integrate timestamp s)))))
                     (Binary64.notifyUpdate
                        (fst (Binary64.integrate timestamp s))
                      ++ (if Binary64.onUpdate s
                          then [Binary64.Update
                                  (if Binary64.ltb
                                        (Binary64.Math_abs
                                           (Binary64.position
                                              (fst (Binary64.integrate
                                                      timestamp s))
                                            - nearest)) 0.01
                                   then nearest
                                   else Binary64.targetPosition s)]
                          else [])
                      ++ (if Binary64.onComplete s
                          then [Binary64.Complete] else []))
                     (Normal tt)).
  { intro K.
    destruct (binary64_animationFrame_settles _ _ Hne K)
      as (n & final & Hn & Hf & Hframe).
    cbv zeta in Hn, Hf. subst final.
    destruct (binary64_findNearestSnapPoint
                (Binary64.position (fst (Binary64.integrate timestamp s)))
                s Hne) as (n' & Hn' & Hin & Hfirst).
    rewrite Hn in Hn'. injection Hn' as <-.
    exists n. auto. }
  destruct (Binary64.gtb _ 0.01 || Binary64.gtb _ 0.001) eqn:G;
    cbn [negb] in Hk.
  - rewrite (binary64_animationFrame_continues _ _ Hk).
    cbn [Binary64.out_state Binary64.out_events].
    split; [now rewrite Ha|]. split.
    + intros _. split; [reflexivity|]. apply in_or_app. right. now left.
    + split; [discriminate|]. split; [|discriminate].
      intros Hv Hdn. rewrite Hv, Hdn in G.
      unfold Binary64.gtb, Binary64.Math_abs in G.
      now rewrite !nan_is_not_greater in G.
  - destruct (Hsettled Hk) as (n & Hn & Hin & Hfirst & Hframe).
    rewrite Hframe.
    cbn [Binary64.out_state Binary64.out_events Binary64.out_result
         Binary64.animating Binary64.position Binary64.velocity
         Binary64.set_animating Binary64.set_velocity Binary64.set_position].
    split; [reflexivity|]. split; [discriminate|]. split.
    + intros _. exists n.
      split; [exact Hn|]. split; [exact Hin|]. split; [exact Hfirst|].
      split; [reflexivity|]. split; [reflexivity|]. split; [reflexivity|].
      split.
      * unfold Binary64.notifyUpdate. intro K. apply in_app_or in K.
        destruct K as [K|K]; [destruct (Binary64.onUpdate _) in K|].
        -- destruct K as [K|[]]; discriminate K.
        -- destruct K.
        -- apply in_app_or in K.
           destruct K as [K|K]; [destruct (Binary64.onUpdate s) in K
                                | destruct (Binary64.onComplete s) in K].
           ++ destruct K as [K|[]]; discriminate K.
           ++ destruct K.
           ++ destruct K as [K|[]]; discriminate K.
           ++ destruct K.
      * intros ->. apply in_or_app. right. apply in_or_app. right. now left.
    + split; [reflexivity|]. intros _ Hp. rewrite Hp.
      unfold Binary64.ltb, Binary64.Math_abs. now rewrite nan_is_far.
Qed.

Lemma settle_step_witness :
  let r := Binary64.animationFrame 64 Binary64.settling in
  Binary64.animating (Binary64.out_state r) = false
  /\ Binary64.position (Binary64.out_state r) = 0.502%float.
Proof.
  assert (Hne : Binary64.snapPoints Binary64.settling <> []) by discriminate.
  destruct (settle_step 64 Binary64.settling Hne eq_refl)
    as (H1 & _ & H3 & _).
  cbv zeta. split.
  - rewrite H1. vm_compute. reflexivity.
  - destruct H3 as (n & Hn & _ & _ & Hp & _); [vm_compute; reflexivity|].
    rewrite Hp. vm_compute in Hn. injection Hn as <-.
    vm_compute. reflexivity.
Defined.

(** C3 as stated fails, twice.  The frame 64 ms later ends the animation
    of [settling] although the distance that remains to the target after
    it exceeds 0.001; and although the position it settles from is within
    0.01 of the entry [half], the final position is not 0.5 but 0.502.
    And with the constructor's defaults and frames 100 ms apart the
    animation towards [half] diverges, overflows on the 22nd frame, is
    NaN on the 23rd, and ends on the 24th, on the target, with a velocity
    that is not [<= 0.01]. *)
Lemma settle_step_counterexample :
  let s1 := fst (Binary64.integrate 64 Binary64.settling) in
  let r := Binary64.animationFrame 64 Binary64.settling in
  let run := fun n =>
    Binary64.frames (Binary64.every 100 n 0) Binary64.opening in
  (Binary64.animating (Binary64.out_state r) = false
   /\ Binary64.gtb
        (Binary64.Math_abs
           (Binary64.targetPosition s1 - Binary64.position s1)) 0.001
      = true
   /\ In ("half"%string, 0.5%float) (Binary64.snapPoints Binary64.settling)
   /\ Binary64.ltb (Binary64.Math_abs (Binary64.position s1 - 0.5)) 0.01
      = true
   /\ Binary64.position (Binary64.out_state r) = 0.502%float
   /\ (Binary64.position (Binary64.out_state r) =? 0.5)%float = false)
  /\ (Binary64.animating (run 23%nat) = true
      /\ Binary64.velocity (run 23%nat) = nan
      /\ Binary64.position (run 23%nat) = nan
      /\ Binary64.velocity
           (fst (Binary64.integrate 2400 (run 23%nat))) = nan
      /\ (Binary64.Math_abs
            (Binary64.velocity
               (fst (Binary64.integrate 2400 (run 23%nat)))) <=? 0.01)%float
         = false
      /\ Binary64.animating (run 24%nat) = false
      /\ Binary64.position (run 24%nat) = 0.5%float).
Proof.
  cbv zeta. split.
  - split; [vm_compute; reflexivity|].
    split; [vm_compute; reflexivity|].
    split; [right; now left|].
    split; [vm_compute; reflexivity|].
    split; vm_compute; reflexivity.
  - repeat split; vm_compute; reflexivity.
Qed.

(** ** Runs of frames over binary64 *)








(** * Further properties of the simulator *)

(** ** The drag history is a window on the last samples *)

Lemma tl_skipn {A : Type} (k : nat) (l : list A) :
  tl (skipn k l) = skipn (S k) l.
Proof.
  revert l. induction k as [|k IH]; intros [|x l]; try reflexivity.
  cbn [skipn]. rewrite IH. now destruct l.
Qed.

Lemma lastn_snoc {A : Type} (n : nat) (l : list A) (x : A) :
  (if (n <? List.length (lastn n l ++ [x]))%nat
   then tl (lastn n l ++ [x]) else lastn n l ++ [x])
  = lastn n (l ++ [x]).
Proof.
  unfold lastn. rewrite !length_app, length_skipn. cbn [List.length].
  destruct (le_lt_dec n (List.length l)) as [Hfull|Hroom].
  - replace (n <? List.length l - (List.length l - n) + 1)%nat with true
      by (symmetry; apply Nat.ltb_lt; lia).
    replace (List.length l + 1 - n)%nat with (S (List.length l - n)) by lia.
    rewrite skipn_app. destruct n as [|n].
    + rewrite Nat.sub_0_r, skipn_all.
      replace (S (List.length l) - List.length l)%nat with 1%nat by lia.
      rewrite (skipn_all2 l) by lia. reflexivity.
    + replace (S (List.length l - S n) - List.length l)%nat with 0%nat
        by lia.
      rewrite <- tl_skipn. change (skipn 0 [x]) with [x].
      destruct (skipn (List.length l - S n) l) as [|y r] eqn:E;
        [|reflexivity].
      apply (f_equal (@List.length A)) in E.
      rewrite length_skipn in E. cbn in E. lia.
  - replace (n <? List.length l - (List.length l - n) + 1)%nat with false
      by (symmetry; apply Nat.ltb_ge; lia).
    replace (List.length l - n)%nat with 0%nat by lia.
    replace (List.length l + 1 - n)%nat with 0%nat by lia.
    reflexivity.
Qed.

Lemma dragAll_window (samples : list (Q * Q)) (s : SheetPhysics)
  (ps ts : list Q) :
  positionHistory s = lastn (maxHistoryLength s) ps ->
  timeHistory s = lastn (maxHistoryLength s) ts ->
  List.length ts = List.length ps ->
  positionHistory (dragAll samples s)
  = lastn (maxHistoryLength s) (ps ++ map snd samples)
  /\ timeHistory (dragAll samples s)
     = lastn (maxHistoryLength s) (ts ++ map fst samples)
  /\ maxHistoryLength (dragAll samples s) = maxHistoryLength s.
Proof.
  revert s ps ts.
  induction samples as [|[now p] samples IH]; intros s ps ts Hp Ht Hlen.
  - cbn [dragAll fold_left map]. now rewrite !app_nil_r.
  - cbn [dragAll fold_left map fst snd].
    set (s1 := fst (updatePositionFromDrag now p s)).
    fold (dragAll samples s1).
    assert (Hm : maxHistoryLength s1 = maxHistoryLength s).
    { subst s1. unfold updatePositionFromDrag.
      now destruct (_ <? _)%nat. }
    assert (Hlt : List.length (timeHistory s)
                  = List.length (positionHistory s)).
    { rewrite Hp, Ht. unfold lastn. rewrite !length_skipn. lia. }
    assert (Hp1 : positionHistory s1
                  = lastn (maxHistoryLength s) (ps ++ [p])).
    { rewrite <- lastn_snoc, <- Hp. subst s1.
      unfold updatePositionFromDrag. now destruct (_ <? _)%nat. }
    assert (Ht1 : timeHistory s1 = lastn (maxHistoryLength s) (ts ++ [now])).
    { rewrite <- lastn_snoc, <- Ht. subst s1.
      unfold updatePositionFromDrag.
      rewrite !length_app, Hlt. now destruct (_ <? _)%nat. }
    rewrite <- Hm in Hp1, Ht1.
    destruct (IH s1 (ps ++ [p]) (ts ++ [now]) Hp1 Ht1) as (H1 & H2 & H3).
    { rewrite !length_app. cbn. lia. }
    rewrite <- !app_assoc in H1, H2. cbn [app] in H1, H2.
    rewrite Hm in H1, H2, H3. auto.
Qed.

(** X1. After any sequence of drag samples on a simulator whose history
    was empty, the two histories hold the last [maxHistoryLength] samples,
    oldest first: older samples are evicted first, and the histories never
    grow beyond the capacity (8 on a constructed simulator). *)
Theorem drag_history_window (samples : list (Q * Q)) (s : SheetPhysics) :
  positionHistory s = [] ->
  timeHistory s = [] ->
  let s' := dragAll samples s in
  positionHistory s' = lastn (maxHistoryLength s) (map snd samples)
  /\ timeHistory s' = lastn (maxHistoryLength s) (map fst samples)
  /\ (List.length (positionHistory s') <= maxHistoryLength s)%nat
  /\ List.length (timeHistory s') = List.length (positionHistory s').
Proof.
  intros Hp Ht. cbv zeta.
  destruct (dragAll_window samples s [] []) as (H1 & H2 & _);
    [rewrite Hp; now destruct (maxHistoryLength s)
    |rewrite Ht; now destruct (maxHistoryLength s)
    |reflexivity|].
  cbn [app] in H1, H2. rewrite H1, H2. split; [reflexivity|].
  split; [reflexivity|].
  unfold lastn. rewrite !length_skipn, !length_map. lia.
Qed.

Lemma drag_history_window_witness :
  positionHistory
    (dragAll [(0, 0.01); (10, 0.02); (20, 0.03); (30, 0.04); (40, 0.05);
              (50, 0.06); (60, 0.07); (70, 0.08); (80, 0.09); (90, 0.10)]
       (new_SheetPhysics sheetOptions))
  = [0.03; 0.04; 0.05; 0.06; 0.07; 0.08; 0.09; 0.10].
Proof.
  destruct (drag_history_window
              [(0, 0.01); (10, 0.02); (20, 0.03); (30, 0.04); (40, 0.05);
               (50, 0.06); (60, 0.07); (70, 0.08); (80, 0.09); (90, 0.10)]
              (new_SheetPhysics sheetOptions) eq_refl eq_refl) as [H _].
  rewrite H. reflexivity.
Defined.

(** ** Ties go to the entry visited first *)

Lemma firstLeast_unique {A : Type} (key : A -> Q) (l : list A) (x y : A) :
  firstLeast key l x -> firstLeast key l y -> x = y.
Proof.
  intros (b1 & a1 & E1 & Hb1 & Ha1) (b2 & a2 & E2 & Hb2 & Ha2).
  rewrite E1 in E2. clear E1. revert b2 E2 Hb2.
  induction b1 as [|z b1 IH]; intros [|z2 b2] E2 Hb2; cbn [app] in E2.
  - now injection E2.
  - injection E2 as -> E2. exfalso.
    specialize (Hb2 z2 (or_introl eq_refl)).
    assert (Hy : In y a1) by (rewrite E2; apply in_elt).
    specialize (Ha1 y Hy). lra.
  - injection E2 as -> E2. exfalso.
    specialize (Hb1 y (or_introl eq_refl)).
    assert (Hx : In x a2) by (rewrite <- E2; apply in_elt).
    specialize (Ha2 x Hx). lra.
  - injection E2 as -> E2. apply (IH (fun b Hb => Hb1 b (or_intror Hb)) b2 E2).
    intros b Hb. apply Hb2. now right.
Qed.

Lemma reduce_firstLeast (p : Q) (rest : list Q) (before : list Q) (acc : Q)
  (mid : list Q) :
  (forall b, In b before -> Qabs (acc - p) < Qabs (b - p)) ->
  (forall m, In m mid -> Qabs (acc - p) <= Qabs (m - p)) ->
  firstLeast (fun v => Qabs (v - p)) (before ++ acc :: mid ++ rest)
    (fold_left
       (fun prev curr =>
          if ltb (Math_abs (curr - p)) (Math_abs (prev - p))
          then curr else prev) rest acc).
Proof.
  unfold Math_abs. revert before acc mid.
  induction rest as [|c rest IH]; intros before acc mid Hb Hm;
    cbn [fold_left].
  - exists before, mid. rewrite app_nil_r. auto.
  - destruct (ltb (Qabs (c - p)) (Qabs (acc - p))) eqn:E.
    + apply ltb_true in E.
      replace (before ++ acc :: mid ++ c :: rest)
        with ((before ++ acc :: mid) ++ c :: [] ++ rest)
        by (rewrite <- app_assoc; reflexivity).
      apply IH.
      * intros b Hin. apply in_app_or in Hin.
        destruct Hin as [Hin|[<-|Hin]].
        -- specialize (Hb b Hin). lra.
        -- exact E.
        -- specialize (Hm b Hin). lra.
      * intros m [].
    + apply ltb_false in E.
      replace (before ++ acc :: mid ++ c :: rest)
        with (before ++ acc :: (mid ++ [c]) ++ rest)
        by (rewrite <- (app_assoc mid); reflexivity).
      apply IH; [exact Hb|].
      intros m Hin. apply in_app_or in Hin.
      destruct Hin as [Hin|[<-|[]]]; [now apply Hm | exact E].
Qed.

Lemma findNearestSnapPoint_firstLeast (p : Q) (s : SheetPhysics) :
  snapPoints s <> [] ->
  exists n,
    findNearestSnapPoint p s = Normal n
    /\ firstLeast (fun v => Qabs (v - p)) (map snd (snapPoints s)) n.
Proof.
  intro Hne. unfold findNearestSnapPoint, Object_values.
  destruct (snapPoints s) as [|[k v0] rest]; [now contradiction Hne|].
  cbn [map snd Array_reduce]. eexists. split; [reflexivity|].
  apply (reduce_firstLeast p (map snd rest) [] v0 []); intros x [].
Qed.

(** X2. On a table with an entry [findNearestSnapPoint] returns the first
    value, in the table's iteration order, among those at the least
    distance: every earlier value is strictly farther from the position,
    no later value is closer.  For a position that is a snap value it
    returns that value. *)
Theorem findNearestSnapPoint_first (p : Q) (s : SheetPhysics) :
  snapPoints s <> [] ->
  exists n,
    findNearestSnapPoint p s = Normal n
    /\ firstLeast (fun v => Qabs (v - p)) (map snd (snapPoints s)) n
    /\ (forall e, In e (snapPoints s) -> snd e == p -> n == p).
Proof.
  intro Hne.
  destruct (findNearestSnapPoint_firstLeast p s Hne) as (n & Hn & Hfirst).
  exists n. split; [exact Hn|]. split; [exact Hfirst|].
  intros e He Hp.
  destruct Hfirst as (b & a & E & Hb & Ha).
  assert (Hin : In (snd e) (b ++ n :: a))
    by (rewrite <- E; now apply in_map).
  assert (Hzero : Qabs (snd e - p) == 0).
  { rewrite Hp. setoid_replace (p - p) with 0 by ring. reflexivity. }
  assert (Hle : Qabs (n - p) <= 0).
  { apply in_app_or in Hin. destruct Hin as [Hin|[Hin|Hin]].
    - specialize (Hb _ Hin). cbv beta in Hb. lra.
    - rewrite Hin. lra.
    - specialize (Ha _ Hin). cbv beta in Ha. lra. }
  apply Qabs_Qle_condition in Hle. lra.
Qed.

Lemma findNearestSnapPoint_first_witness :
  findNearestSnapPoint 0.501
    (new_SheetPhysics
       (mkOptions None None None None
          (Some [("low", 0.5); ("high", 0.502); ("twin", 0.5)]%string)
          None None None))
  = Normal 0.5.
Proof.
  set (s := new_SheetPhysics _).
  destruct (findNearestSnapPoint_first 0.501 s) as (n & -> & Hn & _);
    [discriminate|].
  f_equal. apply (firstLeast_unique _ _ _ _ Hn).
  exists [], [0.502; 0.5]. split; [reflexivity|].
  split; [intros b []|].
  intros a [<-|[<-|[]]]; vm_compute; discriminate.
Defined.

(** The head of an array sorted by a key is the first element of the
    array with the least key: the sort is stable. *)

(** Below the overshoot speed [animateTo] takes the target as given. *)
Lemma animateTo_slow (now t v : Q) (s : SheetPhysics) :
  Qabs v <= 2 ->
  targetPosition (fst (animateTo now t (Some v) s)) = t
  /\ velocity (fst (animateTo now t (Some v) s)) = v.
Proof.
  intro H. unfold animateTo, Math_abs.
  cbn [velocity set_velocity set_targetPosition allowOvershoot].
  apply gtb_false in H. rewrite H, andb_false_r.
  destruct (animating _); split; reflexivity.
Qed.

Lemma slow_release_nearest (now : Q) (velocityOverride : option Q)
  (s : SheetPhysics) :
  snapPoints s <> [] ->
  Qabs (gainedVelocity velocityOverride s) <= 0.5 ->
  let r := completePositionChange now velocityOverride s in
  exists name v,
    out_result r = Normal name
    /\ In (name, v) (snapPoints s)
    /\ findNearestSnapPoint (position s) s = Normal v
    /\ targetPosition (out_state r) = v
    /\ velocity (out_state r) = gainedVelocity velocityOverride s.
Proof.
  intros Hne Hslow. cbv zeta.
  rewrite completePositionChange_unfold. cbv zeta.
  set (g := gainedVelocity velocityOverride s) in *.
  destruct (sortedByDistance_head (position s) (snapPoints s) Hne)
    as ([cn cv] & rest & Hhead & Hnear).
  assert (Hc : commitTarget (set_history [] [] (set_velocity g s))
               = Normal (cv, cn)).
  { unfold commitTarget. cbv zeta.
    change (Array_sort
              (fun a b =>
                 Math_abs (snd a - position (set_history [] [] (set_velocity g s)))
                 - Math_abs (snd b - position (set_history [] [] (set_velocity g s))))
              (Object_entries
                 (snapPoints (set_history [] [] (set_velocity g s)))))
      with (sortedByDistance (position s) (snapPoints s)).
    rewrite Hhead. change (index ((cn, cv) :: rest) 0) with (Some (cn, cv)).
    cbv iota beta.
    replace (gtb (Math_abs (velocity (set_history [] [] (set_velocity g s))))
               0.5) with false; [reflexivity|].
    symmetry. apply gtb_false. exact Hslow. }
  rewrite Hc. cbn [out_result out_state].
  exists cn, cv. split; [reflexivity|]. split; [apply Hnear|].
  split.
  - destruct (findNearestSnapPoint_firstLeast (position s) s Hne)
      as (n & -> & Hn).
    f_equal.
    apply (firstLeast_unique _ _ _ _ Hn).
    apply (Array_sort_head_first (fun e => Math_abs (snd e - position s)))
      in Hhead.
    destruct Hhead as (b & a & E & Hb & Ha).
    exists (map snd b), (map snd a). unfold Object_entries in E.
    rewrite E, map_app. split; [reflexivity|]. split.
    + intros x Hx. apply in_map_iff in Hx. destruct Hx as (e & <- & He).
      apply (Hb e He).
    + intros x Hx. apply in_map_iff in Hx. destruct Hx as (e & <- & He).
      apply (Ha e He).
  - change (velocity (set_history [] [] (set_velocity g s))) with g.
    apply animateTo_slow. lra.
Qed.

(** X3. A release whose gained velocity is at most 0.5 in magnitude (a
    pointer cancel, which passes 0, in particular) animates to exactly the
    value [findNearestSnapPoint] returns for the released position, and
    without overshoot: the sort by distance of the release and the scan
    of the settle step break ties the same way. *)
Theorem slow_release_targets_nearest (now : Q) (velocityOverride : option Q)
  (s : SheetPhysics) :
  snapPoints s <> [] ->
  Qabs (gainedVelocity velocityOverride s) <= 0.5 ->
  let r := completePositionChange now velocityOverride s in
  exists name v,
    out_result r = Normal name
    /\ In (name, v) (snapPoints s)
    /\ findNearestSnapPoint (position s) s = Normal v
    /\ targetPosition (out_state r) = v
    /\ velocity (out_state r) = gainedVelocity velocityOverride s.
Proof.
  intros Hne Hslow. now apply slow_release_nearest.
Qed.

Lemma slow_release_targets_nearest_witness :
  let s := set_position 0.3 (new_SheetPhysics sheetOptions) in
  targetPosition (out_state (completePositionChange 0 (Some 0) s)) = 0.15.
Proof.
  intro s.
  assert (Hne : snapPoints s <> []) by discriminate.
  destruct (slow_release_targets_nearest 0 (Some 0) s Hne)
    as (name & v & _ & _ & Hv & Ht & _); [vm_compute; discriminate|].
  rewrite Ht. vm_compute in Hv. now injection Hv.
Defined.

(** ** The direction of the velocity estimate *)

Lemma pairWeight_pos (n i : nat) :
  (1 <= i)%nat -> (2 <= n)%nat -> 0 < pairWeight n i.
Proof.
  intros Hi Hn. unfold pairWeight.
  set (x := inject_Z (Z.of_nat i) / inject_Z (Z.of_nat (n - 1))).
  assert (Hx : 0 < x).
  { unfold x. apply Qlt_shift_div_l.
    - unfold Qlt. cbn. lia.
    - rewrite Qmult_0_l. unfold Qlt. cbn. lia. }
  change (x ^ 2) with (x * x). nra.
Qed.

Lemma validPairs_spec (ps ts : list Q) (i : nat) :
  In i (validPairs ps ts) <->
  (1 <= i < List.length ps)%nat /\ 0 < timeDelta ts i.
Proof.
  unfold validPairs. rewrite filter_In, in_seq, gtb_true.
  split; intros [H1 H2]; (split; [lia | exact H2]).
Qed.

Lemma weighted_sum_sign (vel wt : nat -> Q) (l : list nat) :
  (forall i, In i l -> 0 < wt i) ->
  ((forall i, In i l -> 0 <= vel i) ->
   0 <= Qsum (map (fun i => vel i * wt i) l))
  /\ ((forall i, In i l -> vel i <= 0) ->
      Qsum (map (fun i => vel i * wt i) l) <= 0).
Proof.
  induction l as [|i l IH]; intro Hw; cbn [map Qsum fold_right].
  - split; intros _; lra.
  - fold (Qsum (map (fun i => vel i * wt i) l)).
    pose proof (Hw i (or_introl eq_refl)) as Hi.
    destruct IH as [I1 I2]; [intros j Hj; apply Hw; now right|].
    split; intro H.
    + pose proof (H i (or_introl eq_refl)).
      assert (0 <= Qsum (map (fun i => vel i * wt i) l))
        by (apply I1; intros j Hj; apply H; now right).
      nra.
    + pose proof (H i (or_introl eq_refl)).
      assert (Qsum (map (fun i => vel i * wt i) l) <= 0)
        by (apply I2; intros j Hj; apply H; now right).
      nra.
Qed.

Lemma pairVelocity_sign (ps ts : list Q) (i : nat) :
  0 < timeDelta ts i ->
  (nth (i - 1) ps 0 <= nth i ps 0 -> 0 <= pairVelocity ps ts i)
  /\ (nth i ps 0 <= nth (i - 1) ps 0 -> pairVelocity ps ts i <= 0).
Proof.
  intro Ht. unfold pairVelocity. split; intro H.
  - apply Qle_shift_div_l; [exact Ht | lra].
  - apply Qle_shift_div_r; [exact Ht | lra].
Qed.

(** X4. The velocity estimate never points against the drag: when no
    pair of adjacent samples with a positive time difference moves the
    sheet down, the estimate is not negative, and when none moves it up,
    the estimate is not positive. *)
Theorem calculateVelocity_keeps_direction (s : SheetPhysics) :
  let ps := positionHistory s in
  let ts := timeHistory s in
  List.length ts = List.length ps ->
  ((forall i, In i (validPairs ps ts) -> nth (i - 1) ps 0 <= nth i ps 0) ->
   0 <= calculateVelocity s)
  /\ ((forall i, In i (validPairs ps ts) -> nth i ps 0 <= nth (i - 1) ps 0) ->
      calculateVelocity s <= 0).
Proof.
  cbv zeta. intro Hlen.
  set (ps := positionHistory s) in *. set (ts := timeHistory s) in *.
  destruct (calculateVelocity_cases s Hlen) as [Hmany Hfew].
  fold ps ts in Hmany, Hfew.
  destruct (Nat.lt_ge_cases (List.length ps) 2) as [Hn|Hn].
  { rewrite (Hfew Hn). split; intros _; lra. }
  destruct (Hmany Hn) as [Havg Hzero].
  assert (Hw : forall i, In i (validPairs ps ts) ->
                         0 < pairWeight (List.length ps) i).
  { intros i Hi. apply validPairs_spec in Hi. apply pairWeight_pos; lia. }
  assert (Htot : 0 <= totalWeight ps ts).
  { unfold totalWeight. apply Qsum_nonneg. apply Forall_forall.
    intros x Hx. apply in_map_iff in Hx. destruct Hx as (i & <- & Hi).
    apply Qlt_le_weak. now apply Hw. }
  destruct (Qlt_le_dec 0 (totalWeight ps ts)) as [Hpos|Hnone].
  - rewrite (Havg Hpos). unfold weightedAverage.
    destruct (weighted_sum_sign (pairVelocity ps ts)
                (pairWeight (List.length ps)) (validPairs ps ts) Hw)
      as [S1 S2].
    split; intro H.
    + apply Qle_shift_div_l; [exact Hpos|].
      assert (0 <= Qsum (map (fun i => pairVelocity ps ts i
                                       * pairWeight (List.length ps) i)
                           (validPairs ps ts))).
      { apply S1. intros i Hi. apply pairVelocity_sign; [|now apply H].
        now apply validPairs_spec in Hi. }
      lra.
    + apply Qle_shift_div_r; [exact Hpos|].
      assert (Qsum (map (fun i => pairVelocity ps ts i
                                  * pairWeight (List.length ps) i)
                      (validPairs ps ts)) <= 0).
      { apply S2. intros i Hi. apply pairVelocity_sign; [|now apply H].
        now apply validPairs_spec in Hi. }
      lra.
  - assert (Hz : totalWeight ps ts == 0) by lra.
    rewrite (Hzero Hz). split; intros _; lra.
Qed.

Lemma calculateVelocity_keeps_direction_witness :
  0 <= calculateVelocity threeSamples.
Proof.
  destruct (calculateVelocity_keeps_direction threeSamples) as [H _].
  - reflexivity.
  - apply H. intros i Hi. vm_compute in Hi.
    destruct Hi as [<-|[<-|[]]]; vm_compute; discriminate.
Defined.

(** X5. When time does not advance between any two adjacent samples (all
    pointer events carry the same timestamp, say), the estimate is 0: such
    pairs are skipped, nothing is divided by a zero time difference. *)
Theorem calculateVelocity_stalled (s : SheetPhysics) :
  let ps := positionHistory s in
  let ts := timeHistory s in
  List.length ts = List.length ps ->
  (forall i, (1 <= i < List.length ps)%nat ->
             nth i ts 0 <= nth (i - 1) ts 0) ->
  calculateVelocity s = 0.
Proof.
  cbv zeta. intros Hlen Hstall.
  destruct (calculateVelocity_cases s Hlen) as [Hmany Hfew].
  destruct (le_lt_dec 2 (List.length (positionHistory s))) as [Hn|Hn];
    [|now apply Hfew].
  apply (Hmany Hn).
  assert (E : validPairs (positionHistory s) (timeHistory s) = []).
  { destruct (validPairs _ _) as [|i l] eqn:E; [reflexivity|].
    assert (Hi : In i (validPairs (positionHistory s) (timeHistory s)))
      by (rewrite E; now left).
    apply validPairs_spec in Hi. destruct Hi as [Hi Hpos].
    specialize (Hstall i Hi). unfold timeDelta in Hpos.
    assert (Hneg : (nth i (timeHistory s) 0
                    - nth (i - 1) (timeHistory s) 0) / 1000 <= 0).
    { apply Qle_shift_div_r; lra. }
    lra. }
  unfold totalWeight. rewrite E. reflexivity.
Qed.

Lemma calculateVelocity_stalled_witness :
  calculateVelocity
    (set_history [0.1; 0.2; 0.4] [50; 50; 50] (new_SheetPhysics sheetOptions))
  = 0.
Proof.
  apply calculateVelocity_stalled; [reflexivity|].
  intros i Hi. cbn in Hi.
  assert (C : i = 1%nat \/ i = 2%nat) by lia.
  destruct C as [-> | ->]; vm_compute; discriminate.
Defined.

(** ** A release starts the next drag afresh *)

(** X6. [completePositionChange] empties both histories, also when it
    throws on an empty table: right after a release, and again after the
    first sample of the next drag, [calculateVelocity] is 0. *)
Theorem release_clears_history (now : Q) (velocityOverride : option Q)
  (s : SheetPhysics) :
  let s' := out_state (completePositionChange now velocityOverride s) in
  positionHistory s' = []
  /\ timeHistory s' = []
  /\ calculateVelocity s' = 0
  /\ forall now' p,
       calculateVelocity (fst (updatePositionFromDrag now' p s')) = 0.
Proof.
  cbv zeta. rewrite completePositionChange_unfold. cbv zeta.
  set (s0 := set_history [] [] _).
  assert (H : positionHistory
                (out_state
                   match commitTarget s0 with
                   | Normal (tp, tn) =>
                       mkOutcome (fst (animateTo now tp (Some (velocity s0)) s0))
                         (snd (animateTo now tp (Some (velocity s0)) s0))
                         (Normal tn)
                   | Throw e => mkOutcome s0 [] (Throw e)
                   end) = []
              /\ timeHistory
                   (out_state
                      match commitTarget s0 with
                      | Normal (tp, tn) =>
                          mkOutcome
                            (fst (animateTo now tp (Some (velocity s0)) s0))
                            (snd (animateTo now tp (Some (velocity s0)) s0))
                            (Normal tn)
                      | Throw e => mkOutcome s0 [] (Throw e)
                      end) = []).
  { destruct (commitTarget s0) as [[tp tn]|]; cbn [out_state];
      [|split; reflexivity].
    unfold animateTo.
    repeat match goal with
      | |- context [if ?b then _ else _] => destruct b
      end; split; reflexivity. }
  destruct H as [Hp Ht]. split; [exact Hp|]. split; [exact Ht|].
  split.
  - unfold calculateVelocity. now rewrite Hp.
  - intros now' p. unfold calculateVelocity, updatePositionFromDrag.
    rewrite Hp, Ht. cbn [app List.length].
    destruct (_ <? 1)%nat; reflexivity.
Qed.

(** ** One frame *)

Lemma requests_app (a b : list Event) :
  requests (a ++ b) = (requests a + requests b)%nat.
Proof. unfold requests. now rewrite filter_app, length_app. Qed.

Lemma requests_notifyUpdate (s : SheetPhysics) :
  requests (notifyUpdate s) = 0%nat.
Proof. unfold notifyUpdate. now destruct (onUpdate s). Qed.

Lemma animateTo_requests (now t : Q) (v0 : option Q) (s : SheetPhysics) :
  (pendingFrames s + requests (snd (animateTo now t v0 s)))%nat
  = pendingFrames (fst (animateTo now t v0 s)).
Proof.
  unfold pendingFrames.
  assert (H : animating
                match v0 with Some v => set_velocity v s | None => s end
              = animating s) by (destruct v0; reflexivity).
  unfold animateTo.
  match goal with
  | |- context [if animating ?x then (?x, []) else _] =>
      assert (Ha : animating x = animating s)
  end.
  { repeat match goal with
      | |- context [if ?b then _ else _] => destruct b
      end; cbn [animating set_targetPosition]; apply H. }
  rewrite Ha. destruct (animating s) eqn:E.
  - cbn [fst snd]. now rewrite Ha.
  - reflexivity.
Qed.

(** X8. The simulator never runs two frame loops: every method requests
    exactly the frames that keep one frame pending while [animating] and
    none otherwise.  [animateTo] and a release request a frame only when
    the simulator was not animating, a drag sample requests none, and a
    frame of a running animation requests one frame when it goes on and
    none when it settles. *)
Theorem one_frame_loop (s : SheetPhysics) :
  snapPoints s <> [] ->
  (forall now t v0,
      (pendingFrames s + requests (snd (animateTo now t v0 s)))%nat
      = pendingFrames (fst (animateTo now t v0 s)))
  /\ (forall now vo,
        (pendingFrames s
         + requests (out_events (completePositionChange now vo s)))%nat
        = pendingFrames (out_state (completePositionChange now vo s)))
  /\ (forall now p,
        requests (snd (updatePositionFromDrag now p s)) = 0%nat
        /\ pendingFrames (fst (updatePositionFromDrag now p s))
           = pendingFrames s)
  /\ (forall timestamp,
        animating s = true ->
        requests (out_events (animationFrame timestamp s))
        = pendingFrames (out_state (animationFrame timestamp s))).
Proof.
  intro Hne. split; [|split; [|split]].
  - intros. apply animateTo_requests.
  - intros now vo. rewrite completePositionChange_unfold. cbv zeta.
    set (s0 := set_history [] [] _).
    destruct (commitTarget_returns s0) as ([tp tn] & ->);
      [destruct vo; exact Hne|].
    cbn [out_events out_state].
    change (pendingFrames s) with (pendingFrames s0).
    apply animateTo_requests.
  - intros now p. unfold updatePositionFromDrag, pendingFrames.
    destruct (_ <? _)%nat; cbn [fst snd animating set_position set_history];
      (split; [apply requests_notifyUpdate | reflexivity]).
  - intros timestamp Hanim.
    destruct (integrate_frame timestamp s) as (_ & _ & _ & Ha & _).
    cbv zeta in Ha.
    destruct (keepsGoing (fst (integrate timestamp s))
                (snd (integrate timestamp s))) eqn:K.
    + rewrite (animationFrame_continues _ _ K).
      cbn [out_events out_state]. unfold pendingFrames.
      rewrite requests_app, requests_notifyUpdate, Ha, Hanim. reflexivity.
    + destruct (animationFrame_settles _ _ Hne K) as (n & f & _ & _ & ->).
      cbn [out_events out_state]. unfold pendingFrames.
      cbn [animating set_animating].
      rewrite !requests_app, requests_notifyUpdate.
      destruct (onUpdate s), (onComplete s); reflexivity.
Qed.

Lemma one_frame_loop_witness :
  requests (snd (animateTo 0 0.5 None (new_SheetPhysics sheetOptions)))
  = 1%nat
  /\ requests (snd (animateTo 5 0.95 None heavyOpening)) = 0%nat.
Proof.
  split.
  - destruct (one_frame_loop (new_SheetPhysics sheetOptions)) as [H _];
      [discriminate|].
    specialize (H 0 0.5 None). unfold pendingFrames in H.
    rewrite animateTo_animating in H. exact H.
  - destruct (one_frame_loop heavyOpening) as [H _]; [discriminate|].
    specialize (H 5 0.95 None). unfold pendingFrames in H.
    rewrite animateTo_animating in H.
    change (animating heavyOpening) with true in H. cbv iota in H. lia.
Defined.

(** * Further properties of the controller *)

(** ** Pointers *)

(** X9. While a pointer drags the sheet, the events of every other
    pointer (down, move, up or cancel, in any number and order) change
    nothing in the controller or the simulator and notify nobody. *)
Theorem foreign_pointers_are_inert (actions : list PointerAction)
  (c : SheetController) (pid : Z) :
  dragging c = true ->
  pointerId c = Some pid ->
  (forall a, In a actions -> pointerOf a <> pid) ->
  handlePointers actions c = (c, []).
Proof.
  intros Hd Hp. induction actions as [|a actions IH]; intro Hfor;
    [reflexivity|].
  assert (Ha : handlePointer a c = (c, [], Normal tt)).
  { assert (Hne : pointerOf a <> pid) by (apply Hfor; now left).
    assert (Hcap : forall e, ev_pointerId e <> pid -> capturedBy e c = false).
    { intros e He. unfold capturedBy. rewrite Hd, Hp. cbn [andb].
      now apply Z.eqb_neq. }
    destruct a as [e|now e|now e|now e]; cbn [handlePointer pointerOf] in *.
    - unfold onPointerDown. rewrite Hd.
      now destruct (negb _).
    - unfold onPointerMove. now rewrite (Hcap e Hne).
    - unfold onPointerUp, endDrag. now rewrite (Hcap e Hne).
    - unfold onPointerCancel, endDrag. now rewrite (Hcap e Hne). }
  cbn [handlePointers]. rewrite Ha, IH; [reflexivity|].
  intros b Hb. apply Hfor. now right.
Qed.

Lemma foreign_pointers_are_inert_witness :
  handlePointers
    [Down (mkPointerEvent 300 2 true 800);
     Move 20 (mkPointerEvent 100 2 true 800);
     Up 30 (mkPointerEvent 100 2 true 800)]
    draggedSheet
  = (draggedSheet, []).
Proof.
  apply (foreign_pointers_are_inert _ _ 1); [reflexivity | reflexivity |].
  intros a [<-|[<-|[<-|[]]]]; discriminate.
Defined.

Lemma updateSheetPosition_drag (p : Q) (c : SheetController) :
  let c' := fst (updateSheetPosition p c) in
  startY c' = startY c /\ startPosition c' = startPosition c
  /\ dragging c' = dragging c /\ pointerId c' = pointerId c
  /\ viewportHeight c' = viewportHeight c.
Proof.
  cbv zeta. unfold updateSheetPosition.
  destruct (getPositionName p (physics c)) as [nm|]; [|repeat split].
  destruct (truthy (Some nm)); cbn [andb]; [destruct (negb _)|];
    repeat split.
Qed.

Lemma deliver_drag (ev : list Event) (c : SheetController) :
  let c' := fst (deliver ev c) in
  startY c' = startY c /\ startPosition c' = startPosition c
  /\ dragging c' = dragging c /\ pointerId c' = pointerId c
  /\ viewportHeight c' = viewportHeight c.
Proof.
  cbv zeta. revert c.
  induction ev as [|[q| |] ev IH]; intro c; cbn [deliver].
  - repeat split.
  - destruct (updateSheetPosition_drag q c) as (H1 & H2 & H3 & H4 & H5).
    cbv zeta in *.
    destruct (updateSheetPosition q c) as [c1 n1].
    specialize (IH c1). destruct (deliver ev c1) as [c2 n2].
    cbn [fst] in *. destruct IH as (I1 & I2 & I3 & I4 & I5).
    repeat split; congruence.
  - specialize (IH c). destruct (deliver ev c) as [c2 n2]. exact IH.
  - apply IH.
Qed.

(** X10. During a drag the sheet follows the pointer, not the path the
    pointer took: after a captured move, the next captured move puts the
    sheet where it would have put it without the first one, that is at
    the resisted value of
    [startPosition - (clientY - startY) / viewport height]. *)
Theorem drag_follows_pointer (n1 n2 : Q) (e1 e2 : PointerEvent)
  (c : SheetController) :
  capturedBy e1 c = true ->
  capturedBy e2 c = true ->
  let c1 := fst (onPointerMove n1 e1 c) in
  position (physics (fst (onPointerMove n2 e2 c1)))
  = applyResistance
      (startPosition c - (clientY e2 - startY c) / windowHeight e2)
  /\ position (physics (fst (onPointerMove n2 e2 c1)))
     = position (physics (fst (onPointerMove n2 e2 c))).
Proof.
  intros H1 H2. cbv zeta.
  assert (Hkeep : startY (fst (onPointerMove n1 e1 c)) = startY c
                  /\ startPosition (fst (onPointerMove n1 e1 c))
                     = startPosition c
                  /\ dragging (fst (onPointerMove n1 e1 c)) = dragging c
                  /\ pointerId (fst (onPointerMove n1 e1 c)) = pointerId c).
  { unfold onPointerMove. rewrite H1. cbn [negb].
    destruct (updatePositionFromDrag _ _ _) as [p ev].
    destruct (deliver_drag ev (with_physics p (with_currentY (clientY e1) c)))
      as (D1 & D2 & D3 & D4 & _).
    cbv zeta in *. repeat split; assumption. }
  destruct Hkeep as (K1 & K2 & K3 & K4).
  assert (Hcap : capturedBy e2 (fst (onPointerMove n1 e1 c)) = true).
  { unfold capturedBy in *. now rewrite K3, K4. }
  rewrite (onPointerMove_position n2 e2 _ Hcap),
    (onPointerMove_position n2 e2 c H2).
  unfold rawDragPosition. rewrite K1, K2. split; reflexivity.
Qed.

Lemma drag_follows_pointer_witness :
  position
    (physics
       (fst (onPointerMove 32 (pointerAt 100)
               (fst (onPointerMove 16 (pointerAt 1300)
                       (fst (onPointerDown (pointerAt 500) sheet)))))))
  == 0.5.
Proof.
  destruct (drag_follows_pointer 16 32 (pointerAt 1300) (pointerAt 100)
              (fst (onPointerDown (pointerAt 500) sheet)) eq_refl eq_refl)
    as [H _].
  rewrite H. vm_compute. reflexivity.
Defined.

Lemma animateTo_events (now t : Q) (v0 : option Q) (s : SheetPhysics) :
  snd (animateTo now t v0 s) = [] \/ snd (animateTo now t v0 s) = [RequestFrame].
Proof.
  unfold animateTo.
  match goal with
  | |- context [if animating ?x then (?x, []) else _] =>
      destruct (animating x)
  end; [left | right]; reflexivity.
Qed.

(** The end of a captured drag, unfolded: the drag flags fall, the
    simulator resolves the release, and the drag end is notified unless
    the resolution threw. *)
Lemma endDrag_captured (now : Q) (measured : bool) (e : PointerEvent)
  (c : SheetController) :
  capturedBy e c = true ->
  let c0 := with_drag (startY c) (currentY c) (startPosition c) false
              (pointerId c) c in
  let r := completePositionChange now
             (Some (if measured then calculateVelocity (physics c) else 0))
             (physics c) in
  endDrag now measured e c
  = match out_result r with
    | Throw err => (with_physics (out_state r) c0, [], Throw err)
    | Normal target =>
        (with_physics (out_state r) c0,
         [DragEnd (if measured then Some target else None)], Normal tt)
    end.
Proof.
  intro Hcap. cbv zeta. unfold endDrag. rewrite Hcap. cbn [negb].
  cbn [physics with_drag].
  set (r := completePositionChange _ _ _).
  assert (Hev : out_events r = [] \/ out_events r = [RequestFrame]).
  { subst r. rewrite completePositionChange_unfold. cbv zeta.
    destruct (commitTarget _) as [[tp tn]|]; cbn [out_events];
      [apply animateTo_events | now left]. }
  destruct Hev as [-> | ->]; cbn [deliver];
    destruct (out_result r); reflexivity.
Qed.

(** X11. A pointer cancel during a drag snaps back: on a table with an
    entry it starts an animation at velocity 0 towards exactly the value
    [findNearestSnapPoint] gives for the position of the sheet, lowers the
    drag flags, and notifies one drag end, without a target name. *)
Theorem cancel_snaps_back (now : Q) (e : PointerEvent) (c : SheetController) :
  capturedBy e c = true ->
  snapPoints (physics c) <> [] ->
  exists c' v,
    onPointerCancel now e c = (c', [DragEnd None], Normal tt)
    /\ findNearestSnapPoint (position (physics c)) (physics c) = Normal v
    /\ targetPosition (physics c') = v
    /\ velocity (physics c') == 0
    /\ position (physics c') = position (physics c)
    /\ animating (physics c') = true
    /\ dragging c' = false /\ isDragging c' = false.
Proof.
  intros Hcap Hne. unfold onPointerCancel.
  rewrite (endDrag_captured now false e c Hcap). cbv zeta.
  destruct (slow_release_nearest now (Some 0) (physics c) Hne)
    as (name & v & Hres & _ & Hnear & Htarget & Hvel);
    [vm_compute; discriminate|].
  cbv zeta in *. rewrite Hres.
  eexists. exists v. split; [reflexivity|].
  cbn [physics with_physics dragging isDragging with_drag].
  split; [exact Hnear|]. split; [exact Htarget|].
  split; [rewrite Hvel; vm_compute; reflexivity|].
  split.
  - rewrite completePositionChange_unfold. cbv zeta.
    destruct (commitTarget _) as [[tp tn]|]; cbn [out_state];
      [|reflexivity].
    unfold animateTo.
    repeat match goal with
      | |- context [if ?b then _ else _] => destruct b
      end; reflexivity.
  - split; [now apply completePositionChange_returns|].
    split; reflexivity.
Qed.

Lemma cancel_snaps_back_witness :
  exists c',
    onPointerCancel 40 (pointerAt 260) draggedSheet
    = (c', [DragEnd None], Normal tt)
    /\ targetPosition (physics c') = 0.15.
Proof.
  destruct (cancel_snaps_back 40 (pointerAt 260) draggedSheet eq_refl)
    as (c' & v & H & Hv & Ht & _); [discriminate|].
  exists c'. split; [exact H|]. rewrite Ht.
  vm_compute in Hv. now injection Hv.
Defined.

(** X12. Lifting the captured pointer, on a table with an entry and
    distinct names, notifies one drag end that carries the name of an
    entry of the table; the simulator is then animating, with the
    measured velocity times 1.2 and an empty history, and the drag flags
    are down. *)
Theorem release_reports_target (now : Q) (e : PointerEvent)
  (c : SheetController) :
  capturedBy e c = true ->
  snapPoints (physics c) <> [] ->
  NoDup (map fst (snapPoints (physics c))) ->
  exists c' name v,
    onPointerUp now e c = (c', [DragEnd (Some name)], Normal tt)
    /\ In (name, v) (snapPoints (physics c))
    /\ animating (physics c') = true
    /\ velocity (physics c') = calculateVelocity (physics c) * 1.2
    /\ positionHistory (physics c') = []
    /\ timeHistory (physics c') = []
    /\ dragging c' = false /\ isDragging c' = false.
Proof.
  intros Hcap Hne Hnd. unfold onPointerUp.
  rewrite (endDrag_captured now true e c Hcap). cbv zeta.
  set (m := calculateVelocity (physics c)).
  pose proof (completePositionChange_unfold now (Some m) (physics c)) as Hu.
  cbv zeta in Hu. change (gainedVelocity (Some m) (physics c)) with (m * 1.2) in Hu.
  set (s0 := set_history [] [] (set_velocity (m * 1.2) (physics c))) in *.
  destruct (commitTarget_resolves s0 Hne Hnd)
    as (near & [tn tv] & i & _ & _ & Hin & Hct & _).
  cbn [fst snd] in Hct. rewrite Hct in Hu. rewrite Hu.
  cbn [out_result out_state].
  eexists. exists tn, tv. split; [reflexivity|].
  cbn [physics with_physics dragging isDragging with_drag].
  split; [exact Hin|]. split; [apply animateTo_animating|].
  unfold animateTo.
  repeat match goal with
    | |- context [if ?b then _ else _] => destruct b
    end; repeat split.
Qed.

Lemma release_reports_target_witness :
  exists c',
    onPointerUp 40 (pointerAt 260) draggedSheet
    = (c', [DragEnd (Some "docked"%string)], Normal tt).
Proof.
  destruct (release_reports_target 40 (pointerAt 260) draggedSheet eq_refl)
    as (c' & name & v & H & _); [discriminate | |].
  - repeat constructor; cbn; intuition discriminate.
  - exists c'. rewrite H. vm_compute in H.
    injection H as _ H. now rewrite <- H.
Defined.

(** ** Names and values *)

Lemma get_NoDup (table : list (string * Q)) (name : string) (v : Q) :
  NoDup (map fst table) -> In (name, v) table -> get table name = Some v.
Proof.
  induction table as [|[k w] table IH]; intros Hnd Hin; [contradiction|].
  cbn [map fst] in Hnd. inversion Hnd as [|? ? Hk Hnd']; subst.
  cbn [get]. destruct Hin as [E|Hin].
  - injection E as -> ->. now rewrite String.eqb_refl.
  - destruct (String.eqb k name) eqn:E; [|now apply IH].
    apply String.eqb_eq in E. subst k. exfalso. apply Hk.
    now apply (in_map fst) in Hin.
Qed.

(** On a separated table a position equal to the value of a name is
    named by that name. *)
Lemma getPositionName_of_value (table : list (string * Q)) (name : string)
  (v p : Q) :
  NoDup (map fst table) -> separated table -> In (name, v) table ->
  p == v ->
  getPositionName_loop p table = Some name.
Proof.
  intros Hnd Hsep Hin Hp. apply getPositionName_loop_some.
  destruct (in_split _ _ Hin) as (before & after & E).
  exists before, v, after. split; [exact E|]. split.
  - rewrite Hp. setoid_replace (v - v) with 0 by ring. reflexivity.
  - intros e He. rewrite Hp.
    apply (Hsep (name, v) e); [exact Hin | |].
    + rewrite E. apply in_or_app. now left.
    + cbn [fst]. intro C. rewrite E, map_app in Hnd. cbn [map fst] in Hnd.
      apply NoDup_remove_2 in Hnd. apply Hnd. apply in_or_app. left.
      rewrite C. now apply in_map.
Qed.

(** X13. Names and values round-trip: on a table with distinct names whose
    values are at least 0.02 apart, [getPositionValue] of a name of the
    table is its value and [getPositionName] of that value is the name
    again. *)
Theorem name_value_round_trip (name : string) (v : Q) (c : SheetController) :
  NoDup (map fst (snapPoints (physics c))) ->
  separated (snapPoints (physics c)) ->
  In (name, v) (snapPoints (physics c)) ->
  getPositionValue name c == v
  /\ getPositionName (getPositionValue name c) (physics c) = Some name.
Proof.
  intros Hnd Hsep Hin.
  assert (Hv : getPositionValue name c == v).
  { unfold getPositionValue. rewrite (get_NoDup _ _ _ Hnd Hin).
    apply or_default_zero. }
  split; [exact Hv|].
  now apply (getPositionName_of_value _ name v).
Qed.

Lemma sheet_separated :
  NoDup (map fst (snapPoints (physics sheet)))
  /\ separated (snapPoints (physics sheet)).
Proof.
  split.
  - repeat constructor; cbn; intuition discriminate.
  - intros e1 e2 H1 H2 Hne. cbn in H1, H2.
    destruct H1 as [<-|[<-|[<-|[<-|[]]]]];
      destruct H2 as [<-|[<-|[<-|[<-|[]]]]];
      solve [now contradiction Hne | vm_compute; discriminate].
Qed.

Lemma name_value_round_trip_witness :
  getPositionName (getPositionValue "full" sheet) (physics sheet)
  = Some "full"%string.
Proof.
  destruct sheet_separated as [Hnd Hsep].
  apply (name_value_round_trip "full" 0.95 sheet Hnd Hsep).
  do 3 right. now left.
Defined.

Lemma setPosition_currentPosition (now : Q) (name : string)
  (animated : bool) (c : SheetController) :
  currentPosition (fst (setPosition now name animated c)) = name
  /\ datasetPosition (fst (setPosition now name animated c)) = Some name.
Proof.
  unfold setPosition. destruct animated.
  - destruct (animateTo _ _ _ _) as [q ev].
    now destruct (deliver ev (with_physics q c)).
  - now destruct (updateSheetPosition _ _).
Qed.

(** X14. An un-animated [setPosition] to a name of a separated table puts
    the sheet on the value of the name at once: position, transform, data
    attribute and named position all agree, the simulator's velocity,
    target and animating flag are untouched, and a position change is
    notified exactly when the name differs from the previous named
    position. *)
Theorem setPosition_unanimated (now : Q) (name : string) (v : Q)
  (c : SheetController) :
  NoDup (map fst (snapPoints (physics c))) ->
  separated (snapPoints (physics c)) ->
  In (name, v) (snapPoints (physics c)) ->
  name <> ""%string ->
  let c' := fst (setPosition now name false c) in
  position (physics c') == v
  /\ translateY c' == viewportHeight c * (1 - v)
  /\ currentPosition c' = name
  /\ datasetPosition c' = Some name
  /\ velocity (physics c') = velocity (physics c)
  /\ targetPosition (physics c') = targetPosition (physics c)
  /\ animating (physics c') = animating (physics c)
  /\ snd (setPosition now name false c)
     = if String.eqb (currentPosition c) name then []
       else [PositionChange name].
Proof.
  intros Hnd Hsep Hin Hname. cbv zeta.
  destruct (setPosition_currentPosition now name false c) as [Hcur Hdata].
  assert (Hv : getPositionValue name c == v).
  { unfold getPositionValue. rewrite (get_NoDup _ _ _ Hnd Hin).
    apply or_default_zero. }
  rewrite setPosition_physics.
  cbn [position velocity targetPosition animating set_position].
  split; [exact Hv|]. split; [|split; [exact Hcur|]].
  2:{ split; [exact Hdata|]. repeat (split; [reflexivity|]).
      unfold setPosition, updateSheetPosition.
      replace (getPositionName (getPositionValue name c)
                 (physics (with_physics
                    (set_position (getPositionValue name c) (physics c)) c)))
        with (Some name)
        by (symmetry; now apply (getPositionName_of_value _ name v)).
      assert (Ht : truthy (Some name) = true).
      { cbn [truthy]. apply negb_true_iff. now apply String.eqb_neq. }
      rewrite Ht. cbn [andb currentPosition with_translateY with_dataset
                         with_physics].
      destruct (String.eqb (currentPosition c) name); reflexivity. }
  unfold setPosition, updateSheetPosition.
  replace (getPositionName (getPositionValue name c)
             (physics (with_physics
                (set_position (getPositionValue name c) (physics c)) c)))
    with (Some name)
    by (symmetry; now apply (getPositionName_of_value _ name v)).
  assert (Ht : truthy (Some name) = true).
  { cbn [truthy]. apply negb_true_iff. now apply String.eqb_neq. }
  rewrite Ht. cbn [andb currentPosition with_translateY with_dataset
                     with_physics viewportHeight].
  destruct (negb (String.eqb (currentPosition c) name));
    cbn [fst translateY with_dataset with_named with_translateY];
    now rewrite Hv.
Qed.

Lemma setPosition_unanimated_witness :
  snd (setPosition 0 "half" false sheet) = [PositionChange "half"]
  /\ position (physics (fst (setPosition 0 "half" false sheet))) == 0.5.
Proof.
  destruct sheet_separated as [Hnd Hsep].
  destruct (setPosition_unanimated 0 "half" 0.5 sheet Hnd Hsep)
    as (Hp & _ & _ & _ & _ & _ & _ & Hn).
  - do 2 right. now left.
  - discriminate.
  - split; [rewrite Hn; reflexivity | exact Hp].
Defined.

(** X15. A name that is neither a key of the table nor a property every
    object inherits is not rejected: the sheet is sent to 0, jumping
    there when the call is not animated, and the unknown name becomes the
    named position and the data attribute. *)
Theorem setPosition_unknown_name (now : Q) (name : string)
  (animated : bool) (c : SheetController) :
  get (snapPoints (physics c)) name = None ->
  ~ In name inheritedNames ->
  let c' := fst (setPosition now name animated c) in
  getPositionValue name c = 0
  /\ currentPosition c' = name
  /\ datasetPosition c' = Some name
  /\ (animated = false -> position (physics c') = 0)
  /\ (animated = true ->
      animating (physics c') = true
      /\ (Qabs (velocity (physics c)) <= 2 ->
          targetPosition (physics c') = 0)).
Proof.
  intros Hget _. cbv zeta.
  assert (Hv : getPositionValue name c = 0)
    by (unfold getPositionValue; now rewrite Hget).
  destruct (setPosition_currentPosition now name animated c) as [Hcur Hdata].
  split; [exact Hv|]. split; [exact Hcur|]. split; [exact Hdata|].
  rewrite setPosition_physics, Hv. split.
  - intros ->. reflexivity.
  - intros ->. split; [apply animateTo_animating|].
    intro Hslow. unfold animateTo, Math_abs.
    cbn [velocity set_targetPosition allowOvershoot].
    apply gtb_false in Hslow. rewrite Hslow, andb_false_r.
    destruct (animating _); reflexivity.
Qed.

Lemma setPosition_unknown_name_witness :
  let c' := fst (setPosition 0 "open" false
                   (fst (setPosition 0 "half" false sheet))) in
  currentPosition c' = "open"%string /\ position (physics c') = 0.
Proof.
  assert (Hown : ~ In "open"%string inheritedNames).
  { cbn. intuition discriminate. }
  destruct (setPosition_unknown_name 0 "open" false
              (fst (setPosition 0 "half" false sheet)) eq_refl Hown)
    as (_ & Hc & _ & Hp & _).
  split; [exact Hc | now apply Hp].
Defined.

(** ** The keyboard *)

Lemma indexOf_unique (before after : list string) (x : string) :
  NoDup (before ++ x :: after) ->
  indexOf (before ++ x :: after) x = Z.of_nat (List.length before).
Proof.
  unfold indexOf. induction before as [|y before IH]; intro Hnd;
    cbn [app findIndex List.length].
  - now rewrite String.eqb_refl.
  - cbn [app] in Hnd. inversion Hnd as [|? ? Hy Hnd']; subst.
    destruct (String.eqb y x) eqn:E.
    + apply String.eqb_eq in E. subst y. exfalso. apply Hy, in_elt.
    + rewrite (IH Hnd').
      destruct (Z.of_nat (List.length before) <? 0)%Z eqn:Z; lia.
Qed.

Lemma setPosition_snapPoints (now : Q) (name : string) (animated : bool)
  (c : SheetController) :
  snapPoints (physics (fst (setPosition now name animated c)))
  = snapPoints (physics c).
Proof.
  rewrite setPosition_physics. destruct animated; [|reflexivity].
  unfold animateTo.
  repeat match goal with
    | |- context [if ?b then _ else _] => destruct b
    end; reflexivity.
Qed.

(** X16. Alt+ArrowUp and Alt+ArrowDown step through the names of the
    table in its iteration order: from a named position of the table
    (other than [closed], names distinct) Alt+ArrowUp names the next entry
    and Alt+ArrowDown the previous one, each does nothing at its end of
    the table, and Alt+ArrowDown undoes Alt+ArrowUp unless the entry
    reached is [closed]. *)
Theorem keyboard_steps (now now' : Q) (c : SheetController)
  (before after : list (string * Q)) (name : string) (v : Q) :
  NoDup (map fst (snapPoints (physics c))) ->
  snapPoints (physics c) = before ++ (name, v) :: after ->
  currentPosition c = name ->
  name <> "closed"%string ->
  (after = [] -> onKeyDown now altArrowUp c = (c, []))
  /\ (before = [] -> onKeyDown now altArrowDown c = (c, []))
  /\ (forall next w rest,
        after = (next, w) :: rest ->
        currentPosition (fst (onKeyDown now altArrowUp c)) = next
        /\ (next <> "closed"%string ->
            currentPosition
              (fst (onKeyDown now' altArrowDown
                      (fst (onKeyDown now altArrowUp c)))) = name))
  /\ (forall front prev w,
        before = front ++ [(prev, w)] ->
        currentPosition (fst (onKeyDown now altArrowDown c)) = prev).
Proof.
  intros Hnd Htable Hcur Hname.
  assert (Hopen : negb (String.eqb (currentPosition c) "closed") = true).
  { apply negb_true_iff, String.eqb_neq. now rewrite Hcur. }
  assert (Hkeys : Object_keys (snapPoints (physics c))
                  = map fst before ++ name :: map fst after).
  { unfold Object_keys. now rewrite Htable, map_app. }
  assert (Hidx : indexOf (Object_keys (snapPoints (physics c)))
                   (currentPosition c)
                 = Z.of_nat (List.length before)).
  { rewrite Hkeys, Hcur, indexOf_unique, length_map; [reflexivity|].
    rewrite <- Hkeys. exact Hnd. }
  assert (Hlen : List.length (Object_keys (snapPoints (physics c)))
                 = (List.length before + S (List.length after))%nat).
  { rewrite Hkeys, length_app. cbn [List.length]. now rewrite !length_map. }
  assert (Hup : forall next w rest,
             after = (next, w) :: rest ->
             onKeyDown now altArrowUp c = setPosition now next true c).
  { intros next w rest Hafter. unfold onKeyDown. rewrite Hopen.
    cbn [key altKey altArrowUp String.eqb Ascii.eqb Bool.eqb andb].
    cbv zeta. rewrite Hidx, Hlen.
    replace (Z.of_nat (List.length before)
             <? Z.of_nat (List.length before + S (List.length after)) - 1)%Z
      with true
      by (symmetry; apply Z.ltb_lt; rewrite Hafter; cbn [List.length]; lia).
    replace (Z.of_nat (List.length before) + 1)%Z
      with (Z.of_nat (S (List.length before))) by lia.
    rewrite index_of_nat, Hkeys, Hafter.
    replace (S (List.length before))
      with (List.length (map fst before ++ [name]))
      by (rewrite length_app, length_map; cbn; lia).
    cbn [map fst].
    replace (map fst before ++ name :: next :: map fst rest)
      with ((map fst before ++ [name]) ++ next :: map fst rest)
      by (rewrite <- app_assoc; reflexivity).
    now rewrite nth_error_app2, Nat.sub_diag by lia. }
  assert (Hdown : forall c0 front prev w rest nm u,
             NoDup (map fst (snapPoints (physics c0))) ->
             snapPoints (physics c0)
             = (front ++ [(prev, w)]) ++ (nm, u) :: rest ->
             currentPosition c0 = nm -> nm <> "closed"%string ->
             onKeyDown now' altArrowDown c0 = setPosition now' prev true c0).
  { intros c0 front prev w rest nm u Hnd0 Ht0 Hc0 Hn0. unfold onKeyDown.
    replace (negb (String.eqb (currentPosition c0) "closed")) with true
      by (symmetry; apply negb_true_iff, String.eqb_neq; now rewrite Hc0).
    cbn [key altKey altArrowDown String.eqb Ascii.eqb Bool.eqb andb].
    cbv zeta.
    assert (Hk0 : Object_keys (snapPoints (physics c0))
                  = map fst (front ++ [(prev, w)]) ++ nm :: map fst rest).
    { unfold Object_keys. now rewrite Ht0, map_app. }
    rewrite Hk0, Hc0, indexOf_unique by (rewrite <- Hk0; exact Hnd0).
    rewrite length_map, length_app. cbn [List.length].
    replace (Z.of_nat (List.length front + 1) >? 0)%Z with true
      by (symmetry; apply Z.gtb_lt; lia).
    replace (Z.of_nat (List.length front + 1) - 1)%Z
      with (Z.of_nat (List.length front)) by lia.
    rewrite index_of_nat, map_app. cbn [map fst].
    rewrite <- !app_assoc. cbn [app].
    replace (List.length front) with (List.length (map fst front))
      by apply length_map.
    now rewrite nth_error_app2, Nat.sub_diag by lia. }
  split; [|split; [|split]].
  - intros ->. unfold onKeyDown. rewrite Hopen.
    cbn [key altKey altArrowUp String.eqb Ascii.eqb Bool.eqb andb].
    cbv zeta. rewrite Hidx, Hlen. cbn [List.length].
    replace (Z.of_nat (List.length before)
             <? Z.of_nat (List.length before + 1) - 1)%Z with false
      by (symmetry; apply Z.ltb_ge; lia).
    reflexivity.
  - intros ->. unfold onKeyDown. rewrite Hopen.
    cbn [key altKey altArrowDown String.eqb Ascii.eqb Bool.eqb andb].
    cbv zeta. rewrite Hidx. reflexivity.
  - intros next w rest Hafter. rewrite (Hup next w rest Hafter).
    destruct (setPosition_currentPosition now next true c) as [Hc1 _].
    split; [exact Hc1|]. intro Hnext.
    rewrite (Hdown (fst (setPosition now next true c)) before name v rest
               next w).
    + apply setPosition_currentPosition.
    + now rewrite setPosition_snapPoints.
    + rewrite setPosition_snapPoints, Htable, Hafter, <- app_assoc.
      reflexivity.
    + exact Hc1.
    + exact Hnext.
  - intros front prev w Hbefore.
    assert (E : onKeyDown now altArrowDown c = setPosition now prev true c).
    { unfold onKeyDown. rewrite Hopen.
      cbn [key altKey altArrowDown String.eqb Ascii.eqb Bool.eqb andb].
      cbv zeta. rewrite Hidx, Hkeys, Hbefore, length_app.
      cbn [List.length].
      replace (Z.of_nat (List.length front + 1) >? 0)%Z with true
        by (symmetry; apply Z.gtb_lt; lia).
      replace (Z.of_nat (List.length front + 1) - 1)%Z
        with (Z.of_nat (List.length front)) by lia.
      rewrite index_of_nat, map_app. cbn [map fst].
      rewrite <- !app_assoc. cbn [app].
      replace (List.length front) with (List.length (map fst front))
        by apply length_map.
      now rewrite nth_error_app2, Nat.sub_diag by lia. }
    rewrite E. apply setPosition_currentPosition.
Qed.

Lemma keyboard_steps_witness :
  let c := fst (setPosition 0 "docked" false sheet) in
  currentPosition (fst (onKeyDown 1 altArrowUp c)) = "half"%string
  /\ currentPosition
       (fst (onKeyDown 2 altArrowDown (fst (onKeyDown 1 altArrowUp c))))
     = "docked"%string.
Proof.
  intro c.
  destruct (keyboard_steps 1 2 c [("closed"%string, 0)]
              [("half"%string, 0.5); ("full"%string, 0.95)]
              "docked"%string 0.15)
    as (_ & _ & H & _).
  - repeat constructor; cbn; intuition discriminate.
  - reflexivity.
  - reflexivity.
  - discriminate.
  - destruct (H "half"%string 0.5 [("full"%string, 0.95)] eq_refl)
      as [Hup Hdown].
    split; [exact Hup | apply Hdown; discriminate].
Defined.

Lemma setPosition_animated_notifies (now : Q) (name : string)
  (c : SheetController) :
  snd (setPosition now name true c) = [TransitionStart].
Proof.
  unfold setPosition.
  destruct (animateTo_events now (getPositionValue name c) None (physics c))
    as [E|E];
    destruct (animateTo now (getPositionValue name c) None (physics c))
      as [q ev]; cbn [snd] in E; subst ev; reflexivity.
Qed.

(** X17. Escape closes an open sheet and disarms the keyboard: it names
    the position [closed] at once, starts a transition and an animation,
    and the key that comes next, before any frame has run, is ignored
    whatever it is, Alt+ArrowUp included. *)
Theorem escape_closes_and_disarms_keys (now now' : Q) (e : KeyEvent)
  (c : SheetController) :
  currentPosition c <> "closed"%string ->
  let c1 := fst (onKeyDown now escape c) in
  currentPosition c1 = "closed"%string
  /\ snd (onKeyDown now escape c) = [TransitionStart]
  /\ animating (physics c1) = true
  /\ onKeyDown now' e c1 = (c1, []).
Proof.
  intro Hopen. cbv zeta.
  assert (E : onKeyDown now escape c = setPosition now "closed" true c).
  { unfold onKeyDown.
    replace (negb (String.eqb (currentPosition c) "closed")) with true
      by (symmetry; now apply negb_true_iff, String.eqb_neq).
    reflexivity. }
  rewrite E.
  destruct (setPosition_currentPosition now "closed" true c) as [Hc _].
  split; [exact Hc|]. split; [apply setPosition_animated_notifies|].
  split; [rewrite setPosition_physics; apply animateTo_animating|].
  unfold onKeyDown. now rewrite Hc.
Qed.

Lemma escape_closes_and_disarms_keys_witness :
  let c := fst (setPosition 0 "half" false sheet) in
  onKeyDown 2 altArrowUp (fst (onKeyDown 1 escape c))
  = (fst (onKeyDown 1 escape c), []).
Proof.
  intro c.
  destruct (escape_closes_and_disarms_keys 1 2 altArrowUp c) as (_ & _ & _ & H);
    [discriminate | exact H].
Defined.

(** ** A frame seen from the controller *)

Lemma updateSheetPosition_names (p : Q) (c : SheetController) (nm : string) :
  getPositionName p (physics c) = Some nm ->
  nm <> ""%string ->
  currentPosition (fst (updateSheetPosition p c)) = nm.
Proof.
  intros Hn Hnm. unfold updateSheetPosition. rewrite Hn.
  assert (Ht : truthy (Some nm) = true).
  { cbn [truthy]. apply negb_true_iff. now apply String.eqb_neq. }
  rewrite Ht. cbn [andb currentPosition with_translateY with_dataset].
  destruct (String.eqb (currentPosition c) nm) eqn:E; cbn [negb fst].
  - now apply String.eqb_eq in E.
  - reflexivity.
Qed.

Lemma updateSheetPosition_no_end (p : Q) (c : SheetController) :
  filter isTransitionEnd (snd (updateSheetPosition p c)) = [].
Proof.
  unfold updateSheetPosition.
  destruct (getPositionName p (physics c)) as [nm|]; [|reflexivity].
  destruct (truthy (Some nm) && _); reflexivity.
Qed.

(** X18. When a frame settles within 0.01 of a snap value (callbacks
    installed, table with an entry, no empty name), the controller ends
    up synchronised: the transition end is notified exactly once, as the
    last notification, the simulator rests, and the named position is a
    name of the table whose value lies within 0.02 of where the sheet
    is. *)
Theorem settle_names_the_position (timestamp : Q) (c : SheetController) :
  let s := physics c in
  let s1 := fst (integrate timestamp s) in
  snapPoints s <> [] ->
  ~ In ""%string (map fst (snapPoints s)) ->
  onUpdate s = true -> onComplete s = true ->
  Qabs (velocity s1) <= 0.01 ->
  Qabs (targetPosition s - position s) <= 0.001 ->
  (exists e, In e (snapPoints s) /\ Qabs (position s1 - snd e) < 0.01) ->
  exists c' ns,
    sheetFrame timestamp c = (c', ns ++ [TransitionEnd], Normal tt)
    /\ filter isTransitionEnd ns = []
    /\ animating (physics c') = false
    /\ velocity (physics c') = 0
    /\ exists v, In (currentPosition c', v) (snapPoints s)
                 /\ Qabs (position (physics c') - v) < 0.02.
Proof.
  cbv zeta. intros Hne Hnames Hu Hc Hvel Hdisp (e & He & Hclose).
  destruct (integrate_frame timestamp (physics c))
    as (Hd & _ & Hs & _ & Hu1 & _).
  cbv zeta in Hu1, Hs.
  assert (K : keepsGoing (fst (integrate timestamp (physics c)))
                (snd (integrate timestamp (physics c))) = false).
  { apply keepsGoing_false. now rewrite Hd. }
  destruct (animationFrame_settles _ _ Hne K) as (n & f & Hn & Hf & Hframe).
  cbv zeta in Hn, Hf.
  assert (Hlt : ltb (Qabs (position (fst (integrate timestamp (physics c)))
                             - n)) 0.01 = true).
  { destruct Hn as [_ Hmin].
    specialize (Hmin (snd e) (in_map snd _ _ He)).
    apply ltb_true. rewrite Qabs_Qminus.
    rewrite (Qabs_Qminus _ (snd e)) in Hclose. lra. }
  rewrite Hlt in Hf. subst f. unfold sheetFrame. rewrite Hframe.
  cbn [out_events out_state out_result]. rewrite Hu, Hc.
  unfold notifyUpdate. rewrite Hu1, Hu. cbn [app deliver].
  set (s2 := set_animating false _).
  set (c0 := with_physics s2 c).
  destruct (updateSheetPosition _ c0) as [c1 n1] eqn:E1.
  destruct (updateSheetPosition n c1) as [c2 n2] eqn:E2.
  assert (Hp1 : physics c1 = s2).
  { change c1 with (fst (c1, n1)). rewrite <- E1.
    apply updateSheetPosition_physics. }
  assert (Hp2 : physics c2 = s2).
  { change c2 with (fst (c2, n2)). rewrite <- E2.
    now rewrite updateSheetPosition_physics. }
  assert (Hs2 : snapPoints s2 = snapPoints (physics c)) by exact Hs.
  exists c2, (n1 ++ n2). split.
  { rewrite <- app_assoc. reflexivity. }
  split.
  { rewrite filter_app.
    change n1 with (snd (c1, n1)). rewrite <- E1.
    change n2 with (snd (c2, n2)). rewrite <- E2.
    now rewrite !updateSheetPosition_no_end. }
  rewrite Hp2. split; [reflexivity|]. split; [reflexivity|].
  assert (Hsome : exists nm, getPositionName n (physics c1) = Some nm).
  { destruct (getPositionName n (physics c1)) as [nm|] eqn:G; [eauto|].
    exfalso. unfold getPositionName, Object_entries in G.
    rewrite getPositionName_loop_none in G.
    destruct Hn as [Hin _]. apply in_map_iff in Hin.
    destruct Hin as (e' & He' & Hin).
    rewrite Hp1, Hs2 in G. specialize (G e' Hin). rewrite He' in G.
    assert (Z : Qabs (n - n) == 0).
    { setoid_replace (n - n) with 0 by ring. reflexivity. }
    rewrite Z in G. vm_compute in G. now apply G. }
  destruct Hsome as (nm & Hnm).
  pose proof Hnm as Hloop. unfold getPositionName, Object_entries in Hloop.
  apply getPositionName_loop_some in Hloop.
  destruct Hloop as (before & v & after & Et & Hv & _).
  rewrite Hp1, Hs2 in Et.
  assert (Hin : In (nm, v) (snapPoints (physics c))).
  { rewrite Et. apply in_elt. }
  assert (Hnz : nm <> ""%string).
  { intros ->. apply Hnames. now apply (in_map fst) in Hin. }
  exists v. split.
  - change c2 with (fst (c2, n2)). rewrite <- E2.
    now rewrite (updateSheetPosition_names n c1 nm Hnm Hnz).
  - exact Hv.
Qed.

Lemma settle_names_the_position_witness :
  let c := with_physics (set_callbacks true true settling) sheet in
  exists c' ns,
    sheetFrame 64 c = (c', ns ++ [TransitionEnd], Normal tt)
    /\ exists v, In (currentPosition c', v) (snapPoints (physics c))
                 /\ Qabs (position (physics c') - v) < 0.02.
Proof.
  intro c.
  destruct (settle_names_the_position 64 c)
    as (c' & ns & H & _ & _ & _ & v & Hin & Hv).
  - discriminate.
  - cbn. intuition discriminate.
  - reflexivity.
  - reflexivity.
  - vm_compute. discriminate.
  - vm_compute. discriminate.
  - exists ("near"%string, 0.502). split; [cbn; tauto|].
    vm_compute. reflexivity.
  - exists c', ns. split; [exact H|]. exists v. split; assumption.
Defined.

(** * Properties of the mortgage form *)

(** ** The income sources *)

Lemma Array_includes_In (arr : list string) (x : string) :
  Array_includes arr x = true <-> In x arr.
Proof.
  unfold Array_includes. rewrite existsb_exists. split.
  - intros (y & Hy & E). apply String.eqb_eq in E. now subst y.
  - intro H. exists x. split; [exact H | apply String.eqb_refl].
Qed.

Lemma filter_absent (value : string) (l : list string) :
  ~ In value l ->
  filter (fun item => negb (String.eqb item value)) l = l.
Proof.
  induction l as [|y l IH]; intro H; cbn [filter]; [reflexivity|].
  destruct (String.eqb y value) eqn:E.
  - apply String.eqb_eq in E. subst y. exfalso. apply H. now left.
  - cbn [negb]. rewrite IH; [reflexivity|]. intro K. apply H. now right.
Qed.

(** X19. The income-source checkboxes keep a set: from an array without
    duplicates, ticking or unticking a box leaves an array without
    duplicates that holds the box's value exactly when the box is ticked
    and holds every other value exactly when it did before; ticking and
    then unticking a value that was absent gives the array back. *)
Theorem incomeSources_is_a_set (value : string) (checked : bool)
  (d : MortgageData) :
  let before := arrayOrEmpty (incomeSources d) in
  let d' := handleCheckboxChange "incomeSources" value checked d in
  NoDup before ->
  exists after,
    incomeSources d' = Some after
    /\ NoDup after
    /\ (In value after <-> checked = true)
    /\ (forall x, x <> value -> (In x after <-> In x before))
    /\ (~ In value before ->
        incomeSources
          (handleCheckboxChange "incomeSources" value false
             (handleCheckboxChange "incomeSources" value true d))
        = Some before).
Proof.
  cbv zeta. intro Hnd. unfold handleCheckboxChange.
  change (String.eqb "incomeSources" "incomeSources") with true.
  cbv iota. cbn [incomeSources set_incomeSources arrayOrEmpty].
  set (before := arrayOrEmpty (incomeSources d)) in *.
  eexists. split; [reflexivity|].
  assert (Hlast : ~ In value before ->
            Some (filter (fun item => negb (String.eqb item value))
                    (if negb (Array_includes before value)
                     then before ++ [value] else before))
            = Some before).
  { intro Hout.
    destruct (Array_includes before value) eqn:E.
    - apply Array_includes_In in E. contradiction.
    - cbn [negb]. rewrite filter_app, (filter_absent _ _ Hout).
      cbn [filter]. rewrite String.eqb_refl. cbn [negb].
      now rewrite app_nil_r. }
  destruct checked.
  - destruct (Array_includes before value) eqn:E; cbn [negb].
    + apply Array_includes_In in E.
      split; [exact Hnd|]. split; [tauto|]. split; [tauto | exact Hlast].
    + assert (Hout : ~ In value before).
      { intro K. apply Array_includes_In in K. congruence. }
      split.
      { eapply Permutation_NoDup; [apply Permutation_cons_append|].
        now constructor. }
      split.
      { split; [reflexivity|]. intros _. apply in_or_app. right. now left. }
      split; [|exact Hlast].
      intros x Hx. rewrite in_app_iff. cbn [In]. split.
      * intros [K|[K|[]]]; [exact K | congruence].
      * intro K. now left.
  - split; [now apply NoDup_filter|]. split.
    { rewrite filter_In. rewrite String.eqb_refl. cbn [negb]. split.
      - intros [_ K]. discriminate.
      - discriminate. }
    split; [|exact Hlast].
    intros x Hx. rewrite filter_In. split; [tauto|].
    intro K. split; [exact K|].
    apply negb_true_iff. now apply String.eqb_neq.
Qed.

Lemma incomeSources_is_a_set_witness :
  incomeSources
    (handleCheckboxChange "incomeSources" "pension" false
       (handleCheckboxChange "incomeSources" "pension" true applicant))
  = Some ["salary"%string].
Proof.
  destruct (incomeSources_is_a_set "pension" true applicant)
    as (after & _ & _ & _ & _ & H).
  - cbn. repeat constructor. cbn. tauto.
  - apply H. cbn. intuition discriminate.
Defined.

(** ** The ratio limit *)

Lemma calculateResults_shape (parseFloat : string -> option Q)
  (yearsMatch : string -> option Z) (d : MortgageData) :
  let income := or_default (parseFloat (monthlyIncome d)) 0 in
  let car := or_default (parseFloat (carPayment d)) 0 in
  let cards := or_default (parseFloat (creditCardMinimums d)) 0 in
  let housing := or_default (parseFloat (currentHousingExpense d)) 0 in
  let collections := or_default (parseFloat (collectionsPayments d)) 0 in
  exists m fs,
    calculateResults parseFloat yearsMatch d
    = mkCalculated
        (if gtb income 0
         then ((car + cards + housing + collections) / income) * 100
         else 0)
        (Math_max 33 (Math_min 50 m))
        (income * (Math_max 33 (Math_min 50 m) / 100)
         - (car + cards + collections))
        fs
    /\ 32 <= m /\ m <= 49
    /\ m == 43 + Qsum (map effectPoints fs).
Proof.
  cbv zeta. unfold calculateResults.
  set (dti := if gtb _ 0 then _ else 0).
  destruct (String.eqb (creditScoreRange d) "Above 620");
  [|destruct (String.eqb (creditScoreRange d) "600-620");
    [|destruct (String.eqb (creditScoreRange d) "Below 580")]];
  (destruct (gtb _ 0 && gtb _ 0.2); [|destruct (gtb _ 0 && gtb _ 0.1)]);
  (destruct (String.eqb (incomeTrend d) "Increased");
   [|destruct (String.eqb (incomeTrend d) "Decreased")]);
  (destruct (negb _ && String_includes _ _);
   [destruct (yearsMatch (residencyDuration d)) as [years|];
    [destruct (years >=? 2)%Z|]|]);
  destruct (bankruptcy d); destruct (latePayments d);
  (eexists; eexists; split; [reflexivity|]);
  (split; [vm_compute; discriminate|]);
  (split; [vm_compute; discriminate|]);
  vm_compute; reflexivity.
Qed.

Lemma clamp_range (m : Q) :
  32 <= m -> m <= 49 ->
  33 <= Math_max 33 (Math_min 50 m)
  /\ Math_max 33 (Math_min 50 m) <= 49
  /\ Math_max 33 (Math_min 50 m) == Math_max 33 m.
Proof.
  intros Hlo Hhi. unfold Math_max, Math_min.
  assert (E : Qmin 50 m == m) by (apply Q.min_r; lra).
  split; [apply Q.le_max_l|]. split.
  - apply Q.max_lub; [lra | rewrite E; exact Hhi].
  - now rewrite E.
Qed.

(** X20. The maximum ratio [calculateResults] arrives at is 43 plus the
    percentage points of the factors it lists, raised to 33 when that sum
    is lower; it always lies between 33 and 49, so that the upper clamp at
    50 never applies. *)
Theorem maxDti_explained_by_factors (parseFloat : string -> option Q)
  (yearsMatch : string -> option Z) (d : MortgageData) :
  let r := calculateResults parseFloat yearsMatch d in
  33 <= calculatedMaxDti r
  /\ calculatedMaxDti r <= 49
  /\ calculatedMaxDti r
     == Math_max 33 (43 + Qsum (map effectPoints (dtiFactors r))).
Proof.
  cbv zeta.
  destruct (calculateResults_shape parseFloat yearsMatch d)
    as (m & fs & -> & Hlo & Hhi & Hm).
  cbn [calculatedMaxDti dtiFactors].
  destruct (clamp_range m Hlo Hhi) as (H1 & H2 & H3).
  split; [exact H1|]. split; [exact H2|].
  rewrite H3. unfold Math_max. now rewrite Hm.
Qed.

(** X21. An applicant without a positive monthly income is shown as
    within the acceptable range: the ratio is taken as 0, the status of
    the results view is positive, and yet, with debts that are not
    negative, the maximum monthly payment [calculateResults] stores is
    not positive. *)
Theorem verdict_without_income (parseFloat : string -> option Q)
  (yearsMatch : string -> option Z) (d : MortgageData) :
  let r := calculateResults parseFloat yearsMatch d in
  let income := or_default (parseFloat (monthlyIncome d)) 0 in
  let car := or_default (parseFloat (carPayment d)) 0 in
  let cards := or_default (parseFloat (creditCardMinimums d)) 0 in
  let collections := or_default (parseFloat (collectionsPayments d)) 0 in
  income <= 0 ->
  calculatedDti r = 0
  /\ dtiStatus (calculatedDti r) (calculatedMaxDti r) = "positive"%string
  /\ (0 <= car -> 0 <= cards -> 0 <= collections ->
      calculatedMaxMonthlyPayment r <= 0).
Proof.
  cbv zeta. intro Hle.
  destruct (calculateResults_shape parseFloat yearsMatch d)
    as (m & fs & -> & Hlo & Hhi & _).
  cbn [calculatedDti calculatedMaxDti calculatedMaxMonthlyPayment].
  destruct (clamp_range m Hlo Hhi) as (H1 & H2 & _).
  set (M := Math_max 33 (Math_min 50 m)) in *.
  set (income := or_default (parseFloat (monthlyIncome d)) 0) in *.
  assert (Hg : gtb income 0 = false) by (apply gtb_false; lra).
  rewrite Hg. split; [reflexivity|]. split.
  - unfold dtiStatus.
    replace (Qle_bool 0 M) with true; [reflexivity|].
    symmetry. apply Qle_bool_iff. lra.
  - intros Hc Hk Hl.
    assert (Hm : income * (M / 100) == income * M * 0.01) by field.
    rewrite Hm. nra.
Qed.

Lemma verdict_without_income_witness :
  dtiStatus (calculatedDti (calculateResults readNumber noYears emptyData))
    (calculatedMaxDti (calculateResults readNumber noYears emptyData))
  = "positive"%string.
Proof.
  destruct (verdict_without_income readNumber noYears emptyData)
    as (_ & H & _).
  - vm_compute. discriminate.
  - exact H.
Defined.

(** ** The affordability estimate *)

Lemma annuity_factor :
  let monthlyRate := 6.5 / 100 / 12 in
  let K := (Math_pow (1 + monthlyRate) (30 * 12) - 1)
           / (monthlyRate * Math_pow (1 + monthlyRate) (30 * 12)) in
  197 < K / 0.8 /\ K / 0.8 < 198.
Proof.
  cbv zeta. split; vm_compute; reflexivity.
Qed.

(** X22. The affordability view: the payment for principal and interest
    is never negative; the estimated home price lies between 197 and 198
    times that payment; it is positive exactly when the maximum monthly
    payment exceeds the 5 % of income set aside for taxes and insurance,
    and 0 otherwise; and, called with the ratio limit that
    [calculateResults] stored, it arrives at the same maximum monthly
    payment. *)
Theorem affordability_estimate (parseFloat : string -> option Q)
  (yearsMatch : string -> option Z) (maxDti : Q) (d : MortgageData) :
  let a := showAffordability parseFloat maxDti d in
  let r := calculateResults parseFloat yearsMatch d in
  0 <= paymentForPrincipalAndInterest a
  /\ 197 * paymentForPrincipalAndInterest a <= estimatedPrice a
  /\ estimatedPrice a <= 198 * paymentForPrincipalAndInterest a
  /\ (0 < estimatedPrice a <-> taxesAndInsurance a < maxMonthlyPayment a)
  /\ maxMonthlyPayment
       (showAffordability parseFloat (calculatedMaxDti r) d)
     = calculatedMaxMonthlyPayment r.
Proof.
  cbv zeta.
  assert (Hlast : maxMonthlyPayment
                    (showAffordability parseFloat
                       (calculatedMaxDti
                          (calculateResults parseFloat yearsMatch d)) d)
                  = calculatedMaxMonthlyPayment
                      (calculateResults parseFloat yearsMatch d)).
  { destruct (calculateResults_shape parseFloat yearsMatch d)
      as (m & fs & -> & _). reflexivity. }
  unfold showAffordability.
  cbn [paymentForPrincipalAndInterest estimatedPrice taxesAndInsurance
       maxMonthlyPayment] in *.
  set (income := or_default (parseFloat (monthlyIncome d)) 0).
  set (mm := income * (maxDti / 100) - _).
  set (tax := income * 0.05).
  set (p := Math_max 0 (mm - tax)).
  assert (Hp : 0 <= p) by apply Q.le_max_l.
  assert (Hp' : 0 < p <-> tax < mm).
  { unfold p, Math_max. destruct (Q.max_spec 0 (mm - tax)) as [[A ->]|[A ->]];
      lra. }
  destruct annuity_factor as [Klo Khi]. cbv zeta in Klo, Khi.
  change (30 * 12)%Z with 360%Z in *.
  set (K := (Math_pow (1 + 6.5 / 100 / 12) 360 - 1)
            / (6.5 / 100 / 12 * Math_pow (1 + 6.5 / 100 / 12) 360)) in *.
  destruct (gtb p 0) eqn:G.
  - apply gtb_true in G.
    assert (E : p * K / 0.8 == p * (K / 0.8)) by (field).
    rewrite E.
    assert (A : p * 197 < p * (K / 0.8)) by (apply Qmult_lt_l; assumption).
    assert (B : p * (K / 0.8) < p * 198) by (apply Qmult_lt_l; assumption).
    split; [exact Hp|]. split; [lra|]. split; [lra|].
    split; [|exact Hlast].
    split; intro; [apply Hp'; exact G | lra].
  - apply gtb_false in G.
    assert (Z0 : p == 0) by lra.
    split; [exact Hp|]. split; [lra|]. split; [lra|].
    split; [|exact Hlast].
    split; intro K0; [lra | apply Hp' in K0; lra].
Qed.

(** ** Page navigation *)

Lemma hasty_nextPage (k : nat) (f : Pager) :
  (currentPage f < totalPages f)%Z ->
  Nat.iter k nextPage f
  = mkPager (currentPage f) (totalPages f)
      (timeouts f ++ repeat IncrementPage k).
Proof.
  intro H. induction k as [|k IH].
  - cbn. rewrite app_nil_r. now destruct f.
  - cbn [Nat.iter nat_rect]. change (nat_rect _ _ _ k) with (Nat.iter k nextPage f).
    rewrite IH. unfold nextPage. cbn [currentPage totalPages].
    apply Z.ltb_lt in H. rewrite H. unfold setTimeout.
    cbn [currentPage totalPages timeouts].
    rewrite <- app_assoc. f_equal. f_equal.
    change [IncrementPage] with (repeat IncrementPage 1).
    rewrite <- repeat_app. f_equal. lia.
Qed.

Lemma increments_fire (k : nat) (p t : Z) :
  Nat.iter k timeoutFires (mkPager p t (repeat IncrementPage k))
  = mkPager (p + Z.of_nat k) t [].
Proof.
  revert p. induction k as [|k IH]; intro p.
  - cbn. now rewrite Z.add_0_r.
  - rewrite Nat.iter_succ_r. cbn [repeat]. unfold timeoutFires at 2.
    cbn [timeouts runCallback currentPage totalPages].
    rewrite IH. f_equal. lia.
Qed.

(** X23. Clicks on the navigation buttons that each wait for the page
    change of the click before keep the page between 1 and the number of
    pages, with nothing left scheduled. *)
Theorem patient_clicks_stay_in_range (ks : list PageClick) (f : Pager) :
  (1 <= currentPage f <= totalPages f)%Z ->
  timeouts f = [] ->
  let f' := patientClicks ks f in
  (1 <= currentPage f' <= totalPages f')%Z
  /\ timeouts f' = []
  /\ totalPages f' = totalPages f.
Proof.
  cbv zeta. unfold patientClicks. revert f.
  induction ks as [|k ks IH]; intros f Hr Ht; cbn [fold_left].
  - auto.
  - assert (Hstep : (1 <= currentPage (timeoutFires (click k f))
                     <= totalPages (timeoutFires (click k f)))%Z
                    /\ timeouts (timeoutFires (click k f)) = []
                    /\ totalPages (timeoutFires (click k f))
                       = totalPages f).
    { destruct k; cbn [click]; unfold nextPage, previousPage.
      - destruct (Z.ltb_spec (currentPage f) (totalPages f)).
        + unfold setTimeout, timeoutFires.
          cbn [timeouts currentPage totalPages]. rewrite Ht.
          cbn [app runCallback currentPage totalPages timeouts].
          repeat split; lia.
        + unfold timeoutFires. rewrite Ht. auto.
      - rewrite Z.gtb_ltb.
        destruct (Z.ltb_spec 1 (currentPage f)).
        + unfold setTimeout, timeoutFires.
          cbn [timeouts currentPage totalPages]. rewrite Ht.
          cbn [app runCallback currentPage totalPages timeouts].
          repeat split; lia.
        + unfold timeoutFires. rewrite Ht. auto. }
    destruct Hstep as (S1 & S2 & S3).
    destruct (IH _ S1 S2) as (I1 & I2 & I3).
    split; [exact I1|]. split; [exact I2 | congruence].
Qed.

Lemma patient_clicks_stay_in_range_witness :
  let f' :=
    patientClicks [ClickNext; ClickNext; ClickNext; ClickNext; ClickPrevious]
      (mkPager 2 4 []) in
  (1 <= currentPage f' <= totalPages f')%Z.
Proof.
  destruct (patient_clicks_stay_in_range
              [ClickNext; ClickNext; ClickNext; ClickNext; ClickPrevious]
              (mkPager 2 4 [])) as (H & _ & _).
  - cbn. lia.
  - reflexivity.
  - exact H.
Defined.

(** X24. The page test is made when the click arrives and the page
    changes 150 ms later: [k] clicks on the next button that arrive before
    the first page change, on a page before the last one, all pass the
    test, and once their callbacks have run the page has advanced by [k],
    beyond the number of pages when [k] is large enough. *)
Theorem hasty_clicks_leave_range (k : nat) (f : Pager) :
  (currentPage f < totalPages f)%Z ->
  timeouts f = [] ->
  let f' := Nat.iter k timeoutFires (Nat.iter k nextPage f) in
  currentPage f' = (currentPage f + Z.of_nat k)%Z
  /\ totalPages f' = totalPages f
  /\ timeouts f' = [].
Proof.
  cbv zeta. intros H Ht.
  rewrite (hasty_nextPage k f H), Ht. cbn [app].
  rewrite increments_fire. cbn [currentPage totalPages timeouts]. auto.
Qed.

Lemma hasty_clicks_leave_range_witness :
  currentPage
    (timeoutFires (timeoutFires (nextPage (nextPage (mkPager 3 4 [])))))
  = 5%Z.
Proof.
  destruct (hasty_clicks_leave_range 2 (mkPager 3 4 [])) as (H & _).
  - cbn. lia.
  - reflexivity.
  - exact H.
Defined.
